(** * Cash-advance management: the relational schema and its data model

    A shallow embedding of [src/app/models/cash-advance.model.ts]: the
    [CashAdvance] interface and the PostgreSQL script that follows it
    (tables, constraints, the audit trigger, the summary view and the seed
    row).  A table is the list of its rows; a column value is [option T],
    [None] being SQL's NULL; a statement is a function on the database that
    either yields the new database or raises the error condition PostgreSQL
    raises, in which case nothing is written.  Statements write one row,
    named by its primary key; the indexes of lines 95-99 change no result
    and are left out. *)

From Stdlib Require Import ZArith NArith List String Ascii Bool Lia.
From Stdlib Require Import Permutation.
Import ListNotations.
Open Scope string_scope.
Open Scope Z_scope.

Set Implicit Arguments.

(** ** SQL values *)

(** UUID: a 128-bit value. *)
Definition uuid := N.
Bind Scope N_scope with uuid.
(** TIMESTAMP WITH TIME ZONE and DATE: a point on the time line. *)
Definition timestamptz := Z.
Definition date := Z.
(** NUMERIC(10,2): the value counted in hundredths. *)
Definition numeric := Z.
Definition text := string.

(** Error conditions, under the names PostgreSQL gives them; the argument is
    the column or the constraint that raised it. *)
Inductive sqlstate : Type :=
| not_null_violation (column : string)
| check_violation (constraint : string)
| unique_violation (constraint : string)
| foreign_key_violation (constraint : string)
| string_data_right_truncation (column : string)
| numeric_value_out_of_range (column : string).

Inductive result (A : Type) : Type :=
| Ok (a : A)
| Err (e : sqlstate).
Arguments Ok {A} a.
Arguments Err {A} e.

(** A column of an INSERT: left out (the column's DEFAULT applies) or given,
    possibly as NULL. *)
Inductive given (T : Type) : Type :=
| DEFAULT
| VALUE (v : option T).
Arguments DEFAULT {T}.
Arguments VALUE {T} v.

(** What a statement sees of its session: the values [uuid_generate_v4()]
    returns, call after call, [CURRENT_TIMESTAMP], and the setting
    [app.current_user_id] already cast to uuid ([None] when it is unset:
    [current_setting(_, true)] is then NULL). *)
Record env : Type := {
  uuid_generate_v4 : nat -> uuid;
  CURRENT_TIMESTAMP : timestamptz;
  app_current_user_id : option uuid
}.

(** ** Three-valued tests *)

Definition sql_eq {T} (eqb : T -> T -> bool) (a b : option T) : option bool :=
  match a, b with
  | Some x, Some y => Some (eqb x y)
  | _, _ => None
  end.

(** [x IN (v1, ..., vn)] over non-null literals. *)
Definition sql_in (x : option text) (vs : list text) : option bool :=
  match x with
  | Some s => Some (existsb (String.eqb s) vs)
  | None => None
  end.

(** A WHERE or ON condition keeps a row only when it is true. *)
Definition is_true (b : option bool) : bool :=
  match b with Some true => true | _ => false end.

Definition COALESCE {T} (a b : option T) : option T :=
  match a with Some _ => a | None => b end.

(** ** Column types and constraints *)

(** VARCHAR(n): a longer string is an error.  (A string is counted in
    bytes here and in characters there; PostgreSQL also cuts a longer
    string whose excess is all spaces instead of refusing it.) *)
Definition VARCHAR (n : nat) (column : string) (v : option text)
  : result unit :=
  match v with
  | Some s => if (String.length s <=? n)%nat then Ok tt
              else Err (string_data_right_truncation column)
  | None => Ok tt
  end.

(** NUMERIC(10,2): at most eight digits before the point. *)
Definition NUMERIC_10_2 (column : string) (v : option numeric)
  : result unit :=
  match v with
  | Some x => if Z.abs x <? 10 ^ 10 then Ok tt
              else Err (numeric_value_out_of_range column)
  | None => Ok tt
  end.

(** INTEGER: 32 bits, signed. *)
Definition INTEGER (column : string) (v : option Z) : result unit :=
  match v with
  | Some x => if (- 2 ^ 31 <=? x) && (x <? 2 ^ 31) then Ok tt
              else Err (numeric_value_out_of_range column)
  | None => Ok tt
  end.

Definition NOT_NULL {T} (column : string) (v : option T) : result unit :=
  match v with
  | Some _ => Ok tt
  | None => Err (not_null_violation column)
  end.

(** A CHECK constraint rejects a row only when its condition is false; a
    condition that is NULL passes. *)
Definition CHECK (constraint : string) (b : option bool) : result unit :=
  match b with
  | Some false => Err (check_violation constraint)
  | _ => Ok tt
  end.

(** UNIQUE: no other row holds the same non-null value. *)
Definition UNIQUE {T} (eqb : T -> T -> bool) (constraint : string)
  (v : option T) (others : list (option T)) : result unit :=
  if existsb (fun o => is_true (sql_eq eqb v o)) others
  then Err (unique_violation constraint) else Ok tt.

(** REFERENCES t(id), on the referencing side: NULL, or the key of a row. *)
Definition REFERENCES (constraint : string) (v : option uuid)
  (keys : list (option uuid)) : result unit :=
  match v with
  | None => Ok tt
  | Some _ =>
      if existsb (fun k => is_true (sql_eq N.eqb v k)) keys then Ok tt
      else Err (foreign_key_violation constraint)
  end.

(** The referenced side with the default action (NO ACTION): the row may not
    go while a row still refers to it. *)
Definition NO_ACTION (constraint : string) (key : option uuid)
  (referring : list (option uuid)) : result unit :=
  if existsb (fun r => is_true (sql_eq N.eqb r key)) referring
  then Err (foreign_key_violation constraint) else Ok tt.

Definition seq_result (a b : result unit) : result unit :=
  match a with Ok _ => b | Err e => Err e end.
Notation "a ;;; b" := (seq_result a b) (at level 61, right associativity).

(** ** Rows *)

(** [users], lines 21-31. *)
Record users_of (col : Type -> Type) : Type := {
  u_id : col uuid;
  u_username : col text;
  u_password_hash : col text;
  u_email : col text;
  u_role : col text;
  u_access_level : col Z;
  u_created_at : col timestamptz;
  u_last_login : col timestamptz;
  u_is_active : col bool
}.

(** [employees], lines 34-50. *)
Record employees_of (col : Type -> Type) : Type := {
  e_id : col uuid;
  e_user_id : col uuid;
  e_first_name : col text;
  e_last_name : col text;
  e_department : col text;
  e_supervisor_id : col uuid;
  e_hire_date : col date;
  e_phone_number : col text;
  e_address : col text;
  e_position : col text;
  e_salary_rate : col numeric
}.

(** [cash_advances], lines 53-68. *)
Record cash_advances_of (col : Type -> Type) : Type := {
  ca_id : col uuid;
  ca_employee_id : col uuid;
  ca_amount : col numeric;
  ca_purpose : col text;
  ca_status : col text;
  ca_created_at : col timestamptz;
  ca_updated_at : col timestamptz;
  ca_approved_by : col uuid;
  ca_approved_at : col timestamptz;
  ca_rejection_reason : col text;
  ca_payment_date : col date;
  ca_installment_period : col Z;
  ca_monthly_deduction : col numeric
}.

(** [payments], lines 71-79. *)
Record payments_of (col : Type -> Type) : Type := {
  p_id : col uuid;
  p_cash_advance_id : col uuid;
  p_amount : col numeric;
  p_payment_date : col timestamptz;
  p_payment_type : col text;
  p_reference_number : col text;
  p_recorded_by : col uuid
}.

(** A JSON scalar as [row_to_json] makes it from a column value; the value is
    kept typed, its rendering as JSON text is not modelled. *)
Inductive datum : Type :=
| d_uuid (u : uuid)
| d_text (s : text)
| d_numeric (n : numeric)
| d_integer (i : Z)
| d_timestamptz (t : timestamptz)
| d_date (d : date)
| d_boolean (b : bool).

(** JSONB object: the columns by name, [None] for JSON null. *)
Definition jsonb := list (string * option datum).

Fixpoint json_get (j : jsonb) (key : string) : option datum :=
  match j with
  | [] => None
  | (k, v) :: rest => if String.eqb k key then v else json_get rest key
  end.

(** [audit_logs], lines 82-92. *)
Record audit_logs_of (col : Type -> Type) : Type := {
  al_id : col uuid;
  al_user_id : col uuid;
  al_action : col text;
  al_entity_type : col text;
  al_entity_id : col uuid;
  al_old_values : col jsonb;
  al_new_values : col jsonb;
  al_ip_address : col text;
  al_created_at : col timestamptz
}.

(** A stored row holds a value or NULL in every column; the row of an INSERT
    may leave columns out. *)
Definition users_row := users_of option.
Definition employees_row := employees_of option.
Definition cash_advances_row := cash_advances_of option.
Definition payments_row := payments_of option.
Definition audit_logs_row := audit_logs_of option.

Record database : Type := {
  users : list users_row;
  employees : list employees_row;
  cash_advances : list cash_advances_row;
  payments : list payments_row;
  audit_logs : list audit_logs_row
}.

(** The database after CREATE DATABASE and the CREATE TABLE statements. *)
Definition empty_db : database :=
  {| users := []; employees := []; cash_advances := []; payments := [];
     audit_logs := [] |}.

Definition set_users (db : database) (t : list users_row) : database :=
  {| users := t; employees := employees db; cash_advances := cash_advances db;
     payments := payments db; audit_logs := audit_logs db |}.
Definition set_employees (db : database) (t : list employees_row) : database :=
  {| users := users db; employees := t; cash_advances := cash_advances db;
     payments := payments db; audit_logs := audit_logs db |}.
Definition set_cash_advances (db : database) (t : list cash_advances_row)
  : database :=
  {| users := users db; employees := employees db; cash_advances := t;
     payments := payments db; audit_logs := audit_logs db |}.
Definition set_payments (db : database) (t : list payments_row) : database :=
  {| users := users db; employees := employees db;
     cash_advances := cash_advances db; payments := t;
     audit_logs := audit_logs db |}.
Definition set_audit_logs (db : database) (t : list audit_logs_row)
  : database :=
  {| users := users db; employees := employees db;
     cash_advances := cash_advances db; payments := payments db;
     audit_logs := t |}.

(** ** Statements as state transformers *)

(** A statement runs in its session, threading the number of
    [uuid_generate_v4()] calls made so far and the database; an error aborts
    it and leaves no state behind. *)
Definition tx (A : Type) : Type :=
  env -> nat * database -> result (A * (nat * database)).

Definition ret {A} (a : A) : tx A := fun _ s => Ok (a, s).

Definition bind {A B} (m : tx A) (f : A -> tx B) : tx B :=
  fun E s =>
    match m E s with
    | Ok (a, s') => f a E s'
    | Err e => Err e
    end.

Notation "x <- m ;; k" := (bind m (fun x => k))
  (at level 62, m at next level, right associativity).
Notation "m ;; k" := (bind m (fun _ => k))
  (at level 62, right associativity).

Definition get : tx database := fun _ s => Ok (snd s, s).
Definition put (db : database) : tx unit := fun _ s => Ok (tt, (fst s, db)).
Definition ask : tx env := fun E s => Ok (E, s).

(** A constraint check inside a statement. *)
Definition check (r : result unit) : tx unit :=
  fun _ s => match r with Ok _ => Ok (tt, s) | Err e => Err e end.

(** One call of [uuid_generate_v4()]. *)
Definition gen_uuid : tx uuid :=
  fun E s => Ok (uuid_generate_v4 E (fst s), (S (fst s), snd s)).

Definition default_uuid (g : given uuid) : tx (option uuid) :=
  match g with
  | DEFAULT => u <- gen_uuid ;; ret (Some u)
  | VALUE v => ret v
  end.

Definition or_default {T} (g : given T) (d : option T) : option T :=
  match g with
  | DEFAULT => d
  | VALUE v => v
  end.

(** Running a statement on a database: the rows it touched and the new
    database, or the error. *)
Definition run {A} (E : env) (m : tx A) (db : database)
  : result (A * database) :=
  match m E (O, db) with
  | Ok (a, (_, db')) => Ok (a, db')
  | Err e => Err e
  end.

(** The first row that satisfies [p], with the rows before and after it. *)
Fixpoint extract {R} (p : R -> bool) (l : list R)
  : option (list R * R * list R) :=
  match l with
  | [] => None
  | r :: rest =>
      if p r then Some ([], r, rest)
      else match extract p rest with
           | Some (before, x, after) => Some (r :: before, x, after)
           | None => None
           end
  end.

(** [WHERE id = k]. *)
Definition has_id {R} (id : R -> option uuid) (k : uuid) (r : R) : bool :=
  is_true (sql_eq N.eqb (id r) (Some k)).

(** ** Table constraints *)

Definition role_check (r : users_row) : option bool :=
  sql_in (u_role r) ["ADMIN"; "SUPERVISOR"; "EMPLOYEE"].

Definition users_columns (r : users_row) : result unit :=
  VARCHAR 50 "username" (u_username r) ;;;
  VARCHAR 100 "email" (u_email r) ;;;
  VARCHAR 20 "role" (u_role r) ;;;
  INTEGER "access_level" (u_access_level r) ;;;
  NOT_NULL "id" (u_id r) ;;;
  NOT_NULL "username" (u_username r) ;;;
  NOT_NULL "password_hash" (u_password_hash r) ;;;
  NOT_NULL "email" (u_email r) ;;;
  NOT_NULL "role" (u_role r) ;;;
  NOT_NULL "access_level" (u_access_level r) ;;;
  CHECK "users_role_check" (role_check r).

Definition users_keys (others : list users_row) (r : users_row)
  : result unit :=
  UNIQUE N.eqb "users_pkey" (u_id r) (map (@u_id _) others) ;;;
  UNIQUE String.eqb "users_username_key" (u_username r)
    (map (@u_username _) others) ;;;
  UNIQUE String.eqb "users_email_key" (u_email r) (map (@u_email _) others).

Definition employees_columns (r : employees_row) : result unit :=
  VARCHAR 50 "first_name" (e_first_name r) ;;;
  VARCHAR 50 "last_name" (e_last_name r) ;;;
  VARCHAR 100 "department" (e_department r) ;;;
  VARCHAR 20 "phone_number" (e_phone_number r) ;;;
  VARCHAR 100 "position" (e_position r) ;;;
  NUMERIC_10_2 "salary_rate" (e_salary_rate r) ;;;
  NOT_NULL "id" (e_id r) ;;;
  NOT_NULL "first_name" (e_first_name r) ;;;
  NOT_NULL "last_name" (e_last_name r) ;;;
  NOT_NULL "hire_date" (e_hire_date r).

Definition employees_keys (others : list employees_row) (r : employees_row)
  : result unit :=
  UNIQUE N.eqb "employees_pkey" (e_id r) (map (@e_id _) others).

(** [supervisor_id] carries two foreign keys: the column constraint of line
    40 and [fk_supervisor] of lines 46-49.  The row may refer to itself. *)
Definition employees_references (db : database) (others : list employees_row)
  (r : employees_row) : result unit :=
  REFERENCES "employees_user_id_fkey" (e_user_id r)
    (map (@u_id _) (users db)) ;;;
  REFERENCES "employees_supervisor_id_fkey" (e_supervisor_id r)
    (map (@e_id _) (r :: others)) ;;;
  REFERENCES "fk_supervisor" (e_supervisor_id r)
    (map (@e_id _) (r :: others)).

Definition status_check (r : cash_advances_row) : option bool :=
  sql_in (ca_status r) ["PENDING"; "APPROVED"; "REJECTED"; "PAID"].

Definition cash_advances_columns (r : cash_advances_row) : result unit :=
  NUMERIC_10_2 "amount" (ca_amount r) ;;;
  VARCHAR 20 "status" (ca_status r) ;;;
  INTEGER "installment_period" (ca_installment_period r) ;;;
  NUMERIC_10_2 "monthly_deduction" (ca_monthly_deduction r) ;;;
  NOT_NULL "id" (ca_id r) ;;;
  NOT_NULL "employee_id" (ca_employee_id r) ;;;
  NOT_NULL "amount" (ca_amount r) ;;;
  NOT_NULL "purpose" (ca_purpose r) ;;;
  NOT_NULL "status" (ca_status r) ;;;
  CHECK "cash_advances_status_check" (status_check r).

Definition cash_advances_keys (others : list cash_advances_row)
  (r : cash_advances_row) : result unit :=
  UNIQUE N.eqb "cash_advances_pkey" (ca_id r) (map (@ca_id _) others).

Definition cash_advances_references (db : database) (r : cash_advances_row)
  : result unit :=
  REFERENCES "cash_advances_employee_id_fkey" (ca_employee_id r)
    (map (@e_id _) (employees db)) ;;;
  REFERENCES "cash_advances_approved_by_fkey" (ca_approved_by r)
    (map (@u_id _) (users db)).

Definition payment_type_check (r : payments_row) : option bool :=
  sql_in (p_payment_type r) ["SALARY_DEDUCTION"; "CASH"; "BANK_TRANSFER"].

Definition payments_columns (r : payments_row) : result unit :=
  NUMERIC_10_2 "amount" (p_amount r) ;;;
  VARCHAR 20 "payment_type" (p_payment_type r) ;;;
  VARCHAR 50 "reference_number" (p_reference_number r) ;;;
  NOT_NULL "id" (p_id r) ;;;
  NOT_NULL "cash_advance_id" (p_cash_advance_id r) ;;;
  NOT_NULL "amount" (p_amount r) ;;;
  CHECK "payments_payment_type_check" (payment_type_check r).

Definition payments_keys (others : list payments_row) (r : payments_row)
  : result unit :=
  UNIQUE N.eqb "payments_pkey" (p_id r) (map (@p_id _) others).

Definition payments_references (db : database) (r : payments_row)
  : result unit :=
  REFERENCES "payments_cash_advance_id_fkey" (p_cash_advance_id r)
    (map (@ca_id _) (cash_advances db)) ;;;
  REFERENCES "payments_recorded_by_fkey" (p_recorded_by r)
    (map (@u_id _) (users db)).

Definition audit_logs_columns (r : audit_logs_row) : result unit :=
  VARCHAR 50 "action" (al_action r) ;;;
  VARCHAR 50 "entity_type" (al_entity_type r) ;;;
  VARCHAR 45 "ip_address" (al_ip_address r) ;;;
  NOT_NULL "id" (al_id r) ;;;
  NOT_NULL "action" (al_action r) ;;;
  NOT_NULL "entity_type" (al_entity_type r).

Definition audit_logs_keys (others : list audit_logs_row)
  (r : audit_logs_row) : result unit :=
  UNIQUE N.eqb "audit_logs_pkey" (al_id r) (map (@al_id _) others).

Definition audit_logs_references (db : database) (r : audit_logs_row)
  : result unit :=
  REFERENCES "audit_logs_user_id_fkey" (al_user_id r)
    (map (@u_id _) (users db)).

(** ** The audit trigger *)

(** What the trigger function needs of the row type of the table it fires
    on: the [id] column and [row_to_json]. *)
Class Row (R : Type) : Type := {
  id_of : R -> option uuid;
  row_to_json : R -> jsonb
}.

#[export] Instance employees_Row : Row employees_row := {|
  id_of := @e_id option;
  row_to_json := fun r =>
    [ ("id", option_map d_uuid (e_id r));
      ("user_id", option_map d_uuid (e_user_id r));
      ("first_name", option_map d_text (e_first_name r));
      ("last_name", option_map d_text (e_last_name r));
      ("department", option_map d_text (e_department r));
      ("supervisor_id", option_map d_uuid (e_supervisor_id r));
      ("hire_date", option_map d_date (e_hire_date r));
      ("phone_number", option_map d_text (e_phone_number r));
      ("address", option_map d_text (e_address r));
      ("position", option_map d_text (e_position r));
      ("salary_rate", option_map d_numeric (e_salary_rate r)) ]
|}.

#[export] Instance cash_advances_Row : Row cash_advances_row := {|
  id_of := @ca_id option;
  row_to_json := fun r =>
    [ ("id", option_map d_uuid (ca_id r));
      ("employee_id", option_map d_uuid (ca_employee_id r));
      ("amount", option_map d_numeric (ca_amount r));
      ("purpose", option_map d_text (ca_purpose r));
      ("status", option_map d_text (ca_status r));
      ("created_at", option_map d_timestamptz (ca_created_at r));
      ("updated_at", option_map d_timestamptz (ca_updated_at r));
      ("approved_by", option_map d_uuid (ca_approved_by r));
      ("approved_at", option_map d_timestamptz (ca_approved_at r));
      ("rejection_reason", option_map d_text (ca_rejection_reason r));
      ("payment_date", option_map d_date (ca_payment_date r));
      ("installment_period", option_map d_integer (ca_installment_period r));
      ("monthly_deduction", option_map d_numeric (ca_monthly_deduction r)) ]
|}.

(** The row an INSERT INTO audit_logs stores: each column left out takes its
    DEFAULT, NULL where the table declares none. *)
Definition audit_logs_defaults (E : env) (id : option uuid)
  (r : audit_logs_of given) : audit_logs_row :=
  {| al_id := id;
     al_user_id := or_default (al_user_id r) None;
     al_action := or_default (al_action r) None;
     al_entity_type := or_default (al_entity_type r) None;
     al_entity_id := or_default (al_entity_id r) None;
     al_old_values := or_default (al_old_values r) None;
     al_new_values := or_default (al_new_values r) None;
     al_ip_address := or_default (al_ip_address r) None;
     al_created_at :=
       or_default (al_created_at r) (Some (CURRENT_TIMESTAMP E)) |}.

(** INSERT INTO audit_logs: the defaults of lines 83 and 91, then the
    table's constraints. *)
Definition insert_audit_logs (r : audit_logs_of given) : tx nat :=
  id <- default_uuid (al_id r) ;;
  E <- ask ;;
  let NEW := audit_logs_defaults E id r in
  db <- get ;;
  check (audit_logs_columns NEW ;;;
         audit_logs_keys (audit_logs db) NEW ;;;
         audit_logs_references db NEW) ;;
  put (set_audit_logs db (audit_logs db ++ [NEW])%list) ;;
  ret 1%nat.

(** [audit_trigger_function()], lines 102-123.  [OLD] and [NEW] are the
    trigger's row variables, NULL ([None]) where the operation has none (as
    PostgreSQL 11 and later have it); RETURN NULL is without effect in an
    AFTER trigger. *)
Definition audit_trigger_function {R} `{Row R} (TG_OP TG_TABLE_NAME : text)
  (OLD NEW : option R) : tx unit :=
  E <- ask ;;
  insert_audit_logs
    {| al_id := DEFAULT;
       al_user_id := VALUE (app_current_user_id E);
       al_action := VALUE (Some TG_OP);
       al_entity_type := VALUE (Some TG_TABLE_NAME);
       al_entity_id :=
         VALUE (COALESCE
                  (match NEW with Some r => id_of r | None => None end)
                  (match OLD with Some r => id_of r | None => None end));
       al_old_values :=
         VALUE (if String.eqb TG_OP "DELETE"
                then option_map row_to_json OLD else None);
       al_new_values :=
         VALUE (if existsb (String.eqb TG_OP) ["INSERT"; "UPDATE"]
                then option_map row_to_json NEW else None);
       al_ip_address := DEFAULT;
       al_created_at := DEFAULT |} ;;
  ret tt.

(** ** INSERT, UPDATE and DELETE

    A statement writes one row, named by its primary key; its result is the
    number of rows it touched. *)

(** The row an INSERT INTO users stores: each column left out takes its
    DEFAULT, NULL where the table declares none. *)
Definition users_defaults (E : env) (id : option uuid)
  (r : users_of given) : users_row :=
  {| u_id := id;
     u_username := or_default (u_username r) None;
     u_password_hash := or_default (u_password_hash r) None;
     u_email := or_default (u_email r) None;
     u_role := or_default (u_role r) None;
     u_access_level := or_default (u_access_level r) (Some 1);
     u_created_at :=
       or_default (u_created_at r) (Some (CURRENT_TIMESTAMP E));
     u_last_login := or_default (u_last_login r) None;
     u_is_active := or_default (u_is_active r) (Some true) |}.

Definition insert_users (r : users_of given) : tx nat :=
  id <- default_uuid (u_id r) ;;
  E <- ask ;;
  let NEW := users_defaults E id r in
  db <- get ;;
  check (users_columns NEW ;;; users_keys (users db) NEW) ;;
  put (set_users db (users db ++ [NEW])%list) ;;
  ret 1%nat.

(** The row an INSERT INTO employees stores: each column left out takes its
    DEFAULT, NULL where the table declares none. *)
Definition employees_defaults (E : env) (id : option uuid)
  (r : employees_of given) : employees_row :=
  {| e_id := id;
     e_user_id := or_default (e_user_id r) None;
     e_first_name := or_default (e_first_name r) None;
     e_last_name := or_default (e_last_name r) None;
     e_department := or_default (e_department r) None;
     e_supervisor_id := or_default (e_supervisor_id r) None;
     e_hire_date := or_default (e_hire_date r) None;
     e_phone_number := or_default (e_phone_number r) None;
     e_address := or_default (e_address r) None;
     e_position := or_default (e_position r) None;
     e_salary_rate := or_default (e_salary_rate r) None |}.

Definition insert_employees (r : employees_of given) : tx nat :=
  id <- default_uuid (e_id r) ;;
  E <- ask ;;
  let NEW := employees_defaults E id r in
  db <- get ;;
  check (employees_columns NEW ;;; employees_keys (employees db) NEW ;;;
         employees_references db (employees db) NEW) ;;
  put (set_employees db (employees db ++ [NEW])%list) ;;
  audit_trigger_function "INSERT" "employees" None (Some NEW) ;;
  ret 1%nat.

(** The row an INSERT INTO cash_advances stores: each column left out takes its
    DEFAULT, NULL where the table declares none. *)
Definition cash_advances_defaults (E : env) (id : option uuid)
  (r : cash_advances_of given) : cash_advances_row :=
  {| ca_id := id;
     ca_employee_id := or_default (ca_employee_id r) None;
     ca_amount := or_default (ca_amount r) None;
     ca_purpose := or_default (ca_purpose r) None;
     ca_status := or_default (ca_status r) (Some "PENDING");
     ca_created_at :=
       or_default (ca_created_at r) (Some (CURRENT_TIMESTAMP E));
     ca_updated_at := or_default (ca_updated_at r) None;
     ca_approved_by := or_default (ca_approved_by r) None;
     ca_approved_at := or_default (ca_approved_at r) None;
     ca_rejection_reason := or_default (ca_rejection_reason r) None;
     ca_payment_date := or_default (ca_payment_date r) None;
     ca_installment_period := or_default (ca_installment_period r) None;
     ca_monthly_deduction := or_default (ca_monthly_deduction r) None |}.

Definition insert_cash_advances (r : cash_advances_of given) : tx nat :=
  id <- default_uuid (ca_id r) ;;
  E <- ask ;;
  let NEW := cash_advances_defaults E id r in
  db <- get ;;
  check (cash_advances_columns NEW ;;;
         cash_advances_keys (cash_advances db) NEW ;;;
         cash_advances_references db NEW) ;;
  put (set_cash_advances db (cash_advances db ++ [NEW])%list) ;;
  audit_trigger_function "INSERT" "cash_advances" None (Some NEW) ;;
  ret 1%nat.

(** The row an INSERT INTO payments stores: each column left out takes its
    DEFAULT, NULL where the table declares none. *)
Definition payments_defaults (E : env) (id : option uuid)
  (r : payments_of given) : payments_row :=
  {| p_id := id;
     p_cash_advance_id := or_default (p_cash_advance_id r) None;
     p_amount := or_default (p_amount r) None;
     p_payment_date :=
       or_default (p_payment_date r) (Some (CURRENT_TIMESTAMP E));
     p_payment_type := or_default (p_payment_type r) None;
     p_reference_number := or_default (p_reference_number r) None;
     p_recorded_by := or_default (p_recorded_by r) None |}.

Definition insert_payments (r : payments_of given) : tx nat :=
  id <- default_uuid (p_id r) ;;
  E <- ask ;;
  let NEW := payments_defaults E id r in
  db <- get ;;
  check (payments_columns NEW ;;; payments_keys (payments db) NEW ;;;
         payments_references db NEW) ;;
  put (set_payments db (payments db ++ [NEW])%list) ;;
  ret 1%nat.

(** An UPDATE sets columns other than the key: the row keeps its [id]. *)
Definition keep_u_id (OLD r : users_row) : users_row :=
  {| u_id := u_id OLD; u_username := u_username r;
     u_password_hash := u_password_hash r; u_email := u_email r;
     u_role := u_role r; u_access_level := u_access_level r;
     u_created_at := u_created_at r; u_last_login := u_last_login r;
     u_is_active := u_is_active r |}.

Definition keep_e_id (OLD r : employees_row) : employees_row :=
  {| e_id := e_id OLD; e_user_id := e_user_id r;
     e_first_name := e_first_name r; e_last_name := e_last_name r;
     e_department := e_department r; e_supervisor_id := e_supervisor_id r;
     e_hire_date := e_hire_date r; e_phone_number := e_phone_number r;
     e_address := e_address r; e_position := e_position r;
     e_salary_rate := e_salary_rate r |}.

Definition keep_ca_id (OLD r : cash_advances_row) : cash_advances_row :=
  {| ca_id := ca_id OLD; ca_employee_id := ca_employee_id r;
     ca_amount := ca_amount r; ca_purpose := ca_purpose r;
     ca_status := ca_status r; ca_created_at := ca_created_at r;
     ca_updated_at := ca_updated_at r; ca_approved_by := ca_approved_by r;
     ca_approved_at := ca_approved_at r;
     ca_rejection_reason := ca_rejection_reason r;
     ca_payment_date := ca_payment_date r;
     ca_installment_period := ca_installment_period r;
     ca_monthly_deduction := ca_monthly_deduction r |}.

Definition keep_p_id (OLD r : payments_row) : payments_row :=
  {| p_id := p_id OLD; p_cash_advance_id := p_cash_advance_id r;
     p_amount := p_amount r; p_payment_date := p_payment_date r;
     p_payment_type := p_payment_type r;
     p_reference_number := p_reference_number r;
     p_recorded_by := p_recorded_by r |}.

Definition update_users (k : uuid) (SET : users_row -> users_row) : tx nat :=
  db <- get ;;
  match extract (has_id (@u_id _) k) (users db) with
  | None => ret 0%nat
  | Some (before, OLD, after) =>
      let NEW := keep_u_id OLD (SET OLD) in
      check (users_columns NEW ;;; users_keys (before ++ after)%list NEW) ;;
      put (set_users db (before ++ NEW :: after)%list) ;;
      ret 1%nat
  end.

Definition update_employees (k : uuid)
  (SET : employees_row -> employees_row) : tx nat :=
  db <- get ;;
  match extract (has_id (@e_id _) k) (employees db) with
  | None => ret 0%nat
  | Some (before, OLD, after) =>
      let NEW := keep_e_id OLD (SET OLD) in
      check (employees_columns NEW ;;;
             employees_keys (before ++ after)%list NEW ;;;
             employees_references db (before ++ after)%list NEW) ;;
      put (set_employees db (before ++ NEW :: after)%list) ;;
      audit_trigger_function "UPDATE" "employees" (Some OLD) (Some NEW) ;;
      ret 1%nat
  end.

Definition update_cash_advances (k : uuid)
  (SET : cash_advances_row -> cash_advances_row) : tx nat :=
  db <- get ;;
  match extract (has_id (@ca_id _) k) (cash_advances db) with
  | None => ret 0%nat
  | Some (before, OLD, after) =>
      let NEW := keep_ca_id OLD (SET OLD) in
      check (cash_advances_columns NEW ;;;
             cash_advances_keys (before ++ after)%list NEW ;;;
             cash_advances_references db NEW) ;;
      put (set_cash_advances db (before ++ NEW :: after)%list) ;;
      audit_trigger_function "UPDATE" "cash_advances" (Some OLD) (Some NEW) ;;
      ret 1%nat
  end.

Definition update_payments (k : uuid)
  (SET : payments_row -> payments_row) : tx nat :=
  db <- get ;;
  match extract (has_id (@p_id _) k) (payments db) with
  | None => ret 0%nat
  | Some (before, OLD, after) =>
      let NEW := keep_p_id OLD (SET OLD) in
      check (payments_columns NEW ;;;
             payments_keys (before ++ after)%list NEW ;;;
             payments_references db NEW) ;;
      put (set_payments db (before ++ NEW :: after)%list) ;;
      ret 1%nat
  end.

(** [users] is referenced, with the default action, by four tables. *)
Definition delete_users (k : uuid) : tx nat :=
  db <- get ;;
  match extract (has_id (@u_id _) k) (users db) with
  | None => ret 0%nat
  | Some (before, OLD, after) =>
      put (set_users db (before ++ after)%list) ;;
      check (NO_ACTION "employees_user_id_fkey" (u_id OLD)
               (map (@e_user_id _) (employees db)) ;;;
             NO_ACTION "cash_advances_approved_by_fkey" (u_id OLD)
               (map (@ca_approved_by _) (cash_advances db)) ;;;
             NO_ACTION "payments_recorded_by_fkey" (u_id OLD)
               (map (@p_recorded_by _) (payments db)) ;;;
             NO_ACTION "audit_logs_user_id_fkey" (u_id OLD)
               (map (@al_user_id _) (audit_logs db))) ;;
      ret 1%nat
  end.

Fixpoint for_each {R} (l : list R) (f : R -> tx unit) : tx unit :=
  match l with
  | [] => ret tt
  | r :: rest => f r ;; for_each rest f
  end.

Definition reports_to (key : option uuid) (r : employees_row) : bool :=
  is_true (sql_eq N.eqb (e_supervisor_id r) key).

Definition clear_supervisor (r : employees_row) : employees_row :=
  {| e_id := e_id r; e_user_id := e_user_id r;
     e_first_name := e_first_name r; e_last_name := e_last_name r;
     e_department := e_department r; e_supervisor_id := None;
     e_hire_date := e_hire_date r; e_phone_number := e_phone_number r;
     e_address := e_address r; e_position := e_position r;
     e_salary_rate := e_salary_rate r |}.

(** The action of [fk_supervisor], ON DELETE SET NULL: an UPDATE of the rows
    that refer to the deleted key, which fires the table's row trigger for
    each of them. *)
Definition fk_supervisor_on_delete (key : option uuid) : tx unit :=
  db <- get ;;
  put (set_employees db
         (map (fun r => if reports_to key r then clear_supervisor r else r)
              (employees db))) ;;
  for_each (filter (reports_to key) (employees db))
    (fun OLD => audit_trigger_function "UPDATE" "employees"
                  (Some OLD) (Some (clear_supervisor OLD))).

(** DELETE FROM employees.  The row goes, then the triggers on the table fire
    in the order of their names: those of the foreign keys that refer to
    [employees(id)], named after their creation order (the column constraint
    of line 40, [fk_supervisor] of line 46, [cash_advances.employee_id] of
    line 55), then [employees_audit]. *)
Definition delete_employees (k : uuid) : tx nat :=
  db <- get ;;
  match extract (has_id (@e_id _) k) (employees db) with
  | None => ret 0%nat
  | Some (before, OLD, after) =>
      put (set_employees db (before ++ after)%list) ;;
      check (NO_ACTION "employees_supervisor_id_fkey" (e_id OLD)
               (map (@e_supervisor_id _) (before ++ after)%list)) ;;
      fk_supervisor_on_delete (e_id OLD) ;;
      check (NO_ACTION "cash_advances_employee_id_fkey" (e_id OLD)
               (map (@ca_employee_id _) (cash_advances db))) ;;
      audit_trigger_function "DELETE" "employees" (Some OLD) None ;;
      ret 1%nat
  end.

Definition delete_cash_advances (k : uuid) : tx nat :=
  db <- get ;;
  match extract (has_id (@ca_id _) k) (cash_advances db) with
  | None => ret 0%nat
  | Some (before, OLD, after) =>
      put (set_cash_advances db (before ++ after)%list) ;;
      check (NO_ACTION "payments_cash_advance_id_fkey" (ca_id OLD)
               (map (@p_cash_advance_id _) (payments db))) ;;
      audit_trigger_function "DELETE" "cash_advances" (Some OLD) None ;;
      ret 1%nat
  end.

Definition delete_payments (k : uuid) : tx nat :=
  db <- get ;;
  match extract (has_id (@p_id _) k) (payments db) with
  | None => ret 0%nat
  | Some (before, OLD, after) =>
      put (set_payments db (before ++ after)%list) ;;
      ret 1%nat
  end.

(** The statements an application can send. *)
Inductive statement : Type :=
| INSERT_INTO_users (r : users_of given)
| UPDATE_users (k : uuid) (SET : users_row -> users_row)
| DELETE_FROM_users (k : uuid)
| INSERT_INTO_employees (r : employees_of given)
| UPDATE_employees (k : uuid) (SET : employees_row -> employees_row)
| DELETE_FROM_employees (k : uuid)
| INSERT_INTO_cash_advances (r : cash_advances_of given)
| UPDATE_cash_advances (k : uuid)
    (SET : cash_advances_row -> cash_advances_row)
| DELETE_FROM_cash_advances (k : uuid)
| INSERT_INTO_payments (r : payments_of given)
| UPDATE_payments (k : uuid) (SET : payments_row -> payments_row)
| DELETE_FROM_payments (k : uuid).

Definition execute (s : statement) : tx nat :=
  match s with
  | INSERT_INTO_users r => insert_users r
  | UPDATE_users k SET => update_users k SET
  | DELETE_FROM_users k => delete_users k
  | INSERT_INTO_employees r => insert_employees r
  | UPDATE_employees k SET => update_employees k SET
  | DELETE_FROM_employees k => delete_employees k
  | INSERT_INTO_cash_advances r => insert_cash_advances r
  | UPDATE_cash_advances k SET => update_cash_advances k SET
  | DELETE_FROM_cash_advances k => delete_cash_advances k
  | INSERT_INTO_payments r => insert_payments r
  | UPDATE_payments k SET => update_payments k SET
  | DELETE_FROM_payments k => delete_payments k
  end.

(** ** The seed row, lines 150-162 *)

(** The literal of line 158, which the script's comments call a bcrypt hash
    of 'admin123'. *)
Definition default_admin_password_hash : text :=
  "$2a$12$LQv3c1yqBWVHxkd0LHAkCOYz6TtxMQJqhN8/LewdBPj6f.CbP0pqu".

Definition default_admin : users_of given :=
  {| u_id := DEFAULT;
     u_username := VALUE (Some "admin");
     u_password_hash := VALUE (Some default_admin_password_hash);
     u_email := VALUE (Some "admin@sakada.com");
     u_role := VALUE (Some "ADMIN");
     u_access_level := VALUE (Some 10);
     u_created_at := DEFAULT;
     u_last_login := DEFAULT;
     u_is_active := DEFAULT |}.

(** The whole script: the tables, empty, then the seed row. *)
Definition schema_init (E : env) : result (nat * database) :=
  run E (insert_users default_admin) empty_db.

(** The databases the schema can hold: the script's, and what a statement
    makes of one. *)
Inductive reachable : database -> Prop :=
| reachable_init E n db :
    schema_init E = Ok (n, db) -> reachable db
| reachable_step E s n db db' :
    reachable db -> run E (execute s) db = Ok (n, db') -> reachable db'.

(** ** The view [cash_advance_summary], lines 135-147 *)

Record cash_advance_summary_row : Type := {
  summary_id : option uuid;
  employee_name : option text;
  summary_amount : option numeric;
  summary_status : option text;
  summary_created_at : option timestamptz;
  total_paid : option numeric;
  remaining_balance : option numeric
}.

(** [||] and [-] yield NULL when an operand is NULL. *)
Definition sql_concat (a b : option text) : option text :=
  match a, b with
  | Some x, Some y => Some (x ++ y)%string
  | _, _ => None
  end.

Definition sql_minus (a b : option numeric) : option numeric :=
  match a, b with
  | Some x, Some y => Some (x - y)
  | _, _ => None
  end.

(** SUM skips NULLs and is NULL when nothing is left. *)
Fixpoint SUM (l : list (option numeric)) : option numeric :=
  match l with
  | [] => None
  | v :: rest =>
      match v, SUM rest with
      | Some x, Some s => Some (x + s)
      | Some x, None => Some x
      | None, s => s
      end
  end.

(** A row of the FROM clause: [ca], [e], and [p] or NULLs (LEFT JOIN). *)
Definition joined_row : Type :=
  (cash_advances_row * employees_row * option payments_row)%type.

Definition paid_on (ca : cash_advances_row) (p : payments_row) : bool :=
  is_true (sql_eq N.eqb (ca_id ca) (p_cash_advance_id p)).

Definition from_clause (db : database) : list joined_row :=
  flat_map (fun ca =>
    flat_map (fun e =>
      if is_true (sql_eq N.eqb (ca_employee_id ca) (e_id e)) then
        match filter (paid_on ca) (payments db) with
        | [] => [(ca, e, None)]
        | ps => map (fun p => (ca, e, Some p)) ps
        end
      else [])
      (employees db))
    (cash_advances db).

(** GROUP BY ca.id, e.first_name, e.last_name: NULLs fall in one group. *)
Definition group_key : Type := (option uuid * option text * option text)%type.

Definition key_of (j : joined_row) : group_key :=
  let '(ca, e, _) := j in (ca_id ca, e_first_name e, e_last_name e).

Definition group_key_dec (a b : group_key) : {a = b} + {a <> b}.
Proof.
  repeat decide equality; try apply N.eq_dec; apply Ascii.ascii_dec.
Defined.

Definition in_group (k : group_key) (j : joined_row) : bool :=
  if group_key_dec (key_of j) k then true else false.

Definition p_amount_of (j : joined_row) : option numeric :=
  match snd j with
  | Some p => p_amount p
  | None => None
  end.

Definition select_group (g : list joined_row) : list cash_advance_summary_row :=
  match g with
  | [] => []
  | (ca, e, _) :: _ =>
      let paid := COALESCE (SUM (map p_amount_of g)) (Some 0) in
      [ {| summary_id := ca_id ca;
           employee_name :=
             sql_concat (sql_concat (e_first_name e) (Some " "))
                        (e_last_name e);
           summary_amount := ca_amount ca;
           summary_status := ca_status ca;
           summary_created_at := ca_created_at ca;
           total_paid := paid;
           remaining_balance := sql_minus (ca_amount ca) paid |} ]
  end.

Definition cash_advance_summary (db : database)
  : list cash_advance_summary_row :=
  let rows := from_clause db in
  flat_map (fun k => select_group (filter (in_group k) rows))
           (nodup group_key_dec (map key_of rows)).

(** The payments recorded against a cash advance, and their sum. *)
Definition payments_of_advance (db : database) (k : uuid)
  : list payments_row :=
  filter (fun p => is_true (sql_eq N.eqb (Some k) (p_cash_advance_id p)))
         (payments db).

Definition amount_or_zero (v : option numeric) : Z :=
  match v with Some x => x | None => 0 end.

Definition sum_payments (db : database) (k : uuid) : Z :=
  fold_right Z.add 0
    (map (fun p => amount_or_zero (p_amount p)) (payments_of_advance db k)).

(** ** The application's type, lines 1-10 *)

Inductive Status : Type := PENDING | APPROVED | REJECTED | PAID.

(** [amount: number] is kept in hundredths, as the column is; [Date] is a
    point on the time line; a property marked [?] may be absent. *)
Record CashAdvance : Type := {
  id : string;
  employeeId : string;
  amount : Z;
  reason : string;
  status : Status;
  createdAt : Z;
  approvedAt : option Z;
  approvedBy : option string
}.

Definition status_text (s : Status) : text :=
  match s with
  | PENDING => "PENDING"
  | APPROVED => "APPROVED"
  | REJECTED => "REJECTED"
  | PAID => "PAID"
  end.

(** ** The service operations *)

Module Service.

(** Modelled from the spec: the error kinds of its section 7; the repository's
    sources hold no service code, only the interface and the schema the
    operations work on. *)
Inductive error : Type :=
| ValidationError
| NotFoundError
| InvalidStateError
| BalanceError
| ConstraintViolation (e : sqlstate).

(** Modelled from the spec: what an operation leaves, after section 7
    ("every rejected operation leaves all entities unchanged"): the
    database it committed, or the error, in which case nothing was
    written. *)
Inductive outcome : Type :=
| Done (db : database)
| Failed (e : error).

(** The database after an operation that started from [db]. *)
Definition after (db : database) (o : outcome) : database :=
  match o with
  | Done db' => db'
  | Failed _ => db
  end.

(** Modelled from the spec: an operation's single write, with the
    trigger's log entry, as one transaction (section 5); an error of the
    persistence layer surfaces as ConstraintViolation (section 7). *)
Definition write (E : env) (s : statement) (db : database) : outcome :=
  match run E (execute s) db with
  | Ok (_, db') => Done db'
  | Err e => Failed (ConstraintViolation e)
  end.

(** Modelled from the spec: the lookups by id the operations start with,
    and the test of an advance's current status. *)
Definition find_employee (db : database) (k : uuid) : option employees_row :=
  find (has_id (@e_id _) k) (employees db).

Definition find_advance (db : database) (k : uuid)
  : option cash_advances_row :=
  find (has_id (@ca_id _) k) (cash_advances db).

Definition has_status (ca : cash_advances_row) (s : Status) : bool :=
  is_true (sql_eq String.eqb (ca_status ca) (Some (status_text s))).

(** Modelled from the spec: the row [submit] inserts, section 4.1: "creates a
    CashAdvance in PENDING with createdAt = now". *)
Definition submitted (E : env) (employeeId : uuid) (amount : numeric)
  (reason : text) : cash_advances_of given :=
  {| ca_id := DEFAULT;
     ca_employee_id := VALUE (Some employeeId);
     ca_amount := VALUE (Some amount);
     ca_purpose := VALUE (Some reason);
     ca_status := VALUE (Some (status_text PENDING));
     ca_created_at := VALUE (Some (CURRENT_TIMESTAMP E));
     ca_updated_at := DEFAULT;
     ca_approved_by := DEFAULT;
     ca_approved_at := DEFAULT;
     ca_rejection_reason := DEFAULT;
     ca_payment_date := DEFAULT;
     ca_installment_period := DEFAULT;
     ca_monthly_deduction := DEFAULT |}.

(** Modelled from the spec: [submit(employeeId, amount, reason)] of section
    4.1, which is not in the repository's sources: "validates employeeId
    exists and amount > 0; creates a CashAdvance in PENDING with createdAt =
    now.  Fails with ValidationError if amount <= 0 or employee unknown." *)
Definition submit (E : env) (db : database) (employeeId : uuid)
  (amount : numeric) (reason : text) : outcome :=
  match find_employee db employeeId with
  | None => Failed ValidationError
  | Some _ =>
      if amount <=? 0 then Failed ValidationError
      else
        write E
          (INSERT_INTO_cash_advances (submitted E employeeId amount reason))
          db
  end.

(** Modelled from the spec: the row [approve] leaves, section 4.1: "sets
    status = APPROVED, approvedBy = approverId, approvedAt = now, and
    optionally records installment terms". *)
Definition approved (E : env) (approverId : uuid)
  (installmentPeriod : option Z) (monthlyDeduction : option numeric)
  (OLD : cash_advances_row) : cash_advances_row :=
  {| ca_id := ca_id OLD;
     ca_employee_id := ca_employee_id OLD;
     ca_amount := ca_amount OLD;
     ca_purpose := ca_purpose OLD;
     ca_status := Some (status_text APPROVED);
     ca_created_at := ca_created_at OLD;
     ca_updated_at := ca_updated_at OLD;
     ca_approved_by := Some approverId;
     ca_approved_at := Some (CURRENT_TIMESTAMP E);
     ca_rejection_reason := ca_rejection_reason OLD;
     ca_payment_date := ca_payment_date OLD;
     ca_installment_period :=
       COALESCE installmentPeriod (ca_installment_period OLD);
     ca_monthly_deduction :=
       COALESCE monthlyDeduction (ca_monthly_deduction OLD) |}.

(** Modelled from the spec: [approve(advanceId, approverId,
    installmentPeriod?, monthlyDeduction?)] of section 4.1, which is not in
    the repository's sources: "permitted only from PENDING; sets status =
    APPROVED, approvedBy = approverId, approvedAt = now, and optionally
    records installment terms.  Fails with InvalidStateError if current
    status is not PENDING; fails with NotFoundError if advanceId unknown." *)
Definition approve (E : env) (db : database) (advanceId approverId : uuid)
  (installmentPeriod : option Z) (monthlyDeduction : option numeric)
  : outcome :=
  match find_advance db advanceId with
  | None => Failed NotFoundError
  | Some ca =>
      if has_status ca PENDING then
        write E
          (UPDATE_cash_advances advanceId
             (approved E approverId installmentPeriod monthlyDeduction))
          db
      else Failed InvalidStateError
  end.

(** Modelled from the spec: the row [reject] leaves, section 4.1: "sets
    status = REJECTED, rejection_reason = reason, approvedBy/approvedAt
    recorded as the acting user/time". *)
Definition rejected (E : env) (approverId : uuid) (reason : text)
  (OLD : cash_advances_row) : cash_advances_row :=
  {| ca_id := ca_id OLD;
     ca_employee_id := ca_employee_id OLD;
     ca_amount := ca_amount OLD;
     ca_purpose := ca_purpose OLD;
     ca_status := Some (status_text REJECTED);
     ca_created_at := ca_created_at OLD;
     ca_updated_at := ca_updated_at OLD;
     ca_approved_by := Some approverId;
     ca_approved_at := Some (CURRENT_TIMESTAMP E);
     ca_rejection_reason := Some reason;
     ca_payment_date := ca_payment_date OLD;
     ca_installment_period := ca_installment_period OLD;
     ca_monthly_deduction := ca_monthly_deduction OLD |}.

(** Modelled from the spec: [reject(advanceId, approverId, reason)] of
    section 4.1, which is not in the repository's sources: "permitted only
    from PENDING; sets status = REJECTED, rejection_reason = reason,
    approvedBy/approvedAt recorded as the acting user/time.  Fails with
    InvalidStateError otherwise."  An unknown id is a NotFoundError, as for
    [approve]. *)
Definition reject (E : env) (db : database) (advanceId approverId : uuid)
  (reason : text) : outcome :=
  match find_advance db advanceId with
  | None => Failed NotFoundError
  | Some ca =>
      if has_status ca PENDING then
        write E
          (UPDATE_cash_advances advanceId (rejected E approverId reason))
          db
      else Failed InvalidStateError
  end.

(** Modelled from the spec: the row [markPaid] leaves, section 4.1: "sets
    status = PAID and payment_date". *)
Definition paid (paymentDate : date) (OLD : cash_advances_row)
  : cash_advances_row :=
  {| ca_id := ca_id OLD;
     ca_employee_id := ca_employee_id OLD;
     ca_amount := ca_amount OLD;
     ca_purpose := ca_purpose OLD;
     ca_status := Some (status_text PAID);
     ca_created_at := ca_created_at OLD;
     ca_updated_at := ca_updated_at OLD;
     ca_approved_by := ca_approved_by OLD;
     ca_approved_at := ca_approved_at OLD;
     ca_rejection_reason := ca_rejection_reason OLD;
     ca_payment_date := Some paymentDate;
     ca_installment_period := ca_installment_period OLD;
     ca_monthly_deduction := ca_monthly_deduction OLD |}.

(** Modelled from the spec: [markPaid(advanceId, paymentDate)] of section
    4.1, which is not in the repository's sources: "permitted only from
    APPROVED, and only once outstanding balance (amount - sum of payments)
    is fully covered by recorded payments [...]; sets status = PAID and
    payment_date.  Fails with InvalidStateError if not APPROVED; fails with
    BalanceError if outstanding balance remains."  The policy taken is the
    strict one: nothing forces the transition. *)
Definition markPaid (E : env) (db : database) (advanceId : uuid)
  (paymentDate : date) : outcome :=
  match find_advance db advanceId with
  | None => Failed NotFoundError
  | Some ca =>
      if has_status ca APPROVED then
        if 0 <? amount_or_zero (ca_amount ca) - sum_payments db advanceId
        then Failed BalanceError
        else
          write E (UPDATE_cash_advances advanceId (paid paymentDate)) db
      else Failed InvalidStateError
  end.

(** Modelled from the spec: the row [recordPayment] appends, section 4.2. *)
Definition recorded (advanceId : uuid) (amount : numeric) (type : text)
  (reference : option text) (recordedBy : uuid) : payments_of given :=
  {| p_id := DEFAULT;
     p_cash_advance_id := VALUE (Some advanceId);
     p_amount := VALUE (Some amount);
     p_payment_date := DEFAULT;
     p_payment_type := VALUE (Some type);
     p_reference_number := VALUE reference;
     p_recorded_by := VALUE (Some recordedBy) |}.

(** Modelled from the spec: [recordPayment(advanceId, amount, type,
    reference?, recordedBy)] of section 4.2, which is not in the
    repository's sources: "requires the referenced CashAdvance exists and is
    in APPROVED or PAID status; requires amount > 0; appends a Payment row",
    and, with section 8, a payment that would take the running total over
    the principal "fails with BalanceError and inserts no Payment row". *)
Definition recordPayment (E : env) (db : database) (advanceId : uuid)
  (amount : numeric) (type : text) (reference : option text)
  (recordedBy : uuid) : outcome :=
  match find_advance db advanceId with
  | None => Failed NotFoundError
  | Some ca =>
      if has_status ca APPROVED || has_status ca PAID then
        if amount <=? 0 then Failed ValidationError
        else if amount_or_zero (ca_amount ca)
                  <? sum_payments db advanceId + amount
        then Failed BalanceError
        else
          write E
            (INSERT_INTO_payments
               (recorded advanceId amount type reference recordedBy))
            db
      else Failed InvalidStateError
  end.

(** Modelled from the spec: what happens to a database under the service,
    after sections 3 and 4: users and employees are kept by administrative
    statements, and cash advances and payments are written by the operations
    above only. *)
Inductive operation : Type :=
| op_submit (employeeId : uuid) (amount : numeric) (reason : text)
| op_approve (advanceId approverId : uuid) (installmentPeriod : option Z)
    (monthlyDeduction : option numeric)
| op_reject (advanceId approverId : uuid) (reason : text)
| op_markPaid (advanceId : uuid) (paymentDate : date)
| op_recordPayment (advanceId : uuid) (amount : numeric) (type : text)
    (reference : option text) (recordedBy : uuid)
| op_admin_users_insert (r : users_of given)
| op_admin_users_update (k : uuid) (SET : users_row -> users_row)
| op_admin_users_delete (k : uuid)
| op_admin_employees_insert (r : employees_of given)
| op_admin_employees_update (k : uuid)
    (SET : employees_row -> employees_row)
| op_admin_employees_delete (k : uuid).

(** Modelled from the spec: one operation, on the database it finds. *)
Definition perform (E : env) (db : database) (o : operation) : outcome :=
  match o with
  | op_submit e a r => submit E db e a r
  | op_approve k u ip md => approve E db k u ip md
  | op_reject k u r => reject E db k u r
  | op_markPaid k d => markPaid E db k d
  | op_recordPayment k a t r u => recordPayment E db k a t r u
  | op_admin_users_insert r => write E (INSERT_INTO_users r) db
  | op_admin_users_update k SET => write E (UPDATE_users k SET) db
  | op_admin_users_delete k => write E (DELETE_FROM_users k) db
  | op_admin_employees_insert r => write E (INSERT_INTO_employees r) db
  | op_admin_employees_update k SET => write E (UPDATE_employees k SET) db
  | op_admin_employees_delete k => write E (DELETE_FROM_employees k) db
  end.

(** Modelled from the spec: the databases the service reaches from the
    script's. *)
Inductive reachable : database -> Prop :=
| reachable_init E n db :
    schema_init E = Ok (n, db) -> reachable db
| reachable_step E o db db' :
    reachable db -> perform E db o = Done db' -> reachable db'.

End Service.

(** * The vocabulary of the properties *)

(** ** The audit log *)

(** The entry the trigger writes on its [n]-th uuid. *)
Definition audit_entry {R} `{Row R} (E : env) (n : nat)
  (TG_OP TG_TABLE_NAME : text) (OLD NEW : option R) : audit_logs_row :=
  {| al_id := Some (uuid_generate_v4 E n);
     al_user_id := app_current_user_id E;
     al_action := Some TG_OP;
     al_entity_type := Some TG_TABLE_NAME;
     al_entity_id :=
       COALESCE (match NEW with Some r => id_of r | None => None end)
                (match OLD with Some r => id_of r | None => None end);
     al_old_values :=
       if String.eqb TG_OP "DELETE" then option_map row_to_json OLD else None;
     al_new_values :=
       if existsb (String.eqb TG_OP) ["INSERT"; "UPDATE"]
       then option_map row_to_json NEW else None;
     al_ip_address := None;
     al_created_at := Some (CURRENT_TIMESTAMP E) |}.

(** The constraints of [audit_logs] on a row about to be inserted. *)
Definition audit_logs_constraints (db : database) (r : audit_logs_row)
  : result unit :=
  audit_logs_columns r ;;; audit_logs_keys (audit_logs db) r ;;;
  audit_logs_references db r.

(** The table a statement writes under a trigger, if any, and the
    operation the trigger sees. *)
Definition audited_table (s : statement) : option text :=
  match s with
  | INSERT_INTO_employees _ | UPDATE_employees _ _
  | DELETE_FROM_employees _ => Some "employees"
  | INSERT_INTO_cash_advances _ | UPDATE_cash_advances _ _
  | DELETE_FROM_cash_advances _ => Some "cash_advances"
  | _ => None
  end.

(** The operation of a statement, as TG_OP names it. *)
Definition TG_OP_of (s : statement) : text :=
  match s with
  | INSERT_INTO_users _ | INSERT_INTO_employees _
  | INSERT_INTO_cash_advances _ | INSERT_INTO_payments _ => "INSERT"
  | UPDATE_users _ _ | UPDATE_employees _ _
  | UPDATE_cash_advances _ _ | UPDATE_payments _ _ => "UPDATE"
  | _ => "DELETE"
  end.

(** The key of the row a statement writes. *)
Definition written_id (E : env) (s : statement) : option uuid :=
  let fresh := Some (uuid_generate_v4 E O) in
  match s with
  | INSERT_INTO_users r => or_default (u_id r) fresh
  | INSERT_INTO_employees r => or_default (e_id r) fresh
  | INSERT_INTO_cash_advances r => or_default (ca_id r) fresh
  | INSERT_INTO_payments r => or_default (p_id r) fresh
  | UPDATE_users k _ | DELETE_FROM_users k
  | UPDATE_employees k _ | DELETE_FROM_employees k
  | UPDATE_cash_advances k _ | DELETE_FROM_cash_advances k
  | UPDATE_payments k _ | DELETE_FROM_payments k => Some k
  end.

(** The row a table holds under a key. *)
Definition stored_employee (db : database) (key : option uuid)
  : option employees_row :=
  match key with
  | Some k => find (has_id (@e_id _) k) (employees db)
  | None => None
  end.

Definition stored_advance (db : database) (key : option uuid)
  : option cash_advances_row :=
  match key with
  | Some k => find (has_id (@ca_id _) k) (cash_advances db)
  | None => None
  end.

(** The row of an audited table under a key, as [row_to_json] shows it. *)
Definition stored_json (db : database) (table : text) (key : option uuid)
  : option jsonb :=
  if String.eqb table "employees"
  then option_map row_to_json (stored_employee db key)
  else if String.eqb table "cash_advances"
  then option_map row_to_json (stored_advance db key)
  else None.

(** [new_values->'status'] of a log entry. *)
Definition new_values_status (entry : audit_logs_row) : option datum :=
  match al_new_values entry with
  | Some j => json_get j "status"
  | None => None
  end.

(** What one audited write leaves in the log: one more entry, for the
    written row. *)
Definition logged_once (E : env) (s : statement) (table : text)
  (db db' : database) (entry : audit_logs_row) : Prop :=
  audit_logs db' = (audit_logs db ++ [entry])%list /\
  al_user_id entry = app_current_user_id E /\
  al_action entry = Some (TG_OP_of s) /\
  al_entity_type entry = Some table /\
  al_entity_id entry = written_id E s /\
  (exists k, written_id E s = Some k) /\
  al_old_values entry =
    (if String.eqb (TG_OP_of s) "DELETE"
     then stored_json db table (written_id E s) else None) /\
  al_new_values entry =
    (if String.eqb (TG_OP_of s) "DELETE"
     then None else stored_json db' table (written_id E s)) /\
  (String.eqb (TG_OP_of s) "DELETE" = true \/
   stored_json db' table (written_id E s) <> None) /\
  (String.eqb (TG_OP_of s) "INSERT" = true \/
   stored_json db table (written_id E s) <> None).

(** The last entry of the log a statement leaves. *)
Definition logged (E : env) (s : statement) (db : database)
  : option audit_logs_row :=
  match run E (execute s) db with
  | Ok (_, db') => last (map Some (audit_logs db')) None
  | Err _ => None
  end.

(** ** The constraints *)

(** A foreign key holds: NULL, or the key of a row. *)
Definition refers (v : option uuid) (keys : list (option uuid)) : Prop :=
  v = None \/ In v keys.

(** Every declared constraint holds in the database. *)
Record consistent (db : database) : Prop := {
  c_users : Forall (fun r => users_columns r = Ok tt) (users db);
  c_employees :
    Forall (fun r => employees_columns r = Ok tt) (employees db);
  c_cash_advances :
    Forall (fun r => cash_advances_columns r = Ok tt) (cash_advances db);
  c_payments : Forall (fun r => payments_columns r = Ok tt) (payments db);
  c_audit_logs :
    Forall (fun r => audit_logs_columns r = Ok tt) (audit_logs db);
  pk_users : NoDup (map (@u_id _) (users db));
  pk_employees : NoDup (map (@e_id _) (employees db));
  pk_cash_advances : NoDup (map (@ca_id _) (cash_advances db));
  pk_payments : NoDup (map (@p_id _) (payments db));
  pk_audit_logs : NoDup (map (@al_id _) (audit_logs db));
  uq_username : NoDup (map (@u_username _) (users db));
  uq_email : NoDup (map (@u_email _) (users db));
  fk_e_user :
    Forall (fun r => refers (e_user_id r) (map (@u_id _) (users db)))
           (employees db);
  fk_e_supervisor :
    Forall (fun r => refers (e_supervisor_id r)
                            (map (@e_id _) (employees db)))
           (employees db);
  fk_ca_employee :
    Forall (fun r => refers (ca_employee_id r)
                            (map (@e_id _) (employees db)))
           (cash_advances db);
  fk_ca_approved_by :
    Forall (fun r => refers (ca_approved_by r) (map (@u_id _) (users db)))
           (cash_advances db);
  fk_p_cash_advance :
    Forall (fun r => refers (p_cash_advance_id r)
                            (map (@ca_id _) (cash_advances db)))
           (payments db);
  fk_p_recorded_by :
    Forall (fun r => refers (p_recorded_by r) (map (@u_id _) (users db)))
           (payments db);
  fk_al_user :
    Forall (fun r => refers (al_user_id r) (map (@u_id _) (users db)))
           (audit_logs db)
}.

(** ** The view *)

(** The ON condition of the join with [employees]. *)
Definition joins (ca : cash_advances_row) (e : employees_row) : bool :=
  is_true (sql_eq N.eqb (ca_employee_id ca) (e_id e)).

(** The rows of the FROM clause for one advance and its employee. *)
Definition rows_for (db : database) (ca : cash_advances_row)
  (e : employees_row) : list joined_row :=
  match filter (paid_on ca) (payments db) with
  | [] => [(ca, e, None)]
  | ps => map (fun p => (ca, e, Some p)) ps
  end.

(** The rows of the FROM clause for one advance. *)
Definition rows_of_advance (db : database) (ca : cash_advances_row)
  : list joined_row :=
  flat_map (fun e => if joins ca e then rows_for db ca e else [])
           (employees db).

(** The view's row for an advance with key [k] and its employee. *)
Definition summary_row (db : database) (ca : cash_advances_row)
  (e : employees_row) (k : uuid) : cash_advance_summary_row :=
  {| summary_id := ca_id ca;
     employee_name :=
       sql_concat (sql_concat (e_first_name e) (Some " ")) (e_last_name e);
     summary_amount := ca_amount ca;
     summary_status := ca_status ca;
     summary_created_at := ca_created_at ca;
     total_paid := Some (sum_payments db k);
     remaining_balance :=
       sql_minus (ca_amount ca) (Some (sum_payments db k)) |}.

(** ** The service *)

(** What the service keeps true of a stored advance: a positive amount, and
    the approver and approval time absent while PENDING, present after. *)
Definition advance_ok (ca : cash_advances_row) : Prop :=
  (exists a, ca_amount ca = Some a /\ 0 < a) /\
  ((ca_status ca = Some "PENDING" /\
    ca_approved_by ca = None /\ ca_approved_at ca = None) \/
   (In (ca_status ca) [Some "APPROVED"; Some "REJECTED"; Some "PAID"] /\
    (exists u, ca_approved_by ca = Some u) /\
    (exists t, ca_approved_at ca = Some t))).

(** What the service keeps true of a database: its advances are in order
    and none is paid back beyond its amount. *)
Record service_invariant (db : database) : Prop := {
  si_advances : forall ca, In ca (cash_advances db) -> advance_ok ca;
  si_paid :
    forall ca k, In ca (cash_advances db) -> ca_id ca = Some k ->
                 sum_payments db k <= amount_or_zero (ca_amount ca)
}.

(** The administrative statements write neither advances nor payments. *)
Definition administrative (s : statement) : bool :=
  match s with
  | INSERT_INTO_users _ | UPDATE_users _ _ | DELETE_FROM_users _
  | INSERT_INTO_employees _ | UPDATE_employees _ _
  | DELETE_FROM_employees _ => true
  | _ => false
  end.

(** ** Worked databases *)

(** The session of the [i]-th statement of a script. *)
Definition ex_env (i : N) : env :=
  {| uuid_generate_v4 := fun n => (1000 * i + N.of_nat n)%N;
     CURRENT_TIMESTAMP := Z.of_N i;
     app_current_user_id := Some 1000%N |}.

(** A script: its statements in turn, each in its own session. *)
Fixpoint run_script (i : N) (script : list statement) (db : database)
  : result database :=
  match script with
  | [] => Ok db
  | s :: rest =>
      match run (ex_env i) (execute s) db with
      | Ok (_, db') => run_script (i + 1) rest db'
      | Err e => Err e
      end
  end.

(** INSERT INTO employees (id, first_name, last_name, supervisor_id,
    hire_date). *)
Definition ex_employee (k : uuid) (supervisor : option uuid) (first : text)
  : employees_of given :=
  {| e_id := VALUE (Some k); e_user_id := DEFAULT;
     e_first_name := VALUE (Some first); e_last_name := VALUE (Some "Cruz");
     e_department := DEFAULT; e_supervisor_id := VALUE supervisor;
     e_hire_date := VALUE (Some 19000); e_phone_number := DEFAULT;
     e_address := DEFAULT; e_position := DEFAULT; e_salary_rate := DEFAULT |}.

(** INSERT INTO cash_advances (id, employee_id, amount, purpose). *)
Definition ex_advance (k employee : uuid) (a : numeric)
  : cash_advances_of given :=
  {| ca_id := VALUE (Some k); ca_employee_id := VALUE (Some employee);
     ca_amount := VALUE (Some a); ca_purpose := VALUE (Some "medical");
     ca_status := DEFAULT; ca_created_at := DEFAULT;
     ca_updated_at := DEFAULT; ca_approved_by := DEFAULT;
     ca_approved_at := DEFAULT; ca_rejection_reason := DEFAULT;
     ca_payment_date := DEFAULT; ca_installment_period := DEFAULT;
     ca_monthly_deduction := DEFAULT |}.

(** INSERT INTO payments (id, cash_advance_id, amount, payment_type). *)
Definition ex_payment (k advance : uuid) (a : numeric) (type : option text)
  : payments_of given :=
  {| p_id := VALUE (Some k); p_cash_advance_id := VALUE (Some advance);
     p_amount := VALUE (Some a); p_payment_date := DEFAULT;
     p_payment_type := VALUE type; p_reference_number := DEFAULT;
     p_recorded_by := DEFAULT |}.

(** UPDATE cash_advances SET status = s, approved_by = u, approved_at = t. *)
Definition ex_decide (s : text) (u : uuid) (t : timestamptz)
  (OLD : cash_advances_row) : cash_advances_row :=
  {| ca_id := ca_id OLD; ca_employee_id := ca_employee_id OLD;
     ca_amount := ca_amount OLD; ca_purpose := ca_purpose OLD;
     ca_status := Some s; ca_created_at := ca_created_at OLD;
     ca_updated_at := ca_updated_at OLD; ca_approved_by := Some u;
     ca_approved_at := Some t;
     ca_rejection_reason := ca_rejection_reason OLD;
     ca_payment_date := ca_payment_date OLD;
     ca_installment_period := ca_installment_period OLD;
     ca_monthly_deduction := ca_monthly_deduction OLD |}.

(** The database of a result, for the worked databases below. *)
Definition db_or_empty (r : result database) : database :=
  match r with Ok db => db | Err _ => empty_db end.

(** The script's database. *)
Definition ex_seed : database :=
  Eval vm_compute in
    db_or_empty
      (match schema_init (ex_env 1) with
       | Ok (_, db) => Ok db
       | Err e => Err e
       end).

(** On top of the seed row: a supervisor (10) and her report (11), who has
    one advance of 1000.00 (20), approved, and one of 500.00 (21), pending,
    and has paid 200.00 on the first. *)
Definition ex_script : list statement :=
  [ INSERT_INTO_employees (ex_employee 10 None "Ana");
    INSERT_INTO_employees (ex_employee 11 (Some 10%N) "Ben");
    INSERT_INTO_cash_advances (ex_advance 20 11 100000);
    INSERT_INTO_cash_advances (ex_advance 21 11 50000);
    UPDATE_cash_advances 20 (ex_decide "APPROVED" 1000 6);
    INSERT_INTO_payments (ex_payment 30 20 20000 (Some "CASH")) ].

(** The worked database. *)
Definition ex_db : database :=
  Eval vm_compute in db_or_empty (run_script 2 ex_script ex_seed).

(** The worked database after the advance 21 is approved. *)
Definition ex_db_approved : database :=
  Eval vm_compute in
    db_or_empty
      (run_script 8 [UPDATE_cash_advances 21 (ex_decide "APPROVED" 1000 8)]
         ex_db).

(** A payment of 50.00 on advance 20 that names no payment type. *)
Definition ex_db_untyped : database :=
  Eval vm_compute in
    db_or_empty
      (run_script 8 [INSERT_INTO_payments (ex_payment 31 20 5000 None)]
         ex_db).

(** The advance 20 as the worked database stores it. *)
Definition ex_first_advance : cash_advances_row :=
  Eval vm_compute in
    hd (cash_advances_defaults (ex_env 0) None (ex_advance 0 0 0))
       (cash_advances ex_db).

(** The operations of the service in turn, each in its own session. *)
Fixpoint perform_all (i : N) (ops : list Service.operation) (db : database)
  : Service.outcome :=
  match ops with
  | [] => Service.Done db
  | o :: rest =>
      match Service.perform (ex_env i) db o with
      | Service.Done db' => perform_all (i + 1) rest db'
      | Service.Failed e => Service.Failed e
      end
  end.

(** The worked database of the service: on top of the seed row, a
    supervisor (10) and her report (11); the report's advance of 1000.00
    (4000) is approved and 200.00 of it is paid back, his advance of 500.00
    (7000) is rejected. *)
Definition ex_operations : list Service.operation :=
  [ Service.op_admin_employees_insert (ex_employee 10 None "Ana");
    Service.op_admin_employees_insert (ex_employee 11 (Some 10%N) "Ben");
    Service.op_submit 11 100000 "medical";
    Service.op_approve 4000 1000 (Some 5) (Some 20000);
    Service.op_recordPayment 4000 20000 "SALARY_DEDUCTION" None 1000;
    Service.op_submit 11 50000 "tuition";
    Service.op_reject 7000 1000 "insufficient justification" ].

Definition ex_service_db : database :=
  Eval vm_compute in
    Service.after empty_db (perform_all 2 ex_operations ex_seed).

(** The advance 4000 as that database stores it. *)
Definition ex_approved_advance : cash_advances_row :=
  Eval vm_compute in
    hd (cash_advances_defaults (ex_env 0) None (ex_advance 0 0 0))
       (cash_advances ex_service_db).


(** A session whose app.current_user_id names nobody. *)
Definition ex_env_stranger : env :=
  {| uuid_generate_v4 := fun n => (9000 + N.of_nat n)%N;
     CURRENT_TIMESTAMP := 9;
     app_current_user_id := Some 77%N |}.

(** An advance of -5.00, a payment of 2000.00 on the advance of 1000.00,
    and an advance inserted as APPROVED with no approver. *)
Definition ex_unchecked : list statement :=
  [ INSERT_INTO_cash_advances (ex_advance 22 11 (-500));
    INSERT_INTO_payments (ex_payment 32 20 200000 (Some "CASH"));
    INSERT_INTO_cash_advances
      {| ca_id := VALUE (Some 23%N); ca_employee_id := VALUE (Some 11%N);
         ca_amount := VALUE (Some 100); ca_purpose := VALUE (Some "rent");
         ca_status := VALUE (Some "APPROVED"); ca_created_at := DEFAULT;
         ca_updated_at := DEFAULT; ca_approved_by := DEFAULT;
         ca_approved_at := DEFAULT; ca_rejection_reason := DEFAULT;
         ca_payment_date := DEFAULT; ca_installment_period := DEFAULT;
         ca_monthly_deduction := DEFAULT |} ].

Definition ex_db_unchecked : database :=
  Eval vm_compute in db_or_empty (run_script 8 ex_unchecked ex_db).

(** submit(E1, 1000, "medical"), approve(by U1, 5 installments of 200),
    five payments of 200 by salary deduction, markPaid. *)
Definition ex_scenario_paid : list Service.operation :=
  [ Service.op_admin_employees_insert (ex_employee 10 None "Ana");
    Service.op_submit 10 100000 "medical";
    Service.op_approve 3000 1000 (Some 5) (Some 20000);
    Service.op_recordPayment 3000 20000 "SALARY_DEDUCTION" None 1000;
    Service.op_recordPayment 3000 20000 "SALARY_DEDUCTION" None 1000;
    Service.op_recordPayment 3000 20000 "SALARY_DEDUCTION" None 1000;
    Service.op_recordPayment 3000 20000 "SALARY_DEDUCTION" None 1000;
    Service.op_recordPayment 3000 20000 "SALARY_DEDUCTION" None 1000 ].

Definition ex_db_repaid : database :=
  Eval vm_compute in
    Service.after empty_db (perform_all 2 ex_scenario_paid ex_seed).

Definition ex_db_paid : database :=
  Eval vm_compute in
    Service.after empty_db
      (Service.markPaid (ex_env 10) ex_db_repaid 3000 19500).

(** ** Histories, the log and what the tables accept *)

(** A history: what successful statements make of a database. *)
Inductive evolves : database -> database -> Prop :=
| evolves_refl db : evolves db db
| evolves_step E s n db db1 db' :
    evolves db db1 -> run E (execute s) db1 = Ok (n, db') ->
    evolves db db'.

(** What the trigger writes in every entry, whatever the write. *)
Definition entry_shape (e : audit_logs_row) : Prop :=
  (exists k, al_id e = Some k) /\
  In (al_action e) [Some "INSERT"; Some "UPDATE"; Some "DELETE"] /\
  In (al_entity_type e) [Some "employees"; Some "cash_advances"] /\
  (exists k, al_entity_id e = Some k) /\
  al_ip_address e = None /\
  (exists t, al_created_at e = Some t) /\
  ((al_action e <> Some "DELETE" /\
    al_old_values e = None /\ al_new_values e <> None) \/
   (al_action e = Some "DELETE" /\
    al_old_values e <> None /\ al_new_values e = None)).




(** The rows that name a user. *)
Definition user_references (db : database) : list (option uuid) :=
  (map (@e_user_id _) (employees db) ++
   map (@ca_approved_by _) (cash_advances db) ++
   map (@p_recorded_by _) (payments db) ++
   map (@al_user_id _) (audit_logs db))%list.

(** INSERT INTO payments (cash_advance_id, amount) VALUES (k, a). *)
Definition payment_of (k : uuid) (a : numeric) : payments_of given :=
  {| p_id := DEFAULT; p_cash_advance_id := VALUE (Some k);
     p_amount := VALUE (Some a); p_payment_date := DEFAULT;
     p_payment_type := DEFAULT; p_reference_number := DEFAULT;
     p_recorded_by := DEFAULT |}.

(** INSERT INTO cash_advances (employee_id, amount, purpose)
    VALUES (e, a, purpose). *)
Definition advance_of (e : uuid) (a : numeric) (purpose : text)
  : cash_advances_of given :=
  {| ca_id := DEFAULT; ca_employee_id := VALUE (Some e);
     ca_amount := VALUE (Some a); ca_purpose := VALUE (Some purpose);
     ca_status := DEFAULT; ca_created_at := DEFAULT;
     ca_updated_at := DEFAULT; ca_approved_by := DEFAULT;
     ca_approved_at := DEFAULT; ca_rejection_reason := DEFAULT;
     ca_payment_date := DEFAULT; ca_installment_period := DEFAULT;
     ca_monthly_deduction := DEFAULT |}.


(** A session whose trigger can write its entry: app.current_user_id is
    unset or names a user, and the entry's id, the [n]-th uuid of the
    statement, is not taken. *)
Definition session_ok (E : env) (n : nat) (db : database) : Prop :=
  refers (app_current_user_id E) (map (@u_id _) (users db)) /\
  ~ In (Some (uuid_generate_v4 E n)) (map (@al_id _) (audit_logs db)).

(** The key an UPDATE or DELETE names, with the keys its table holds. *)
Definition target (db : database) (s : statement)
  : option (uuid * list (option uuid)) :=
  match s with
  | UPDATE_users k _ | DELETE_FROM_users k =>
      Some (k, map (@u_id _) (users db))
  | UPDATE_employees k _ | DELETE_FROM_employees k =>
      Some (k, map (@e_id _) (employees db))
  | UPDATE_cash_advances k _ | DELETE_FROM_cash_advances k =>
      Some (k, map (@ca_id _) (cash_advances db))
  | UPDATE_payments k _ | DELETE_FROM_payments k =>
      Some (k, map (@p_id _) (payments db))
  | _ => None
  end.

(** ** More of the worked database *)



Definition ex_first_payment : payments_row :=
  Eval vm_compute in
    hd (payments_defaults (ex_env 0) None (ex_payment 0 0 0 None))
       (payments ex_db).

Definition ex_summary_row : cash_advance_summary_row :=
  Eval vm_compute in
    hd (summary_row ex_db ex_first_advance
          (employees_defaults (ex_env 0) None (ex_employee 0 None "")) 0)
       (cash_advance_summary ex_db).

(** * Properties *)

(** ** What a statement does, read off its result *)

Lemma seq_result_ok (a b : result unit) (u : unit) :
  a ;;; b = Ok u -> a = Ok tt /\ b = Ok tt.
Proof.
  destruct a as [[]|]; simpl; [|discriminate].
  destruct b as [[]|]; [auto|discriminate].
Qed.

Lemma result_unit_ok (a : result unit) (u : unit) : a = Ok u -> a = Ok tt.
Proof. destruct u; auto. Qed.

Ltac split_checks :=
  repeat match goal with
    | H : _ ;;; _ = Ok _ |- _ =>
        let H1 := fresh H in apply seq_result_ok in H as [H1 H]
    end.

Lemma extract_Some {R} (p : R -> bool) l before x after :
  extract p l = Some (before, x, after) ->
  l = (before ++ x :: after)%list /\ p x = true /\
  forall y, In y before -> p y = false.
Proof.
  revert before x after.
  induction l as [|r rest IH]; simpl; intros before x after H.
  - discriminate.
  - destruct (p r) eqn:Hp.
    + inversion H; subst. repeat split; auto. intros y [].
    + destruct (extract p rest) as [[[b y] a]|]; [|discriminate].
      inversion H; subst.
      destruct (IH b x after eq_refl) as (-> & Hx & Hb).
      repeat split; auto.
      intros z [<-|Hz]; auto.
Qed.

Lemma extract_None {R} (p : R -> bool) l :
  extract p l = None -> forall y, In y l -> p y = false.
Proof.
  induction l as [|r rest IH]; simpl; intros H y Hy.
  - destruct Hy.
  - destruct (p r) eqn:Hp; [discriminate|].
    destruct (extract p rest) as [[[b x] a]|]; [discriminate|].
    destruct Hy as [<-|Hy]; auto.
Qed.

Lemma extract_find {R} (p : R -> bool) l :
  find p l = match extract p l with
             | Some (_, x, _) => Some x
             | None => None
             end.
Proof.
  induction l as [|r rest IH]; simpl; auto.
  destruct (p r); auto.
  rewrite IH. destruct (extract p rest) as [[[b x] a]|]; auto.
Qed.

Lemma audit_trigger_function_eq {R} `{Row R} E n db op tbl
  (OLD NEW : option R) :
  audit_trigger_function op tbl OLD NEW E (n, db) =
  match audit_logs_constraints db (audit_entry E n op tbl OLD NEW) with
  | Ok _ =>
      Ok (tt, (S n, set_audit_logs db
                      (audit_logs db ++ [audit_entry E n op tbl OLD NEW])))
  | Err e => Err e
  end.
Proof.
  unfold audit_trigger_function, insert_audit_logs, bind, ask, get, put,
    check, ret, default_uuid, gen_uuid. simpl.
  unfold audit_logs_constraints.
  fold (audit_entry E n op tbl OLD NEW).
  destruct (_ ;;; _); reflexivity.
Qed.

Lemma default_uuid_inv (g : given uuid) E n db id k db0 :
  default_uuid g E (n, db) = Ok (id, (k, db0)) ->
  db0 = db /\
  (id = or_default g (Some (uuid_generate_v4 E n))).
Proof.
  destruct g; cbv [default_uuid bind gen_uuid ret fst snd or_default];
    intros H; inversion H; auto.
Qed.

Ltac tx_start stmt g :=
  unfold run, stmt;
  unfold bind at 1;
  let Hid := fresh "Hid" in
  destruct (default_uuid g _ _) as [[?id [?k ?db0]]|] eqn:Hid;
  [|discriminate];
  apply default_uuid_inv in Hid as [-> Hid];
  unfold bind, ask, get, put, check, ret; simpl.

Lemma insert_users_inv E r db n db' :
  run E (insert_users r) db = Ok (n, db') ->
  exists NEW,
    NEW = users_defaults E
            (or_default (u_id r) (Some (uuid_generate_v4 E O))) r /\
    n = 1%nat /\
    users_columns NEW = Ok tt /\
    users_keys (users db) NEW = Ok tt /\
    db' = set_users db (users db ++ [NEW]).
Proof.
  tx_start (@insert_users) (u_id r).
  destruct (_ ;;; _) as [[]|] eqn:Hc; [|discriminate].
  intros Heq; inversion Heq; subst; clear Heq.
  split_checks. eexists; repeat split; eauto.
Qed.

Lemma insert_payments_inv E r db n db' :
  run E (insert_payments r) db = Ok (n, db') ->
  exists NEW,
    NEW = payments_defaults E
            (or_default (p_id r) (Some (uuid_generate_v4 E O))) r /\
    n = 1%nat /\
    payments_columns NEW = Ok tt /\
    payments_keys (payments db) NEW = Ok tt /\
    payments_references db NEW = Ok tt /\
    db' = set_payments db (payments db ++ [NEW]).
Proof.
  tx_start (@insert_payments) (p_id r).
  destruct (_ ;;; _) as [[]|] eqn:Hc; [|discriminate].
  intros Heq; inversion Heq; subst; clear Heq.
  split_checks. eexists; repeat split; eauto.
Qed.

Lemma insert_employees_inv E r db n db' :
  run E (insert_employees r) db = Ok (n, db') ->
  exists k NEW,
    NEW = employees_defaults E
            (or_default (e_id r) (Some (uuid_generate_v4 E O))) r /\
    n = 1%nat /\
    employees_columns NEW = Ok tt /\
    employees_keys (employees db) NEW = Ok tt /\
    employees_references db (employees db) NEW = Ok tt /\
    let db1 := set_employees db (employees db ++ [NEW]) in
    let entry := audit_entry E k "INSERT" "employees" None (Some NEW) in
    audit_logs_constraints db1 entry = Ok tt /\
    db' = set_audit_logs db1 (audit_logs db ++ [entry]).
Proof.
  tx_start (@insert_employees) (e_id r).
  destruct (_ ;;; _) as [[]|] eqn:Hc; [|discriminate].
  rewrite audit_trigger_function_eq.
  destruct (audit_logs_constraints _ _) as [[]|] eqn:Ha; [|discriminate].
  intros Heq; inversion Heq; subst; clear Heq.
  split_checks. do 2 eexists; repeat split; eauto.
Qed.

Lemma insert_cash_advances_inv E r db n db' :
  run E (insert_cash_advances r) db = Ok (n, db') ->
  exists k NEW,
    NEW = cash_advances_defaults E
            (or_default (ca_id r) (Some (uuid_generate_v4 E O))) r /\
    n = 1%nat /\
    cash_advances_columns NEW = Ok tt /\
    cash_advances_keys (cash_advances db) NEW = Ok tt /\
    cash_advances_references db NEW = Ok tt /\
    let db1 := set_cash_advances db (cash_advances db ++ [NEW]) in
    let entry := audit_entry E k "INSERT" "cash_advances" None (Some NEW) in
    audit_logs_constraints db1 entry = Ok tt /\
    db' = set_audit_logs db1 (audit_logs db ++ [entry]).
Proof.
  tx_start (@insert_cash_advances) (ca_id r).
  destruct (_ ;;; _) as [[]|] eqn:Hc; [|discriminate].
  rewrite audit_trigger_function_eq.
  destruct (audit_logs_constraints _ _) as [[]|] eqn:Ha; [|discriminate].
  intros Heq; inversion Heq; subst; clear Heq.
  split_checks. do 2 eexists; repeat split; eauto.
Qed.

Ltac tx_by_key stmt :=
  unfold run, stmt, bind, ask, get, put, check, ret; simpl;
  match goal with
  | |- context [extract ?p ?l] =>
      destruct (extract p l) as [[[?before ?OLD] ?after]|]
  end;
  [|intros Heq; inversion Heq; auto].

Lemma update_users_inv E k SET db n db' :
  run E (update_users k SET) db = Ok (n, db') ->
  match extract (has_id (@u_id _) k) (users db) with
  | None => n = O /\ db' = db
  | Some (before, OLD, after) =>
      let NEW := keep_u_id OLD (SET OLD) in
      n = 1%nat /\
      users_columns NEW = Ok tt /\
      users_keys (before ++ after) NEW = Ok tt /\
      db' = set_users db (before ++ NEW :: after)
  end.
Proof.
  tx_by_key (@update_users).
  destruct (_ ;;; _) as [[]|] eqn:Hc; [|discriminate].
  intros Heq; inversion Heq; subst; clear Heq.
  split_checks. repeat split; auto.
Qed.

Lemma update_payments_inv E k SET db n db' :
  run E (update_payments k SET) db = Ok (n, db') ->
  match extract (has_id (@p_id _) k) (payments db) with
  | None => n = O /\ db' = db
  | Some (before, OLD, after) =>
      let NEW := keep_p_id OLD (SET OLD) in
      n = 1%nat /\
      payments_columns NEW = Ok tt /\
      payments_keys (before ++ after) NEW = Ok tt /\
      payments_references db NEW = Ok tt /\
      db' = set_payments db (before ++ NEW :: after)
  end.
Proof.
  tx_by_key (@update_payments).
  destruct (_ ;;; _) as [[]|] eqn:Hc; [|discriminate].
  intros Heq; inversion Heq; subst; clear Heq.
  split_checks. repeat split; auto.
Qed.

Lemma update_employees_inv E k SET db n db' :
  run E (update_employees k SET) db = Ok (n, db') ->
  match extract (has_id (@e_id _) k) (employees db) with
  | None => n = O /\ db' = db
  | Some (before, OLD, after) =>
      let NEW := keep_e_id OLD (SET OLD) in
      let db1 := set_employees db (before ++ NEW :: after) in
      let entry :=
        audit_entry E O "UPDATE" "employees" (Some OLD) (Some NEW) in
      n = 1%nat /\
      employees_columns NEW = Ok tt /\
      employees_keys (before ++ after) NEW = Ok tt /\
      employees_references db (before ++ after) NEW = Ok tt /\
      audit_logs_constraints db1 entry = Ok tt /\
      db' = set_audit_logs db1 (audit_logs db ++ [entry])
  end.
Proof.
  tx_by_key (@update_employees).
  destruct (_ ;;; _) as [[]|] eqn:Hc; [|discriminate].
  rewrite audit_trigger_function_eq.
  destruct (audit_logs_constraints _ _) as [[]|] eqn:Ha; [|discriminate].
  intros Heq; inversion Heq; subst; clear Heq.
  split_checks. repeat split; auto.
Qed.

Lemma update_cash_advances_inv E k SET db n db' :
  run E (update_cash_advances k SET) db = Ok (n, db') ->
  match extract (has_id (@ca_id _) k) (cash_advances db) with
  | None => n = O /\ db' = db
  | Some (before, OLD, after) =>
      let NEW := keep_ca_id OLD (SET OLD) in
      let db1 := set_cash_advances db (before ++ NEW :: after) in
      let entry :=
        audit_entry E O "UPDATE" "cash_advances" (Some OLD) (Some NEW) in
      n = 1%nat /\
      cash_advances_columns NEW = Ok tt /\
      cash_advances_keys (before ++ after) NEW = Ok tt /\
      cash_advances_references db NEW = Ok tt /\
      audit_logs_constraints db1 entry = Ok tt /\
      db' = set_audit_logs db1 (audit_logs db ++ [entry])
  end.
Proof.
  tx_by_key (@update_cash_advances).
  destruct (_ ;;; _) as [[]|] eqn:Hc; [|discriminate].
  rewrite audit_trigger_function_eq.
  destruct (audit_logs_constraints _ _) as [[]|] eqn:Ha; [|discriminate].
  intros Heq; inversion Heq; subst; clear Heq.
  split_checks. repeat split; auto.
Qed.

Lemma delete_users_inv E k db n db' :
  run E (delete_users k) db = Ok (n, db') ->
  match extract (has_id (@u_id _) k) (users db) with
  | None => n = O /\ db' = db
  | Some (before, OLD, after) =>
      n = 1%nat /\
      NO_ACTION "employees_user_id_fkey" (u_id OLD)
        (map (@e_user_id _) (employees db)) = Ok tt /\
      NO_ACTION "cash_advances_approved_by_fkey" (u_id OLD)
        (map (@ca_approved_by _) (cash_advances db)) = Ok tt /\
      NO_ACTION "payments_recorded_by_fkey" (u_id OLD)
        (map (@p_recorded_by _) (payments db)) = Ok tt /\
      NO_ACTION "audit_logs_user_id_fkey" (u_id OLD)
        (map (@al_user_id _) (audit_logs db)) = Ok tt /\
      db' = set_users db (before ++ after)
  end.
Proof.
  tx_by_key (@delete_users).
  destruct (_ ;;; _) as [[]|] eqn:Hc; [|discriminate].
  intros Heq; inversion Heq; subst; clear Heq.
  split_checks. repeat split; auto.
Qed.

Lemma delete_payments_inv E k db n db' :
  run E (delete_payments k) db = Ok (n, db') ->
  match extract (has_id (@p_id _) k) (payments db) with
  | None => n = O /\ db' = db
  | Some (before, OLD, after) =>
      n = 1%nat /\ db' = set_payments db (before ++ after)
  end.
Proof.
  tx_by_key (@delete_payments).
  intros Heq; inversion Heq; subst; clear Heq. auto.
Qed.

Lemma delete_cash_advances_inv E k db n db' :
  run E (delete_cash_advances k) db = Ok (n, db') ->
  match extract (has_id (@ca_id _) k) (cash_advances db) with
  | None => n = O /\ db' = db
  | Some (before, OLD, after) =>
      let db1 := set_cash_advances db (before ++ after) in
      let entry :=
        audit_entry E O "DELETE" "cash_advances" (Some OLD) None in
      n = 1%nat /\
      NO_ACTION "payments_cash_advance_id_fkey" (ca_id OLD)
        (map (@p_cash_advance_id _) (payments db)) = Ok tt /\
      audit_logs_constraints db1 entry = Ok tt /\
      db' = set_audit_logs db1 (audit_logs db ++ [entry])
  end.
Proof.
  tx_by_key (@delete_cash_advances).
  destruct (NO_ACTION _ _ _) as [[]|] eqn:Hc; [|discriminate].
  rewrite audit_trigger_function_eq.
  destruct (audit_logs_constraints _ _) as [[]|] eqn:Ha; [|discriminate].
  intros Heq; inversion Heq; subst; clear Heq.
  repeat split; auto.
Qed.

(** Once the check of the column constraint has passed, no row refers to the
    key any more and the action of [fk_supervisor] finds nothing to clear. *)
Lemma no_reports_filter key rows c :
  NO_ACTION c key (map (@e_supervisor_id _) rows) = Ok tt ->
  filter (reports_to key) rows = [] /\
  map (fun r => if reports_to key r then clear_supervisor r else r) rows
  = rows.
Proof.
  unfold NO_ACTION.
  destruct (existsb _ _) eqn:Hex; [discriminate|]. intros _.
  induction rows as [|r rest IH]; simpl in *; auto.
  apply orb_false_iff in Hex as [Hr Hrest].
  assert (Hf : reports_to key r = false) by exact Hr.
  rewrite Hf. destruct (IH Hrest) as [-> ->]. auto.
Qed.

Lemma set_employees_same db : set_employees db (employees db) = db.
Proof. destruct db; reflexivity. Qed.

Lemma fk_supervisor_on_delete_idle E n db key c :
  NO_ACTION c key (map (@e_supervisor_id _) (employees db)) = Ok tt ->
  fk_supervisor_on_delete key E (n, db) = Ok (tt, (n, db)).
Proof.
  intros H. apply no_reports_filter in H as [Hf Hm].
  unfold fk_supervisor_on_delete, bind, get, put; simpl.
  rewrite Hf, Hm, set_employees_same. reflexivity.
Qed.

Arguments fk_supervisor_on_delete : simpl never.

Lemma delete_employees_inv E k db n db' :
  run E (delete_employees k) db = Ok (n, db') ->
  match extract (has_id (@e_id _) k) (employees db) with
  | None => n = O /\ db' = db
  | Some (before, OLD, after) =>
      let db1 := set_employees db (before ++ after) in
      let entry := audit_entry E O "DELETE" "employees" (Some OLD) None in
      n = 1%nat /\
      NO_ACTION "employees_supervisor_id_fkey" (e_id OLD)
        (map (@e_supervisor_id _) (before ++ after)) = Ok tt /\
      NO_ACTION "cash_advances_employee_id_fkey" (e_id OLD)
        (map (@ca_employee_id _) (cash_advances db)) = Ok tt /\
      audit_logs_constraints db1 entry = Ok tt /\
      db' = set_audit_logs db1 (audit_logs db ++ [entry])
  end.
Proof.
  tx_by_key (@delete_employees).
  destruct (NO_ACTION "employees_supervisor_id_fkey" _ _) as [[]|] eqn:Hc;
    [|discriminate].
  cbn [fst snd].
  rewrite (@fk_supervisor_on_delete_idle E O
             (set_employees db (before ++ after)) (e_id OLD) _ Hc).
  cbn beta iota.
  destruct (NO_ACTION "cash_advances_employee_id_fkey" _ _) as [[]|] eqn:Hc2;
    [|discriminate].
  rewrite audit_trigger_function_eq.
  destruct (audit_logs_constraints _ _) as [[]|] eqn:Ha; [|discriminate].
  intros Heq; inversion Heq; subst; clear Heq.
  repeat split; auto.
Qed.

(** ** Keys *)

Lemma has_id_Some {R} (id : R -> option uuid) k r :
  has_id id k r = true <-> id r = Some k.
Proof.
  unfold has_id, sql_eq, is_true. split.
  - destruct (id r) as [u|]; [|discriminate].
    destruct (N.eqb_spec u k); [subst; auto|discriminate].
  - intros ->. rewrite N.eqb_refl. reflexivity.
Qed.

Lemma has_id_false {R} (id : R -> option uuid) k r :
  has_id id k r = false <-> id r <> Some k.
Proof.
  rewrite <- has_id_Some. destruct (has_id id k r); split; congruence.
Qed.

Lemma NOT_NULL_ok {T} c (v : option T) :
  NOT_NULL c v = Ok tt -> exists x, v = Some x.
Proof. destruct v; [eauto|discriminate]. Qed.

Lemma UNIQUE_fresh {R} (id : R -> option uuid) c k rows :
  UNIQUE N.eqb c (Some k) (map id rows) = Ok tt ->
  forall r, In r rows -> id r <> Some k.
Proof.
  unfold UNIQUE. destruct (existsb _ _) eqn:Hex; [discriminate|].
  intros _ r Hr Hid.
  assert (existsb (fun o => is_true (sql_eq N.eqb (Some k) o)) (map id rows)
          = true) as Habs; [|congruence].
  apply existsb_exists. exists (id r). split; [apply in_map; auto|].
  rewrite Hid. simpl. rewrite N.eqb_refl. reflexivity.
Qed.

Lemma find_last {R} (p : R -> bool) rows x :
  (forall r, In r rows -> p r = false) -> p x = true ->
  find p (rows ++ [x]) = Some x.
Proof.
  induction rows as [|r rest IH]; simpl; intros Hrows Hx.
  - rewrite Hx. reflexivity.
  - rewrite (Hrows r) by auto. apply IH; auto.
Qed.

Lemma find_middle {R} (p : R -> bool) before x after :
  (forall r, In r before -> p r = false) -> p x = true ->
  find p (before ++ x :: after) = Some x.
Proof.
  induction before as [|r rest IH]; simpl; intros Hrows Hx.
  - rewrite Hx. reflexivity.
  - rewrite (Hrows r) by auto. apply IH; auto.
Qed.

(** ** The audit log *)

Lemma stored_employee_found db k r :
  find (has_id (@e_id _) k) (employees db) = Some r ->
  stored_json db "employees" (Some k) = Some (row_to_json r).
Proof. unfold stored_json; simpl. intros ->. reflexivity. Qed.

Lemma stored_advance_found db k r :
  find (has_id (@ca_id _) k) (cash_advances db) = Some r ->
  stored_json db "cash_advances" (Some k) = Some (row_to_json r).
Proof. unfold stored_json; simpl. intros ->. reflexivity. Qed.

Lemma employees_id_not_null r :
  employees_columns r = Ok tt -> exists k, e_id r = Some k.
Proof.
  unfold employees_columns. intros H. split_checks.
  eapply NOT_NULL_ok; eauto.
Qed.

Lemma cash_advances_id_not_null r :
  cash_advances_columns r = Ok tt -> exists k, ca_id r = Some k.
Proof.
  unfold cash_advances_columns. intros H. split_checks.
  eapply NOT_NULL_ok; eauto.
Qed.

Lemma insert_employees_logged E r db n db' :
  run E (insert_employees r) db = Ok (n, db') ->
  n = 1%nat /\
  exists entry,
    logged_once E (INSERT_INTO_employees r) "employees" db db' entry.
Proof.
  intros H. apply insert_employees_inv in H
    as (k0 & NEW & HNEW & -> & Hcol & Hkey & _ & _ & ->).
  split; auto.
  destruct (employees_id_not_null _ Hcol) as [k Hk].
  assert (Hw : or_default (e_id r) (Some (uuid_generate_v4 E O)) = Some k)
    by (rewrite <- Hk, HNEW; reflexivity).
  assert (Hfound : find (has_id (@e_id _) k) (employees db ++ [NEW])
                   = Some NEW).
  { apply find_last; [|apply has_id_Some; auto].
    intros x Hx. apply has_id_false.
    unfold employees_keys in Hkey. rewrite Hk in Hkey.
    eapply UNIQUE_fresh; eauto. }
  eexists. unfold logged_once, written_id. rewrite Hw.
  cbn [TG_OP_of String.eqb Ascii.eqb Bool.eqb].
  repeat split; simpl; eauto.
  - rewrite Hk. reflexivity.
  - symmetry. apply stored_employee_found. exact Hfound.
  - right. erewrite stored_employee_found by exact Hfound. discriminate.
Qed.

Lemma insert_cash_advances_logged E r db n db' :
  run E (insert_cash_advances r) db = Ok (n, db') ->
  n = 1%nat /\
  exists entry,
    logged_once E (INSERT_INTO_cash_advances r) "cash_advances" db db' entry.
Proof.
  intros H. apply insert_cash_advances_inv in H
    as (k0 & NEW & HNEW & -> & Hcol & Hkey & _ & _ & ->).
  split; auto.
  destruct (cash_advances_id_not_null _ Hcol) as [k Hk].
  assert (Hw : or_default (ca_id r) (Some (uuid_generate_v4 E O)) = Some k)
    by (rewrite <- Hk, HNEW; reflexivity).
  assert (Hfound : find (has_id (@ca_id _) k) (cash_advances db ++ [NEW])
                   = Some NEW).
  { apply find_last; [|apply has_id_Some; auto].
    intros x Hx. apply has_id_false.
    unfold cash_advances_keys in Hkey. rewrite Hk in Hkey.
    eapply UNIQUE_fresh; eauto. }
  eexists. unfold logged_once, written_id. rewrite Hw.
  cbn [TG_OP_of String.eqb Ascii.eqb Bool.eqb].
  repeat split; simpl; eauto.
  - rewrite Hk. reflexivity.
  - symmetry. apply stored_advance_found. exact Hfound.
  - right. erewrite stored_advance_found by exact Hfound. discriminate.
Qed.

Ltac logged_done Hk :=
  repeat split; try reflexivity;
  try (simpl; rewrite ?Hk; reflexivity);
  try (right; discriminate); try (left; reflexivity);
  try (eexists; reflexivity).

Lemma update_employees_logged E k SET db n db' :
  run E (update_employees k SET) db = Ok (n, db') ->
  (n = O /\ db' = db) \/
  (n = 1%nat /\
   exists entry,
     logged_once E (UPDATE_employees k SET) "employees" db db' entry).
Proof.
  intros H. apply update_employees_inv in H.
  pose proof (extract_find (has_id (@e_id _) k) (employees db)) as Hold.
  destruct (extract _ _) as [[[before OLD] after]|] eqn:Hex; [|left; auto].
  right. destruct H as (-> & Hcol & _ & _ & _ & ->). split; auto.
  apply extract_Some in Hex as (Hl & Hk & Hbefore).
  apply has_id_Some in Hk.
  set (NEW := keep_e_id OLD (SET OLD)) in *.
  assert (Hfound : find (has_id (@e_id _) k) (before ++ NEW :: after)
                   = Some NEW)
    by (apply find_middle; [auto|apply has_id_Some; exact Hk]).
  match goal with
  | |- exists _, logged_once _ _ _ _ ?d _ =>
      assert (Hnew : stored_json d "employees" (Some k)
                     = Some (row_to_json NEW))
        by (apply stored_employee_found; exact Hfound)
  end.
  apply stored_employee_found in Hold.
  eexists. unfold logged_once, written_id.
  cbn [TG_OP_of String.eqb Ascii.eqb Bool.eqb].
  rewrite Hnew, Hold. logged_done Hk.
Qed.

Lemma update_cash_advances_logged E k SET db n db' :
  run E (update_cash_advances k SET) db = Ok (n, db') ->
  (n = O /\ db' = db) \/
  (n = 1%nat /\
   exists entry,
     logged_once E (UPDATE_cash_advances k SET) "cash_advances" db db'
       entry).
Proof.
  intros H. apply update_cash_advances_inv in H.
  pose proof (extract_find (has_id (@ca_id _) k) (cash_advances db)) as Hold.
  destruct (extract _ _) as [[[before OLD] after]|] eqn:Hex; [|left; auto].
  right. destruct H as (-> & Hcol & _ & _ & _ & ->). split; auto.
  apply extract_Some in Hex as (Hl & Hk & Hbefore).
  apply has_id_Some in Hk.
  set (NEW := keep_ca_id OLD (SET OLD)) in *.
  assert (Hfound : find (has_id (@ca_id _) k) (before ++ NEW :: after)
                   = Some NEW)
    by (apply find_middle; [auto|apply has_id_Some; exact Hk]).
  match goal with
  | |- exists _, logged_once _ _ _ _ ?d _ =>
      assert (Hnew : stored_json d "cash_advances" (Some k)
                     = Some (row_to_json NEW))
        by (apply stored_advance_found; exact Hfound)
  end.
  apply stored_advance_found in Hold.
  eexists. unfold logged_once, written_id.
  cbn [TG_OP_of String.eqb Ascii.eqb Bool.eqb].
  rewrite Hnew, Hold. logged_done Hk.
Qed.

Lemma delete_employees_logged E k db n db' :
  run E (delete_employees k) db = Ok (n, db') ->
  (n = O /\ db' = db) \/
  (n = 1%nat /\
   exists entry,
     logged_once E (DELETE_FROM_employees k) "employees" db db' entry).
Proof.
  intros H. apply delete_employees_inv in H.
  pose proof (extract_find (has_id (@e_id _) k) (employees db)) as Hold.
  destruct (extract _ _) as [[[before OLD] after]|] eqn:Hex; [|left; auto].
  right. destruct H as (-> & _ & _ & _ & ->). split; auto.
  apply extract_Some in Hex as (Hl & Hk & Hbefore).
  apply has_id_Some in Hk.
  apply stored_employee_found in Hold.
  eexists. unfold logged_once, written_id.
  cbn [TG_OP_of String.eqb Ascii.eqb Bool.eqb].
  rewrite Hold. logged_done Hk.
Qed.

Lemma delete_cash_advances_logged E k db n db' :
  run E (delete_cash_advances k) db = Ok (n, db') ->
  (n = O /\ db' = db) \/
  (n = 1%nat /\
   exists entry,
     logged_once E (DELETE_FROM_cash_advances k) "cash_advances" db db'
       entry).
Proof.
  intros H. apply delete_cash_advances_inv in H.
  pose proof (extract_find (has_id (@ca_id _) k) (cash_advances db)) as Hold.
  destruct (extract _ _) as [[[before OLD] after]|] eqn:Hex; [|left; auto].
  right. destruct H as (-> & _ & _ & ->). split; auto.
  apply extract_Some in Hex as (Hl & Hk & Hbefore).
  apply has_id_Some in Hk.
  apply stored_advance_found in Hold.
  eexists. unfold logged_once, written_id.
  cbn [TG_OP_of String.eqb Ascii.eqb Bool.eqb].
  rewrite Hold. logged_done Hk.
Qed.

(** Every write under a trigger that touches a row is logged once; one that
    touches none changes nothing. *)
Lemma audited_write_logged E s table db n db' :
  audited_table s = Some table ->
  run E (execute s) db = Ok (n, db') ->
  (n = O /\ db' = db) \/
  (n = 1%nat /\ exists entry, logged_once E s table db db' entry).
Proof.
  destruct s; simpl; intros Ht H; inversion Ht; subst; clear Ht.
  - right. apply insert_employees_logged; auto.
  - apply update_employees_logged; auto.
  - apply delete_employees_logged; auto.
  - right. apply insert_cash_advances_logged; auto.
  - apply update_cash_advances_logged; auto.
  - apply delete_cash_advances_logged; auto.
Qed.

(** A statement on a table without trigger leaves the log alone. *)
Lemma unaudited_write_silent E s db n db' :
  audited_table s = None ->
  run E (execute s) db = Ok (n, db') ->
  audit_logs db' = audit_logs db.
Proof.
  destruct s; simpl; intros Ht H; try discriminate.
  - apply insert_users_inv in H as (NEW & _ & _ & _ & _ & ->). reflexivity.
  - apply update_users_inv in H.
    destruct (extract _ _) as [[[before OLD] after]|].
    + destruct H as (_ & _ & _ & ->). reflexivity.
    + destruct H as (_ & ->). reflexivity.
  - apply delete_users_inv in H.
    destruct (extract _ _) as [[[before OLD] after]|].
    + destruct H as (_ & _ & _ & _ & _ & ->). reflexivity.
    + destruct H as (_ & ->). reflexivity.
  - apply insert_payments_inv in H as (NEW & _ & _ & _ & _ & _ & ->).
    reflexivity.
  - apply update_payments_inv in H.
    destruct (extract _ _) as [[[before OLD] after]|].
    + destruct H as (_ & _ & _ & _ & ->). reflexivity.
    + destruct H as (_ & ->). reflexivity.
  - apply delete_payments_inv in H.
    destruct (extract _ _) as [[[before OLD] after]|].
    + destruct H as (_ & ->). reflexivity.
    + destruct H as (_ & ->). reflexivity.
Qed.

(** ** A worked database *)

Lemma ex_seed_computed : schema_init (ex_env 1) = Ok (1%nat, ex_seed).
Proof. vm_compute. reflexivity. Qed.

Lemma ex_db_computed : run_script 2 ex_script ex_seed = Ok ex_db.
Proof. vm_compute. reflexivity. Qed.

Lemma run_script_reachable script :
  forall i db db',
    reachable db -> run_script i script db = Ok db' -> reachable db'.
Proof.
  induction script as [|s rest IH]; simpl; intros i db db' Hr H.
  - inversion H; subst; auto.
  - destruct (run (ex_env i) (execute s) db) as [[n db1]|] eqn:Hs;
      [|discriminate].
    eapply IH; [|exact H]. eapply reachable_step; eauto.
Qed.

Lemma ex_db_reachable : reachable ex_db.
Proof.
  eapply run_script_reachable; [|exact ex_db_computed].
  eapply reachable_init. exact ex_seed_computed.
Qed.

Lemma ex_db_approved_computed :
  run (ex_env 8)
      (execute (UPDATE_cash_advances 21 (ex_decide "APPROVED" 1000 8)))
      ex_db
  = Ok (1%nat, ex_db_approved).
Proof. vm_compute. reflexivity. Qed.

(** C3: every insert, update or delete on a cash_advances or employees row
    that succeeds appends exactly one audit_logs entry, for the written
    row's id, in the same statement; when the row is a cash advance that is
    still there (insert, update: a status transition), the entry's
    new_values.status is the status the row now has.  A statement that
    touches no row changes nothing, one on another table leaves the log as
    it was, and a failed one yields no database at all. *)
Theorem audit_entry_per_write E s db n db' :
  run E (execute s) db = Ok (n, db') ->
  match audited_table s with
  | None => audit_logs db' = audit_logs db
  | Some table =>
      (n = O /\ db' = db) \/
      (n = 1%nat /\
       exists entry,
         audit_logs db' = (audit_logs db ++ [entry])%list /\
         al_entity_type entry = Some table /\
         al_entity_id entry = written_id E s /\
         al_action entry = Some (TG_OP_of s) /\
         al_user_id entry = app_current_user_id E /\
         (table = "cash_advances" -> TG_OP_of s <> "DELETE" ->
          exists NEW,
            stored_advance db' (written_id E s) = Some NEW /\
            new_values_status entry = option_map d_text (ca_status NEW)))
  end.
Proof.
  intros H.
  destruct (audited_table s) as [table|] eqn:Ht;
    [|eapply unaudited_write_silent; eauto].
  destruct (@audited_write_logged E s table db n db' Ht H)
    as [?|[-> [entry Hl]]]; auto.
  right. split; auto. exists entry.
  destruct Hl as (Hlog & Hu & Ha & Ht' & Hid & _ & _ & Hnew & Hex & _).
  repeat split; auto.
  intros -> Hop.
  destruct (String.eqb_spec (TG_OP_of s) "DELETE") as [|_]; [contradiction|].
  destruct Hex as [?|Hex]; [discriminate|].
  unfold stored_json in Hnew, Hex. simpl in Hnew, Hex.
  destruct (stored_advance db' (written_id E s)) as [NEW|];
    [|contradiction].
  exists NEW. split; auto.
  unfold new_values_status. rewrite Hnew. reflexivity.
Qed.

Lemma audit_entry_per_write_witness :
  (1%nat = O /\ ex_db_approved = ex_db) \/
  (1%nat = 1%nat /\
   exists entry,
     audit_logs ex_db_approved = (audit_logs ex_db ++ [entry])%list /\
     al_entity_type entry = Some "cash_advances" /\
     al_entity_id entry = Some 21%N /\
     al_action entry = Some "UPDATE" /\
     al_user_id entry = Some 1000%N /\
     ("cash_advances" = "cash_advances" -> "UPDATE" <> "DELETE" ->
      exists NEW,
        stored_advance ex_db_approved (Some 21%N) = Some NEW /\
        new_values_status entry = option_map d_text (ca_status NEW))).
Proof.
  exact (@audit_entry_per_write (ex_env 8)
           (UPDATE_cash_advances 21 (ex_decide "APPROVED" 1000 8))
           ex_db 1%nat ex_db_approved ex_db_approved_computed).
Defined.

(** C4, as the trigger has it: the entry of an audited write holds the full
    prior row in old_values when the operation is a delete, and NULL when
    it is an insert or an update; it holds the full new row in new_values
    when the operation is an insert or an update, and NULL when it is a
    delete. *)
Theorem audit_entry_values E s table db db' :
  audited_table s = Some table ->
  run E (execute s) db = Ok (1%nat, db') ->
  exists entry,
    audit_logs db' = (audit_logs db ++ [entry])%list /\
    (TG_OP_of s = "DELETE" ->
     al_old_values entry = stored_json db table (written_id E s) /\
     al_old_values entry <> None /\
     al_new_values entry = None) /\
    (TG_OP_of s <> "DELETE" ->
     al_old_values entry = None /\
     al_new_values entry = stored_json db' table (written_id E s) /\
     al_new_values entry <> None).
Proof.
  intros Ht H.
  destruct (@audited_write_logged E s table db 1%nat db' Ht H)
    as [[? _]|[_ [entry Hl]]]; [discriminate|].
  exists entry.
  destruct Hl as (Hlog & _ & _ & _ & _ & _ & Hold & Hnew & Hex & Hex').
  split; auto.
  destruct (String.eqb_spec (TG_OP_of s) "DELETE") as [Hop|Hop].
  - split; [|contradiction]. intros _.
    assert (Hins : String.eqb (TG_OP_of s) "INSERT" = false)
      by (rewrite Hop; reflexivity).
    rewrite Hins in Hex'. destruct Hex' as [?|Hex']; [discriminate|].
    repeat split; auto. rewrite Hold. exact Hex'.
  - split; [contradiction|]. intros _.
    destruct Hex as [?|Hex]; [discriminate|].
    repeat split; auto. rewrite Hnew. exact Hex.
Qed.

Lemma audit_entry_values_witness :
  exists entry,
    audit_logs ex_db_approved = (audit_logs ex_db ++ [entry])%list /\
    ("UPDATE" = "DELETE" ->
     al_old_values entry = stored_json ex_db "cash_advances" (Some 21%N) /\
     al_old_values entry <> None /\
     al_new_values entry = None) /\
    ("UPDATE" <> "DELETE" ->
     al_old_values entry = None /\
     al_new_values entry
     = stored_json ex_db_approved "cash_advances" (Some 21%N) /\
     al_new_values entry <> None).
Proof.
  exact (@audit_entry_values (ex_env 8)
           (UPDATE_cash_advances 21 (ex_decide "APPROVED" 1000 8))
           "cash_advances" ex_db ex_db_approved eq_refl
           ex_db_approved_computed).
Defined.

(** C4 as stated fails on an update: the advance 21 exists before the
    update that approves it, the update is logged, and the entry's
    old_values is NULL. *)
Lemma update_logs_no_prior_row :
  option_map (@al_action _)
    (logged (ex_env 8)
       (UPDATE_cash_advances 21 (ex_decide "APPROVED" 1000 8)) ex_db)
  = Some (Some "UPDATE") /\
  option_map (@ca_status _) (stored_advance ex_db (Some 21%N))
  = Some (Some "PENDING") /\
  option_map (@al_old_values _)
    (logged (ex_env 8)
       (UPDATE_cash_advances 21 (ex_decide "APPROVED" 1000 8)) ex_db)
  = Some None.
Proof. vm_compute. repeat split; reflexivity. Qed.

(** ** The constraints as an invariant *)

Lemma sql_eq_N_true (a b : option uuid) :
  is_true (sql_eq N.eqb a b) = true <-> exists k, a = Some k /\ b = Some k.
Proof.
  destruct a as [x|], b as [y|]; simpl; split;
    try discriminate; try (intros (k & ? & ?); discriminate).
  - destruct (N.eqb_spec x y); [subst; eauto|discriminate].
  - intros (k & Hx & Hy). inversion Hx; inversion Hy; subst.
    rewrite N.eqb_refl. reflexivity.
Qed.

Lemma sql_eq_string_true (a b : option text) :
  is_true (sql_eq String.eqb a b) = true <->
  exists k, a = Some k /\ b = Some k.
Proof.
  destruct a as [x|], b as [y|]; simpl; split;
    try discriminate; try (intros (k & ? & ?); discriminate).
  - destruct (String.eqb_spec x y); [subst; eauto|discriminate].
  - intros (k & Hx & Hy). inversion Hx; inversion Hy; subst.
    rewrite String.eqb_refl. reflexivity.
Qed.

Lemma UNIQUE_N_ok c k (others : list (option uuid)) :
  UNIQUE N.eqb c (Some k) others = Ok tt -> ~ In (Some k) others.
Proof.
  unfold UNIQUE. destruct (existsb _ _) eqn:Hex; [discriminate|].
  intros _ Hin.
  assert (existsb (fun o => is_true (sql_eq N.eqb (Some k) o)) others = true)
    as Habs; [|congruence].
  apply existsb_exists. exists (Some k). split; auto.
  apply sql_eq_N_true. eauto.
Qed.

Lemma UNIQUE_string_ok c k (others : list (option text)) :
  UNIQUE String.eqb c (Some k) others = Ok tt -> ~ In (Some k) others.
Proof.
  unfold UNIQUE. destruct (existsb _ _) eqn:Hex; [discriminate|].
  intros _ Hin.
  assert (existsb (fun o => is_true (sql_eq String.eqb (Some k) o)) others
          = true) as Habs; [|congruence].
  apply existsb_exists. exists (Some k). split; auto.
  apply sql_eq_string_true. eauto.
Qed.

Lemma REFERENCES_ok c v keys :
  REFERENCES c v keys = Ok tt -> refers v keys.
Proof.
  unfold REFERENCES, refers. destruct v as [k|]; auto.
  destruct (existsb _ _) eqn:Hex; [|discriminate]. intros _. right.
  apply existsb_exists in Hex as (x & Hx & Heq).
  apply sql_eq_N_true in Heq as (k' & Hk & ->). rewrite Hk. exact Hx.
Qed.

Lemma NO_ACTION_ok c k referring :
  NO_ACTION c (Some k) referring = Ok tt -> ~ In (Some k) referring.
Proof.
  unfold NO_ACTION. destruct (existsb _ _) eqn:Hex; [discriminate|].
  intros _ Hin.
  assert (existsb (fun r => is_true (sql_eq N.eqb r (Some k))) referring
          = true) as Habs; [|congruence].
  apply existsb_exists. exists (Some k). split; auto.
  apply sql_eq_N_true. eauto.
Qed.

Lemma NoDup_snoc {A} (l : list A) x :
  NoDup l -> ~ In x l -> NoDup (l ++ [x]).
Proof.
  intros Hl Hx. apply NoDup_rev in Hl.
  rewrite <- (rev_involutive (l ++ [x])). apply NoDup_rev.
  rewrite rev_app_distr. simpl. constructor; auto.
  rewrite <- in_rev. exact Hx.
Qed.

Lemma map_replace {A B} (f : A -> B) before x y after :
  f y = f x ->
  map f (before ++ y :: after) = map f (before ++ x :: after).
Proof. intros H. rewrite !map_app. simpl. rewrite H. reflexivity. Qed.

Lemma NoDup_map_remove {A B} (f : A -> B) before x after :
  NoDup (map f (before ++ x :: after)) ->
  NoDup (map f (before ++ after)) /\ ~ In (f x) (map f (before ++ after)).
Proof.
  rewrite !map_app. simpl. intros H. split.
  - eapply NoDup_remove_1; eauto.
  - eapply NoDup_remove_2; eauto.
Qed.

Lemma Forall_remove {A} (P : A -> Prop) before x after :
  Forall P (before ++ x :: after) -> Forall P (before ++ after) /\ P x.
Proof.
  rewrite !Forall_app. intros [Hb Ha]. inversion Ha; subst. auto.
Qed.

Lemma Forall_replace {A} (P : A -> Prop) before x y after :
  Forall P (before ++ x :: after) -> P y -> Forall P (before ++ y :: after).
Proof.
  rewrite !Forall_app. intros [Hb Ha] Hy. inversion Ha; subst. auto.
Qed.

Lemma refers_incl v keys keys' :
  refers v keys -> incl keys keys' -> refers v keys'.
Proof. intros [->|H] Hi; [left|right]; auto. Qed.

(** A referenced table gains a row. *)
Lemma Forall_refers_snoc {R} (f : R -> option uuid) keys k rows :
  Forall (fun r => refers (f r) keys) rows ->
  Forall (fun r => refers (f r) (keys ++ [k])) rows.
Proof.
  apply Forall_impl. intros r H. eapply refers_incl; eauto.
  apply incl_appl, incl_refl.
Qed.

(** A referenced table loses the row under a key nothing refers to. *)
Lemma Forall_refers_remove {R S} (f : R -> option uuid)
  (id : S -> option uuid) before x after rows :
  Forall (fun r => refers (f r) (map id (before ++ x :: after))) rows ->
  ~ In (id x) (map f rows) ->
  Forall (fun r => refers (f r) (map id (before ++ after))) rows.
Proof.
  intros H Hx. rewrite Forall_forall in *. intros r Hr.
  destruct (H r Hr) as [Hn|Hin]; [left; auto|right].
  rewrite map_app in *. simpl in Hin.
  apply in_app_or in Hin as [Hin|[Heq|Hin]];
    try (apply in_or_app; auto; fail).
  exfalso. apply Hx. rewrite Heq. apply in_map. exact Hr.
Qed.

Lemma users_not_null r :
  users_columns r = Ok tt ->
  (exists k, u_id r = Some k) /\ (exists s, u_username r = Some s) /\
  (exists s, u_email r = Some s).
Proof.
  unfold users_columns. intros H. split_checks.
  repeat split; eapply NOT_NULL_ok; eauto.
Qed.

Lemma payments_id_not_null r :
  payments_columns r = Ok tt -> exists k, p_id r = Some k.
Proof.
  unfold payments_columns. intros H. split_checks.
  eapply NOT_NULL_ok; eauto.
Qed.

Lemma audit_logs_id_not_null r :
  audit_logs_columns r = Ok tt -> exists k, al_id r = Some k.
Proof.
  unfold audit_logs_columns. intros H. split_checks.
  eapply NOT_NULL_ok; eauto.
Qed.

Ltac frame Hc := try solve [apply Hc].

Lemma insert_users_consistent E r db n db' :
  consistent db -> run E (insert_users r) db = Ok (n, db') ->
  consistent db'.
Proof.
  intros Hc H.
  apply insert_users_inv in H as (NEW & _ & _ & Hcol & Hkey & ->).
  destruct (users_not_null _ Hcol) as ((k & Hk) & (un & Hun) & (em & Hem)).
  unfold users_keys in Hkey. rewrite Hk, Hun, Hem in Hkey. split_checks.
  constructor; simpl; rewrite ?map_app; simpl; frame Hc.
  - apply Forall_app. split; [apply Hc|auto].
  - apply NoDup_snoc; [apply Hc|]. rewrite Hk. eapply UNIQUE_N_ok; eauto.
  - apply NoDup_snoc; [apply Hc|]. rewrite Hun.
    eapply UNIQUE_string_ok; eauto.
  - apply NoDup_snoc; [apply Hc|]. rewrite Hem.
    eapply UNIQUE_string_ok; eauto.
  - apply Forall_refers_snoc, Hc.
  - apply Forall_refers_snoc, Hc.
  - apply Forall_refers_snoc, Hc.
  - apply Forall_refers_snoc, Hc.
Qed.

Lemma NoDup_middle {A} (before after : list A) x :
  NoDup (before ++ after) -> ~ In x (before ++ after) ->
  NoDup (before ++ x :: after).
Proof.
  intros H Hx. eapply Permutation_NoDup; [apply Permutation_middle|].
  constructor; auto.
Qed.

Lemma NoDup_map_replace_fresh {A B} (f : A -> B) before x y after :
  NoDup (map f (before ++ x :: after)) ->
  ~ In (f y) (map f (before ++ after)) ->
  NoDup (map f (before ++ y :: after)).
Proof.
  intros H Hy. apply NoDup_map_remove in H as [H _].
  rewrite map_app in *. simpl. apply NoDup_middle; auto.
Qed.

Lemma refers_middle v (k : option uuid) before after :
  refers v (k :: before ++ after) -> refers v (before ++ k :: after).
Proof.
  intros H. eapply refers_incl; eauto.
  intros x [<-|Hx]; apply in_or_app; simpl; auto.
  apply in_app_or in Hx as []; auto.
Qed.

Lemma refers_snoc v (k : option uuid) keys :
  refers v (k :: keys) -> refers v (keys ++ [k]).
Proof.
  intros H. eapply refers_incl; eauto.
  intros x [<-|Hx]; apply in_or_app; simpl; auto.
Qed.

Lemma Forall_remove_rows {A} (P : A -> Prop) before x after :
  Forall P (before ++ x :: after) -> Forall P (before ++ after).
Proof. intros H. apply Forall_remove in H as [H _]. exact H. Qed.

Lemma NoDup_map_remove_rows {A B} (f : A -> B) before x after :
  NoDup (map f (before ++ x :: after)) -> NoDup (map f (before ++ after)).
Proof. intros H. apply NoDup_map_remove in H as [H _]. exact H. Qed.

Lemma update_users_consistent E k SET db n db' :
  consistent db -> run E (update_users k SET) db = Ok (n, db') ->
  consistent db'.
Proof.
  intros Hc H. apply update_users_inv in H.
  destruct (extract _ _) as [[[before OLD] after]|] eqn:Hex;
    [|destruct H as [_ ->]; auto].
  destruct H as (_ & Hcol & Hkey & ->).
  apply extract_Some in Hex as (Hl & _ & _).
  set (NEW := keep_u_id OLD (SET OLD)) in *.
  destruct (users_not_null _ Hcol) as (_ & (un & Hun) & (em & Hem)).
  unfold users_keys in Hkey. rewrite Hun, Hem in Hkey. split_checks.
  pose proof (uq_username Hc) as Hu. pose proof (uq_email Hc) as He.
  pose proof (c_users Hc) as Hcu.
  assert (Hid : map (@u_id _) (before ++ NEW :: after)
                = map (@u_id _) (users db))
    by (rewrite Hl; apply map_replace; reflexivity).
  rewrite Hl in Hu, He, Hcu.
  constructor; simpl; rewrite ?Hid; frame Hc.
  - eapply Forall_replace; eauto.
  - eapply NoDup_map_replace_fresh; eauto. rewrite Hun.
    eapply UNIQUE_string_ok; eauto.
  - eapply NoDup_map_replace_fresh; eauto. rewrite Hem.
    eapply UNIQUE_string_ok; eauto.
Qed.

Lemma delete_users_consistent E k db n db' :
  consistent db -> run E (delete_users k) db = Ok (n, db') ->
  consistent db'.
Proof.
  intros Hc H. apply delete_users_inv in H.
  destruct (extract _ _) as [[[before OLD] after]|] eqn:Hex;
    [|destruct H as [_ ->]; auto].
  destruct H as (_ & He & Hca & Hp & Hal & ->).
  apply extract_Some in Hex as (Hl & Hk & _).
  apply has_id_Some in Hk. rewrite Hk in *.
  apply NO_ACTION_ok in He, Hca, Hp, Hal. rewrite <- Hk in *.
  pose proof (uq_username Hc) as Hu. pose proof (uq_email Hc) as Hem.
  pose proof (c_users Hc) as Hcu. pose proof (pk_users Hc) as Hpk.
  pose proof (fk_e_user Hc) as F1. pose proof (fk_ca_approved_by Hc) as F2.
  pose proof (fk_p_recorded_by Hc) as F3. pose proof (fk_al_user Hc) as F4.
  rewrite Hl in *.
  constructor; simpl; frame Hc.
  - eapply Forall_remove_rows; eauto.
  - eapply NoDup_map_remove_rows; eauto.
  - eapply NoDup_map_remove_rows; eauto.
  - eapply NoDup_map_remove_rows; eauto.
  - eapply Forall_refers_remove; eauto.
  - eapply Forall_refers_remove; eauto.
  - eapply Forall_refers_remove; eauto.
  - eapply Forall_refers_remove; eauto.
Qed.

(** The trigger's entry keeps the constraints. *)
Lemma audit_append_consistent db log entry :
  consistent db -> log = audit_logs db ->
  audit_logs_constraints db entry = Ok tt ->
  consistent (set_audit_logs db (log ++ [entry])).
Proof.
  intros Hc -> H. unfold audit_logs_constraints in H. split_checks.
  destruct (audit_logs_id_not_null _ H0) as [k Hk].
  unfold audit_logs_keys in H1. rewrite Hk in H1.
  apply UNIQUE_N_ok in H1. apply REFERENCES_ok in H.
  constructor; simpl; rewrite ?map_app; simpl; frame Hc.
  - apply Forall_app. split; [apply Hc|auto].
  - apply NoDup_snoc; [apply Hc|]. rewrite Hk. exact H1.
  - apply Forall_app. split; [apply Hc|auto].
Qed.

Lemma employees_insert_consistent db NEW :
  consistent db ->
  employees_columns NEW = Ok tt ->
  employees_keys (employees db) NEW = Ok tt ->
  employees_references db (employees db) NEW = Ok tt ->
  consistent (set_employees db (employees db ++ [NEW])).
Proof.
  intros Hc Hcol Hkey Href.
  destruct (employees_id_not_null _ Hcol) as [k Hk].
  unfold employees_keys in Hkey. rewrite Hk in Hkey.
  apply UNIQUE_N_ok in Hkey.
  unfold employees_references in Href. split_checks.
  apply REFERENCES_ok in Href0, Href1.
  constructor; simpl; rewrite ?map_app; simpl; frame Hc.
  - apply Forall_app. split; [apply Hc|auto].
  - apply NoDup_snoc; [apply Hc|]. rewrite Hk. exact Hkey.
  - apply Forall_app. split; [apply Hc|auto].
  - apply Forall_app. split; [apply Forall_refers_snoc, Hc|].
    constructor; auto. apply refers_snoc. exact Href1.
  - apply Forall_refers_snoc, Hc.
Qed.

Lemma employees_update_consistent db before OLD NEW after :
  consistent db ->
  employees db = (before ++ OLD :: after)%list ->
  e_id NEW = e_id OLD ->
  employees_columns NEW = Ok tt ->
  employees_references db (before ++ after) NEW = Ok tt ->
  consistent (set_employees db (before ++ NEW :: after)).
Proof.
  intros Hc Hl Hid Hcol Href.
  unfold employees_references in Href. split_checks.
  apply REFERENCES_ok in Href0, Href1.
  pose proof (c_employees Hc) as Hce. pose proof (fk_e_user Hc) as F1.
  pose proof (fk_e_supervisor Hc) as F2.
  assert (Hids : map (@e_id _) (before ++ NEW :: after)
                 = map (@e_id _) (employees db))
    by (rewrite Hl; apply map_replace; exact Hid).
  constructor; simpl; rewrite ?Hids; frame Hc.
  - rewrite Hl in Hce. eapply Forall_replace; eauto.
  - rewrite Hl in F1. eapply Forall_replace; eauto.
  - apply (@Forall_replace _ _ before OLD NEW after);
      [rewrite <- Hl; exact F2|].
    rewrite <- Hids, map_app. simpl. apply refers_middle.
    rewrite <- map_app. exact Href1.
Qed.

Lemma employees_delete_consistent db before OLD after :
  consistent db ->
  employees db = (before ++ OLD :: after)%list ->
  NO_ACTION "employees_supervisor_id_fkey" (e_id OLD)
    (map (@e_supervisor_id _) (before ++ after)) = Ok tt ->
  NO_ACTION "cash_advances_employee_id_fkey" (e_id OLD)
    (map (@ca_employee_id _) (cash_advances db)) = Ok tt ->
  consistent (set_employees db (before ++ after)).
Proof.
  intros Hc Hl Hs Hca.
  pose proof (c_employees Hc) as Hce. pose proof (fk_e_user Hc) as F1.
  pose proof (fk_e_supervisor Hc) as F2.
  pose proof (fk_ca_employee Hc) as F3.
  pose proof (pk_employees Hc) as Hpk.
  rewrite Hl in *.
  apply Forall_remove in Hce as [Hce Hcol].
  destruct (employees_id_not_null _ Hcol) as [k Hk]. rewrite Hk in *.
  apply NO_ACTION_ok in Hs, Hca. rewrite <- Hk in *.
  constructor; simpl; frame Hc; auto.
  - eapply NoDup_map_remove_rows; eauto.
  - eapply Forall_remove_rows; eauto.
  - apply Forall_remove_rows in F2.
    eapply Forall_refers_remove; eauto.
  - eapply Forall_refers_remove; eauto.
Qed.

Lemma cash_advances_insert_consistent db NEW :
  consistent db ->
  cash_advances_columns NEW = Ok tt ->
  cash_advances_keys (cash_advances db) NEW = Ok tt ->
  cash_advances_references db NEW = Ok tt ->
  consistent (set_cash_advances db (cash_advances db ++ [NEW])).
Proof.
  intros Hc Hcol Hkey Href.
  destruct (cash_advances_id_not_null _ Hcol) as [k Hk].
  unfold cash_advances_keys in Hkey. rewrite Hk in Hkey.
  apply UNIQUE_N_ok in Hkey.
  unfold cash_advances_references in Href. split_checks.
  apply REFERENCES_ok in Href, Href0.
  constructor; simpl; rewrite ?map_app; simpl; frame Hc.
  - apply Forall_app. split; [apply Hc|auto].
  - apply NoDup_snoc; [apply Hc|]. rewrite Hk. exact Hkey.
  - apply Forall_app. split; [apply Hc|auto].
  - apply Forall_app. split; [apply Hc|auto].
  - apply Forall_refers_snoc, Hc.
Qed.

Lemma cash_advances_update_consistent db before OLD NEW after :
  consistent db ->
  cash_advances db = (before ++ OLD :: after)%list ->
  ca_id NEW = ca_id OLD ->
  cash_advances_columns NEW = Ok tt ->
  cash_advances_references db NEW = Ok tt ->
  consistent (set_cash_advances db (before ++ NEW :: after)).
Proof.
  intros Hc Hl Hid Hcol Href.
  unfold cash_advances_references in Href. split_checks.
  apply REFERENCES_ok in Href, Href0.
  pose proof (c_cash_advances Hc) as Hce.
  pose proof (fk_ca_employee Hc) as F1.
  pose proof (fk_ca_approved_by Hc) as F2.
  assert (Hids : map (@ca_id _) (before ++ NEW :: after)
                 = map (@ca_id _) (cash_advances db))
    by (rewrite Hl; apply map_replace; exact Hid).
  rewrite Hl in Hce, F1, F2.
  constructor; simpl; rewrite ?Hids; frame Hc.
  - eapply Forall_replace; eauto.
  - eapply Forall_replace; eauto.
  - eapply Forall_replace; eauto.
Qed.

Lemma cash_advances_delete_consistent db before OLD after :
  consistent db ->
  cash_advances db = (before ++ OLD :: after)%list ->
  NO_ACTION "payments_cash_advance_id_fkey" (ca_id OLD)
    (map (@p_cash_advance_id _) (payments db)) = Ok tt ->
  consistent (set_cash_advances db (before ++ after)).
Proof.
  intros Hc Hl Hp.
  pose proof (c_cash_advances Hc) as Hce.
  pose proof (fk_ca_employee Hc) as F1.
  pose proof (fk_ca_approved_by Hc) as F2.
  pose proof (fk_p_cash_advance Hc) as F3.
  pose proof (pk_cash_advances Hc) as Hpk.
  rewrite Hl in *.
  apply Forall_remove in Hce as [Hce Hcol].
  destruct (cash_advances_id_not_null _ Hcol) as [k Hk]. rewrite Hk in *.
  apply NO_ACTION_ok in Hp. rewrite <- Hk in *.
  constructor; simpl; frame Hc; auto.
  - eapply NoDup_map_remove_rows; eauto.
  - eapply Forall_remove_rows; eauto.
  - eapply Forall_remove_rows; eauto.
  - eapply Forall_refers_remove; eauto.
Qed.

Lemma payments_insert_consistent db NEW :
  consistent db ->
  payments_columns NEW = Ok tt ->
  payments_keys (payments db) NEW = Ok tt ->
  payments_references db NEW = Ok tt ->
  consistent (set_payments db (payments db ++ [NEW])).
Proof.
  intros Hc Hcol Hkey Href.
  destruct (payments_id_not_null _ Hcol) as [k Hk].
  unfold payments_keys in Hkey. rewrite Hk in Hkey.
  apply UNIQUE_N_ok in Hkey.
  unfold payments_references in Href. split_checks.
  apply REFERENCES_ok in Href, Href0.
  constructor; simpl; rewrite ?map_app; simpl; frame Hc.
  - apply Forall_app. split; [apply Hc|auto].
  - apply NoDup_snoc; [apply Hc|]. rewrite Hk. exact Hkey.
  - apply Forall_app. split; [apply Hc|auto].
  - apply Forall_app. split; [apply Hc|auto].
Qed.

Lemma payments_update_consistent db before OLD NEW after :
  consistent db ->
  payments db = (before ++ OLD :: after)%list ->
  p_id NEW = p_id OLD ->
  payments_columns NEW = Ok tt ->
  payments_references db NEW = Ok tt ->
  consistent (set_payments db (before ++ NEW :: after)).
Proof.
  intros Hc Hl Hid Hcol Href.
  unfold payments_references in Href. split_checks.
  apply REFERENCES_ok in Href, Href0.
  pose proof (c_payments Hc) as Hce.
  pose proof (fk_p_cash_advance Hc) as F1.
  pose proof (fk_p_recorded_by Hc) as F2.
  assert (Hids : map (@p_id _) (before ++ NEW :: after)
                 = map (@p_id _) (payments db))
    by (rewrite Hl; apply map_replace; exact Hid).
  rewrite Hl in Hce, F1, F2.
  constructor; simpl; rewrite ?Hids; frame Hc.
  - eapply Forall_replace; eauto.
  - eapply Forall_replace; eauto.
  - eapply Forall_replace; eauto.
Qed.

Lemma payments_delete_consistent db before OLD after :
  consistent db ->
  payments db = (before ++ OLD :: after)%list ->
  consistent (set_payments db (before ++ after)).
Proof.
  intros Hc Hl.
  pose proof (c_payments Hc) as Hce.
  pose proof (fk_p_cash_advance Hc) as F1.
  pose proof (fk_p_recorded_by Hc) as F2.
  pose proof (pk_payments Hc) as Hpk.
  rewrite Hl in *.
  constructor; simpl; frame Hc.
  - eapply Forall_remove_rows; eauto.
  - eapply NoDup_map_remove_rows; eauto.
  - eapply Forall_remove_rows; eauto.
  - eapply Forall_remove_rows; eauto.
Qed.

Lemma empty_db_consistent : consistent empty_db.
Proof. constructor; simpl; constructor. Qed.

(** A statement that succeeds keeps every constraint. *)
Lemma execute_consistent E s db n db' :
  consistent db -> run E (execute s) db = Ok (n, db') -> consistent db'.
Proof.
  intros Hc H. destruct s; simpl in H.
  - eapply insert_users_consistent; eauto.
  - eapply update_users_consistent; eauto.
  - eapply delete_users_consistent; eauto.
  - apply insert_employees_inv in H
      as (k0 & NEW & _ & _ & Hcol & Hkey & Href & Ha & ->).
    apply audit_append_consistent; auto.
    apply employees_insert_consistent; auto.
  - apply update_employees_inv in H.
    destruct (extract _ _) as [[[before OLD] after]|] eqn:Hex;
      [|destruct H as [_ ->]; auto].
    destruct H as (_ & Hcol & _ & Href & Ha & ->).
    apply extract_Some in Hex as (Hl & _ & _).
    apply audit_append_consistent; auto.
    eapply employees_update_consistent; eauto.
  - apply delete_employees_inv in H.
    destruct (extract _ _) as [[[before OLD] after]|] eqn:Hex;
      [|destruct H as [_ ->]; auto].
    destruct H as (_ & Hs & Hca & Ha & ->).
    apply extract_Some in Hex as (Hl & _ & _).
    apply audit_append_consistent; auto.
    eapply employees_delete_consistent; eauto.
  - apply insert_cash_advances_inv in H
      as (k0 & NEW & _ & _ & Hcol & Hkey & Href & Ha & ->).
    apply audit_append_consistent; auto.
    apply cash_advances_insert_consistent; auto.
  - apply update_cash_advances_inv in H.
    destruct (extract _ _) as [[[before OLD] after]|] eqn:Hex;
      [|destruct H as [_ ->]; auto].
    destruct H as (_ & Hcol & _ & Href & Ha & ->).
    apply extract_Some in Hex as (Hl & _ & _).
    apply audit_append_consistent; auto.
    eapply cash_advances_update_consistent; eauto.
  - apply delete_cash_advances_inv in H.
    destruct (extract _ _) as [[[before OLD] after]|] eqn:Hex;
      [|destruct H as [_ ->]; auto].
    destruct H as (_ & Hp & Ha & ->).
    apply extract_Some in Hex as (Hl & _ & _).
    apply audit_append_consistent; auto.
    eapply cash_advances_delete_consistent; eauto.
  - apply insert_payments_inv in H
      as (NEW & _ & _ & Hcol & Hkey & Href & ->).
    apply payments_insert_consistent; auto.
  - apply update_payments_inv in H.
    destruct (extract _ _) as [[[before OLD] after]|] eqn:Hex;
      [|destruct H as [_ ->]; auto].
    destruct H as (_ & Hcol & _ & Href & ->).
    apply extract_Some in Hex as (Hl & _ & _).
    eapply payments_update_consistent; eauto.
  - apply delete_payments_inv in H.
    destruct (extract _ _) as [[[before OLD] after]|] eqn:Hex;
      [|destruct H as [_ ->]; auto].
    destruct H as (_ & ->).
    apply extract_Some in Hex as (Hl & _ & _).
    eapply payments_delete_consistent; eauto.
Qed.

Lemma schema_init_consistent E n db :
  schema_init E = Ok (n, db) -> consistent db.
Proof.
  unfold schema_init. intros H.
  eapply insert_users_consistent; [apply empty_db_consistent|eauto].
Qed.

(** Every database the schema can hold satisfies its constraints. *)
Lemma reachable_consistent db : reachable db -> consistent db.
Proof.
  induction 1 as [E n db H|E s n db db' _ IH H].
  - eapply schema_init_consistent; eauto.
  - eapply execute_consistent; eauto.
Qed.

(** ** Enumerated domains *)

Lemma sql_in_true v l :
  sql_in v l = Some true -> exists s, v = Some s /\ In s l.
Proof.
  unfold sql_in. destruct v as [s|]; [|discriminate].
  intros H. inversion H as [Hex]. exists s. split; auto.
  apply existsb_exists in Hex as (x & Hx & Heq).
  apply String.eqb_eq in Heq. subst. exact Hx.
Qed.

Lemma CHECK_in c v l :
  CHECK c (sql_in v l) = Ok tt -> v = None \/ exists s, v = Some s /\ In s l.
Proof.
  destruct v as [s|]; [|auto]. intros H. right.
  apply sql_in_true. unfold CHECK in H.
  destruct (sql_in (Some s) l) as [[]|] eqn:Hin; try discriminate; auto.
Qed.

Lemma users_role_domain r :
  users_columns r = Ok tt ->
  exists s, u_role r = Some s /\ In s ["ADMIN"; "SUPERVISOR"; "EMPLOYEE"].
Proof.
  unfold users_columns. intros H. split_checks.
  apply CHECK_in in H as [Hn|H]; auto.
  apply NOT_NULL_ok in H8 as [s Hs]. congruence.
Qed.

Lemma cash_advances_status_domain r :
  cash_advances_columns r = Ok tt ->
  exists s, ca_status r = Some s /\
            In s ["PENDING"; "APPROVED"; "REJECTED"; "PAID"].
Proof.
  unfold cash_advances_columns. intros H. split_checks.
  apply CHECK_in in H as [Hn|H]; auto.
  apply NOT_NULL_ok in H8 as [s Hs]. congruence.
Qed.

Lemma payments_type_domain r :
  payments_columns r = Ok tt ->
  p_payment_type r = None \/
  exists s, p_payment_type r = Some s /\
            In s ["SALARY_DEDUCTION"; "CASH"; "BANK_TRANSFER"].
Proof.
  unfold payments_columns. intros H. split_checks.
  apply CHECK_in in H. exact H.
Qed.

(** C8, as the schema has it: in every database the schema can hold, every
    users row has a role among ADMIN, SUPERVISOR, EMPLOYEE, every
    cash_advances row a status among PENDING, APPROVED, REJECTED, PAID, and
    every payments row a payment_type that is NULL or among
    SALARY_DEDUCTION, CASH, BANK_TRANSFER. *)
Theorem enumerated_domains db :
  reachable db ->
  (forall r, In r (users db) ->
     exists s, u_role r = Some s /\
               In s ["ADMIN"; "SUPERVISOR"; "EMPLOYEE"]) /\
  (forall r, In r (cash_advances db) ->
     exists s, ca_status r = Some s /\
               In s ["PENDING"; "APPROVED"; "REJECTED"; "PAID"]) /\
  (forall r, In r (payments db) ->
     p_payment_type r = None \/
     exists s, p_payment_type r = Some s /\
               In s ["SALARY_DEDUCTION"; "CASH"; "BANK_TRANSFER"]).
Proof.
  intros Hr. apply reachable_consistent in Hr.
  pose proof (c_users Hr) as Hu. pose proof (c_cash_advances Hr) as Hca.
  pose proof (c_payments Hr) as Hp. rewrite Forall_forall in Hu, Hca, Hp.
  repeat split; intros r Hin.
  - apply users_role_domain; auto.
  - apply cash_advances_status_domain; auto.
  - apply payments_type_domain; auto.
Qed.

Lemma enumerated_domains_witness :
  (forall r, In r (users ex_db) ->
     exists s, u_role r = Some s /\
               In s ["ADMIN"; "SUPERVISOR"; "EMPLOYEE"]) /\
  (forall r, In r (cash_advances ex_db) ->
     exists s, ca_status r = Some s /\
               In s ["PENDING"; "APPROVED"; "REJECTED"; "PAID"]) /\
  (forall r, In r (payments ex_db) ->
     p_payment_type r = None \/
     exists s, p_payment_type r = Some s /\
               In s ["SALARY_DEDUCTION"; "CASH"; "BANK_TRANSFER"]).
Proof. exact (@enumerated_domains ex_db ex_db_reachable). Defined.

Lemma ex_db_untyped_computed :
  run_script 8 [INSERT_INTO_payments (ex_payment 31 20 5000 None)] ex_db
  = Ok ex_db_untyped.
Proof. vm_compute. reflexivity. Qed.

(** C8 as stated fails on payments: the schema stores a payment whose
    payment_type is NULL, which is none of the three values. *)
Lemma payment_type_may_be_null :
  reachable ex_db_untyped /\
  map (@p_payment_type _) (payments ex_db_untyped) = [Some "CASH"; None].
Proof.
  split; [|reflexivity].
  eapply run_script_reachable;
    [exact ex_db_reachable|exact ex_db_untyped_computed].
Qed.

(** ** Deleting a supervisor *)

(** A row that another row names as its supervisor cannot be deleted: the
    column constraint of line 40 is checked before [fk_supervisor] acts. *)
Lemma delete_referenced_employee_rejected E db k r :
  In r (employees db) -> e_id r <> Some k -> e_supervisor_id r = Some k ->
  (exists OLD, In OLD (employees db) /\ e_id OLD = Some k) ->
  run E (delete_employees k) db
  = Err (foreign_key_violation "employees_supervisor_id_fkey").
Proof.
  intros Hr Hid Hsup (OLD0 & HOLD & Hk0).
  unfold run, delete_employees, bind, get, put, check, ret; simpl.
  destruct (extract (has_id (@e_id _) k) (employees db))
    as [[[before OLD] after]|] eqn:Hex.
  - apply extract_Some in Hex as (Hl & Hk & _).
    apply has_id_Some in Hk.
    assert (Hin : In r (before ++ after)).
    { rewrite Hl in Hr. apply in_app_or in Hr as [|[->|]];
        try (apply in_or_app; auto; fail). contradiction. }
    unfold NO_ACTION.
    assert (Hex : existsb (fun x => is_true (sql_eq N.eqb x (e_id OLD)))
                    (map (@e_supervisor_id _) (before ++ after)) = true).
    { apply existsb_exists. exists (e_supervisor_id r).
      split; [apply in_map; auto|]. apply sql_eq_N_true. eauto. }
    rewrite Hex. reflexivity.
  - pose proof (extract_None _ _ Hex _ HOLD) as Hf.
    apply has_id_false in Hf. contradiction.
Qed.


(** C9 at the failing input: in the worked database employee 10 is the
    supervisor of employee 11; DELETE FROM employees WHERE id = 10 is
    rejected, so the supervisor stays and the report keeps its reference. *)
Theorem delete_supervisor_rejected :
  run (ex_env 8) (execute (DELETE_FROM_employees 10)) ex_db
  = Err (foreign_key_violation "employees_supervisor_id_fkey") /\
  map (fun r => (e_id r, e_supervisor_id r)) (employees ex_db)
  = [(Some 10%N, None); (Some 11%N, Some 10%N)].
Proof. vm_compute. split; reflexivity. Qed.

(** ** The seed row *)

(** C10, the row itself: after the script the only users row is the admin
    account, with the script's literals and the defaults of lines 22 and
    28-30, and the other tables are empty. *)
Theorem schema_init_admin E :
  schema_init E
  = Ok (1%nat,
        {| users :=
             [ {| u_id := Some (uuid_generate_v4 E O);
                  u_username := Some "admin";
                  u_password_hash := Some default_admin_password_hash;
                  u_email := Some "admin@sakada.com";
                  u_role := Some "ADMIN";
                  u_access_level := Some 10;
                  u_created_at := Some (CURRENT_TIMESTAMP E);
                  u_last_login := None;
                  u_is_active := Some true |} ];
           employees := []; cash_advances := []; payments := [];
           audit_logs := [] |}).
Proof. reflexivity. Qed.

(** ** The summary view *)

Lemma from_clause_eq db :
  from_clause db = flat_map (rows_of_advance db) (cash_advances db).
Proof. reflexivity. Qed.

Lemma flat_map_single {A B} (c : A -> bool) (g : A -> list B)
  before x after :
  (forall y, In y (before ++ after) -> c y = false) -> c x = true ->
  flat_map (fun y => if c y then g y else []) (before ++ x :: after) = g x.
Proof.
  intros Hn Hx. rewrite flat_map_app. simpl. rewrite Hx.
  assert (Hz : forall l, (forall y, In y l -> c y = false) ->
                         flat_map (fun y => if c y then g y else []) l = []).
  { induction l as [|y l IH]; simpl; intros Hl; auto.
    rewrite (Hl y) by auto. simpl. apply IH. auto. }
  rewrite !Hz.
  - simpl. apply app_nil_r.
  - intros y Hy. apply Hn, in_or_app. auto.
  - intros y Hy. apply Hn, in_or_app. auto.
Qed.

Lemma NoDup_map_others {A B} (f : A -> B) before x after :
  NoDup (map f (before ++ x :: after)) ->
  forall y, In y (before ++ after) -> f y <> f x.
Proof.
  intros H y Hy Heq. apply NoDup_map_remove in H as [_ H].
  apply H. rewrite <- Heq. apply in_map. exact Hy.
Qed.

Lemma NoDup_map_inj {A B} (f : A -> B) l x y :
  NoDup (map f l) -> In x l -> In y l -> f x = f y -> x = y.
Proof.
  intros H Hx Hy Heq.
  apply in_split in Hx as (before & after & ->).
  assert (Hcases : y = x \/ In y (before ++ after)).
  { apply in_app_or in Hy as [Hy|[Hy|Hy]]; auto;
      right; apply in_or_app; auto. }
  destruct Hcases as [->|Hin]; auto.
  exfalso. apply (NoDup_map_others _ _ _ _ H y Hin). auto.
Qed.

Lemma flat_map_nil {A B} (f : A -> list B) l :
  (forall x, In x l -> f x = []) -> flat_map f l = [].
Proof.
  induction l as [|x l IH]; simpl; intros H; auto.
  rewrite (H x) by auto. simpl. apply IH. auto.
Qed.

Lemma cash_advances_not_null r :
  cash_advances_columns r = Ok tt ->
  (exists k, ca_id r = Some k) /\ (exists e, ca_employee_id r = Some e) /\
  (exists a, ca_amount r = Some a).
Proof.
  unfold cash_advances_columns. intros H. split_checks.
  repeat split; eapply NOT_NULL_ok; eauto.
Qed.

(** In a consistent database an advance joins exactly one employee. *)
Lemma rows_of_advance_eq db ca :
  consistent db -> In ca (cash_advances db) ->
  exists e, In e (employees db) /\ joins ca e = true /\
            rows_of_advance db ca = rows_for db ca e.
Proof.
  intros Hc Hin.
  pose proof (c_cash_advances Hc) as Hcol. pose proof (fk_ca_employee Hc) as F.
  rewrite Forall_forall in Hcol, F.
  specialize (Hcol _ Hin). specialize (F _ Hin).
  apply cash_advances_not_null in Hcol as (_ & (eid & He) & _).
  destruct F as [F|F]; [congruence|].
  apply in_map_iff in F as (e & Heid & Hein).
  exists e. split; auto.
  assert (Hj : joins ca e = true)
    by (apply sql_eq_N_true; exists eid; split; congruence).
  split; auto.
  pose proof (pk_employees Hc) as Hpk.
  apply in_split in Hein as (before & after & Hl).
  unfold rows_of_advance. rewrite Hl in *.
  apply flat_map_single; auto.
  intros y Hy.
  pose proof (NoDup_map_others _ _ _ _ Hpk y Hy) as Hne.
  destruct (joins ca y) eqn:Hjy; auto.
  apply sql_eq_N_true in Hjy as (k' & Hk1 & Hk2). congruence.
Qed.

Lemma rows_for_inhabited db ca e : exists j, In j (rows_for db ca e).
Proof.
  unfold rows_for. destruct (filter _ _); simpl; eauto.
Qed.

Lemma rows_for_key db ca e j :
  In j (rows_for db ca e) -> fst j = (ca, e).
Proof.
  unfold rows_for. destruct (filter _ _) as [|p ps]; simpl.
  - intros [<-|[]]. reflexivity.
  - intros [<-|H]; [reflexivity|].
    apply in_map_iff in H as (q & <- & _). reflexivity.
Qed.

Lemma rows_of_advance_fst db ca j :
  In j (rows_of_advance db ca) -> fst (fst j) = ca.
Proof.
  unfold rows_of_advance. intros H.
  apply in_flat_map in H as (e & _ & H).
  destruct (joins ca e); [|destruct H].
  apply rows_for_key in H. rewrite H. reflexivity.
Qed.

Lemma key_of_fst (j : joined_row) :
  key_of j = (ca_id (fst (fst j)), e_first_name (snd (fst j)),
              e_last_name (snd (fst j))).
Proof. destruct j as [[ca e] p]. reflexivity. Qed.

Lemma filter_flat_map {A B} (p : B -> bool) (f : A -> list B) l :
  filter p (flat_map f l) = flat_map (fun x => filter p (f x)) l.
Proof.
  induction l as [|x l IH]; simpl; auto.
  rewrite filter_app, IH. reflexivity.
Qed.

Lemma filter_all {A} (p : A -> bool) l :
  (forall x, In x l -> p x = true) -> filter p l = l.
Proof.
  induction l as [|x l IH]; simpl; intros H; auto.
  rewrite (H x) by auto. f_equal. apply IH. auto.
Qed.

Lemma filter_none {A} (p : A -> bool) l :
  (forall x, In x l -> p x = false) -> filter p l = [].
Proof.
  induction l as [|x l IH]; simpl; intros H; auto.
  rewrite (H x) by auto. apply IH. auto.
Qed.

Lemma in_group_true k j : in_group k j = true <-> key_of j = k.
Proof.
  unfold in_group. destruct (group_key_dec (key_of j) k); split;
    congruence.
Qed.

(** The group of an advance is the rows of that advance. *)
Lemma group_of_advance db ca e :
  consistent db -> In ca (cash_advances db) ->
  rows_of_advance db ca = rows_for db ca e ->
  filter (in_group (ca_id ca, e_first_name e, e_last_name e))
         (from_clause db)
  = rows_for db ca e.
Proof.
  intros Hc Hin Hrows.
  pose proof (pk_cash_advances Hc) as Hpk.
  rewrite from_clause_eq, filter_flat_map.
  apply in_split in Hin as (before & after & Hl). rewrite Hl in *.
  assert (Hother : forall ca', In ca' (before ++ after) ->
            filter (in_group (ca_id ca, e_first_name e, e_last_name e))
                   (rows_of_advance db ca') = []).
  { intros ca' Hin'. apply filter_none. intros j Hj.
    destruct (in_group _ j) eqn:Hg; auto.
    apply in_group_true in Hg. rewrite key_of_fst in Hg.
    apply rows_of_advance_fst in Hj. rewrite Hj in Hg.
    exfalso. apply (NoDup_map_others _ _ _ _ Hpk ca' Hin'). congruence. }
  rewrite flat_map_app. simpl.
  rewrite !flat_map_nil.
  - simpl. rewrite app_nil_r, Hrows. apply filter_all.
    intros j Hj. apply in_group_true. rewrite key_of_fst.
    apply rows_for_key in Hj. rewrite Hj. reflexivity.
  - intros x Hx. apply Hother, in_or_app. auto.
  - intros x Hx. apply Hother, in_or_app. auto.
Qed.

Lemma SUM_amounts l :
  COALESCE (SUM l) (Some 0)
  = Some (fold_right Z.add 0 (map amount_or_zero l)).
Proof.
  induction l as [|v l IH]; simpl; auto.
  destruct v as [x|], (SUM l) as [s|]; simpl in *;
    inversion IH as [Hs]; try rewrite <- Hs; f_equal; lia.
Qed.

Lemma paid_on_advance db ca k :
  ca_id ca = Some k ->
  filter (paid_on ca) (payments db) = payments_of_advance db k.
Proof.
  intros Hk. unfold paid_on, payments_of_advance. rewrite Hk. reflexivity.
Qed.

Lemma select_group_rows_for db ca e k :
  ca_id ca = Some k ->
  select_group (rows_for db ca e) = [summary_row db ca e k].
Proof.
  intros Hk. unfold summary_row, rows_for, sum_payments.
  rewrite (paid_on_advance db _ Hk).
  destruct (payments_of_advance db k) as [|p ps]; [reflexivity|].
  cbn [map select_group].
  change (p_amount_of (ca, e, Some p)
          :: map p_amount_of (map (fun q => (ca, e, Some q)) ps))
    with (map p_amount_of (map (fun q => (ca, e, Some q)) (p :: ps))).
  change (amount_or_zero (p_amount p)
          :: map (fun q => amount_or_zero (p_amount q)) ps)
    with (map (fun q => amount_or_zero (p_amount q)) (p :: ps)).
  rewrite map_map.
  change (fun x : payments_row => p_amount_of (ca, e, Some x))
    with (@p_amount option).
  rewrite SUM_amounts, map_map. reflexivity.
Qed.

Lemma filter_flat_map_one {A B} (p : B -> bool) (h : A -> list B) keys K :
  NoDup keys -> In K keys ->
  (forall K', In K' keys -> K' <> K -> filter p (h K') = []) ->
  filter p (flat_map h keys) = filter p (h K).
Proof.
  intros Hnd Hin Hother. rewrite filter_flat_map.
  apply in_split in Hin as (before & after & ->).
  assert (Hne : forall K', In K' (before ++ after) -> K' <> K).
  { intros K' HK' ->. apply NoDup_remove_2 in Hnd. contradiction. }
  rewrite flat_map_app. simpl. rewrite !flat_map_nil.
  - simpl. apply app_nil_r.
  - intros x Hx. apply Hother; [|apply Hne]; apply in_or_app; simpl; auto.
  - intros x Hx. apply Hother; [|apply Hne]; apply in_or_app; simpl; auto.
Qed.

Lemma from_clause_advance db j :
  In j (from_clause db) ->
  In (fst (fst j)) (cash_advances db) /\
  In j (rows_of_advance db (fst (fst j))).
Proof.
  rewrite from_clause_eq. intros H.
  apply in_flat_map in H as (ca & Hca & Hj).
  rewrite (rows_of_advance_fst _ _ _ Hj). auto.
Qed.

Lemma select_group_id g s :
  In s (select_group g) ->
  exists j, In j g /\ hd_error g = Some j /\
            summary_id s = ca_id (fst (fst j)).
Proof.
  destruct g as [|[[ca e] p] rest]; simpl; [intros []|].
  intros [<-|[]]. eexists. split; [left; reflexivity|]. auto.
Qed.

(** The view has one row for the advance, with the sums of its payments. *)
Lemma summary_row_of_advance db ca k :
  consistent db -> In ca (cash_advances db) -> ca_id ca = Some k ->
  exists s,
    filter (has_id summary_id k) (cash_advance_summary db) = [s] /\
    summary_amount s = ca_amount ca /\
    total_paid s = Some (sum_payments db k) /\
    remaining_balance s
    = sql_minus (ca_amount ca) (Some (sum_payments db k)).
Proof.
  intros Hc Hin Hk.
  destruct (@rows_of_advance_eq db ca Hc Hin) as (e & He & Hj & Hrows).
  set (K := (ca_id ca, e_first_name e, e_last_name e)).
  pose proof (@group_of_advance db ca e Hc Hin Hrows) as Hgroup.
  fold K in Hgroup.
  exists (summary_row db ca e k). split; [|repeat split; reflexivity].
  unfold cash_advance_summary.
  rewrite (@filter_flat_map_one _ _ _ _ _ K).
  - rewrite Hgroup, (@select_group_rows_for db ca e k Hk). simpl.
    assert (Hh : has_id summary_id k (summary_row db ca e k) = true)
      by (apply has_id_Some; exact Hk).
    rewrite Hh. reflexivity.
  - apply NoDup_nodup.
  - apply nodup_In.
    destruct (rows_for_inhabited db ca e) as [j Hjin].
    apply in_map_iff. exists j. split.
    + rewrite key_of_fst, (@rows_for_key db ca e j Hjin). reflexivity.
    + rewrite from_clause_eq. apply in_flat_map. exists ca.
      split; auto. rewrite Hrows. exact Hjin.
  - intros K' _ HK'. apply filter_none. intros s Hs.
    apply has_id_false. intros Hid.
    apply select_group_id in Hs as (j & Hjg & _ & Hsid).
    apply filter_In in Hjg as [HjJ Hg]. apply in_group_true in Hg.
    apply from_clause_advance in HjJ as [Hca' Hjrows].
    assert (Heq : fst (fst j) = ca).
    { eapply NoDup_map_inj; [apply (pk_cash_advances Hc)| | |]; eauto.
      congruence. }
    rewrite Heq, Hrows in Hjrows. apply rows_for_key in Hjrows.
    apply HK'. rewrite <- Hg, key_of_fst, Hjrows. reflexivity.
Qed.

(** C5: for every cash advance of a database the schema can hold, the view
    has exactly one row; its total_paid is the sum of the amounts of the
    advance's payments, zero when there is none, and its remaining_balance
    is the advance's amount minus that sum. *)
Theorem summary_balance db ca :
  reachable db -> In ca (cash_advances db) ->
  exists k a s,
    ca_id ca = Some k /\ ca_amount ca = Some a /\
    filter (has_id summary_id k) (cash_advance_summary db) = [s] /\
    summary_amount s = Some a /\
    total_paid s = Some (sum_payments db k) /\
    remaining_balance s = Some (a - sum_payments db k) /\
    (payments_of_advance db k = [] ->
     total_paid s = Some 0 /\ remaining_balance s = Some a).
Proof.
  intros Hr Hin. apply reachable_consistent in Hr.
  pose proof (c_cash_advances Hr) as Hcol. rewrite Forall_forall in Hcol.
  destruct (cash_advances_not_null _ (Hcol _ Hin))
    as ((k & Hk) & _ & (a & Ha)).
  destruct (@summary_row_of_advance db ca k Hr Hin Hk)
    as (s & Hs & Hamount & Hpaid & Hrem).
  exists k, a, s. rewrite Ha in *. simpl in Hrem.
  repeat split; auto.
  - rewrite Hpaid. unfold sum_payments. rewrite H. reflexivity.
  - rewrite Hrem. unfold sum_payments. rewrite H. simpl.
    f_equal. lia.
Qed.

Lemma summary_balance_witness :
  exists k a s,
    ca_id ex_first_advance = Some k /\ ca_amount ex_first_advance = Some a /\
    filter (has_id summary_id k) (cash_advance_summary ex_db) = [s] /\
    summary_amount s = Some a /\
    total_paid s = Some (sum_payments ex_db k) /\
    remaining_balance s = Some (a - sum_payments ex_db k) /\
    (payments_of_advance ex_db k = [] ->
     total_paid s = Some 0 /\ remaining_balance s = Some a).
Proof.
  exact (@summary_balance ex_db ex_first_advance ex_db_reachable
           (or_introl eq_refl)).
Defined.

(** The view on the worked database: 200.00 of 1000.00 paid on advance 20,
    nothing of 500.00 on advance 21. *)
Example ex_summary :
  map (fun s => (summary_id s, employee_name s, total_paid s,
                 remaining_balance s))
      (cash_advance_summary ex_db)
  = [ (Some 20%N, Some "Ben Cruz", Some 20000, Some 80000);
      (Some 21%N, Some "Ben Cruz", Some 0, Some 50000) ].
Proof. vm_compute. reflexivity. Qed.

(** ** The service operations *)

Lemma write_Done E s db db' :
  Service.write E s db = Service.Done db' ->
  exists n, run E (execute s) db = Ok (n, db').
Proof.
  unfold Service.write.
  destruct (run E (execute s) db) as [[n d]|]; [|discriminate].
  intros H; inversion H; subst. eauto.
Qed.

Lemma perform_statement E db o db' :
  Service.perform E db o = Service.Done db' ->
  exists s n, run E (execute s) db = Ok (n, db').
Proof.
  destruct o; simpl;
    unfold Service.submit, Service.approve, Service.reject,
      Service.markPaid, Service.recordPayment;
    repeat match goal with
      | |- context [match ?x with _ => _ end] => destruct x
      end;
    try discriminate; intros H; apply write_Done in H as [n H]; eauto.
Qed.

(** What the service reaches, the schema can hold. *)
Lemma service_reachable db : Service.reachable db -> reachable db.
Proof.
  induction 1 as [E n db H|E o db db' _ IH H].
  - eapply reachable_init; eauto.
  - apply perform_statement in H as (s & n & H).
    eapply reachable_step; eauto.
Qed.

Lemma find_advance_extract db k ca :
  Service.find_advance db k = Some ca ->
  exists before after,
    extract (has_id (@ca_id _) k) (cash_advances db)
    = Some (before, ca, after).
Proof.
  unfold Service.find_advance. rewrite extract_find.
  destruct (extract _ _) as [[[before x] after]|]; [|discriminate].
  intros H; inversion H; subst. eauto.
Qed.

Lemma find_advance_In db k ca :
  Service.find_advance db k = Some ca ->
  In ca (cash_advances db) /\ ca_id ca = Some k.
Proof.
  intros H. apply find_advance_extract in H as (before & after & H).
  apply extract_Some in H as (-> & Hk & _).
  split; [apply in_or_app; simpl; auto|apply has_id_Some; auto].
Qed.

Lemma has_status_true ca s :
  Service.has_status ca s = true <-> ca_status ca = Some (status_text s).
Proof.
  unfold Service.has_status. rewrite sql_eq_string_true. split.
  - intros (k & -> & Hk). congruence.
  - intros ->. eauto.
Qed.

(** A transition: the advance is replaced in place and the write is
    logged. *)
Lemma transition_Done E db k SET ca db' :
  Service.find_advance db k = Some ca ->
  Service.write E (UPDATE_cash_advances k SET) db = Service.Done db' ->
  exists before after entry,
    cash_advances db = (before ++ ca :: after)%list /\
    cash_advances db' = (before ++ keep_ca_id ca (SET ca) :: after)%list /\
    (forall y, In y before -> ca_id y <> Some k) /\
    payments db' = payments db /\
    employees db' = employees db /\ users db' = users db /\
    audit_logs db' = (audit_logs db ++ [entry])%list.
Proof.
  intros Hf H. apply write_Done in H as [n H].
  apply find_advance_extract in Hf as (before & after & Hex).
  simpl in H. apply update_cash_advances_inv in H. rewrite Hex in H.
  destruct H as (_ & _ & _ & _ & _ & ->).
  apply extract_Some in Hex as (Hl & _ & Hb).
  exists before, after. eexists. repeat split; eauto.
  intros y Hy. apply has_id_false. auto.
Qed.

(** The amounts recorded against an advance depend on the payments only. *)
Lemma sum_payments_ext db db' k :
  payments db' = payments db -> sum_payments db' k = sum_payments db k.
Proof.
  intros H. unfold sum_payments, payments_of_advance. rewrite H.
  reflexivity.
Qed.

Lemma fold_right_add_from (l : list Z) c :
  fold_right Z.add c l = fold_right Z.add 0 l + c.
Proof. induction l as [|x l IH]; simpl; lia. Qed.

Lemma sum_payments_snoc db db' p k :
  payments db' = (payments db ++ [p])%list ->
  sum_payments db' k
  = sum_payments db k
    + (if is_true (sql_eq N.eqb (Some k) (p_cash_advance_id p))
       then amount_or_zero (p_amount p) else 0).
Proof.
  intros H. unfold sum_payments, payments_of_advance. rewrite H.
  rewrite filter_app, map_app, fold_right_app, fold_right_add_from.
  f_equal. cbn [filter].
  destruct (is_true (sql_eq N.eqb (Some k) (p_cash_advance_id p)));
    simpl; lia.
Qed.

(** No payment is recorded against a key no advance has. *)
Lemma sum_payments_fresh db k :
  consistent db -> ~ In (Some k) (map (@ca_id _) (cash_advances db)) ->
  sum_payments db k = 0.
Proof.
  intros Hc Hk. unfold sum_payments, payments_of_advance.
  rewrite filter_none; [reflexivity|].
  intros p Hp. pose proof (fk_p_cash_advance Hc) as F.
  rewrite Forall_forall in F. specialize (F p Hp).
  destruct (is_true _) eqn:Heq; auto.
  apply sql_eq_N_true in Heq as (k' & Hk1 & Hk2).
  inversion Hk1; subst k'. destruct F as [F|F]; congruence.
Qed.

Lemma submit_Done E db e a r db' :
  Service.submit E db e a r = Service.Done db' ->
  0 < a /\
  exists NEW entry,
    NEW = cash_advances_defaults E (Some (uuid_generate_v4 E O))
            (Service.submitted E e a r) /\
    ~ In (ca_id NEW) (map (@ca_id _) (cash_advances db)) /\
    cash_advances db' = (cash_advances db ++ [NEW])%list /\
    payments db' = payments db /\
    audit_logs db' = (audit_logs db ++ [entry])%list.
Proof.
  unfold Service.submit.
  destruct (Service.find_employee db e); [|discriminate].
  destruct (Z.leb_spec a 0) as [|Hpos]; [discriminate|]. intros H.
  apply write_Done in H as [n H]. simpl in H.
  apply insert_cash_advances_inv in H
    as (k0 & NEW & HNEW & _ & _ & Hkey & _ & _ & ->).
  split; auto. exists NEW. eexists. simpl in HNEW.
  repeat split; eauto.
  unfold cash_advances_keys in Hkey. rewrite HNEW in *. simpl in *.
  eapply UNIQUE_N_ok; eauto.
Qed.

Lemma recordPayment_Done E db k amt type ref by_ db' :
  Service.recordPayment E db k amt type ref by_ = Service.Done db' ->
  exists ca NEW,
    Service.find_advance db k = Some ca /\
    (Service.has_status ca APPROVED || Service.has_status ca PAID = true) /\
    0 < amt /\
    sum_payments db k + amt <= amount_or_zero (ca_amount ca) /\
    p_cash_advance_id NEW = Some k /\ p_amount NEW = Some amt /\
    payments db' = (payments db ++ [NEW])%list /\
    cash_advances db' = cash_advances db.
Proof.
  unfold Service.recordPayment.
  destruct (Service.find_advance db k) as [ca|]; [|discriminate].
  destruct (_ || _) eqn:Hs; [|discriminate].
  destruct (Z.leb_spec amt 0) as [|Hpos]; [discriminate|].
  destruct (Z.ltb_spec (amount_or_zero (ca_amount ca))
              (sum_payments db k + amt)) as [|Hle]; [discriminate|].
  intros H. apply write_Done in H as [n H]. simpl in H.
  apply insert_payments_inv in H as (NEW & HNEW & _ & _ & _ & _ & ->).
  exists ca, NEW. rewrite HNEW. simpl. repeat split; auto.
Qed.

Lemma administrative_frame E s db n db' :
  administrative s = true ->
  run E (execute s) db = Ok (n, db') ->
  cash_advances db' = cash_advances db /\ payments db' = payments db.
Proof.
  destruct s; simpl; try discriminate; intros _ H.
  - apply insert_users_inv in H as (NEW & _ & _ & _ & _ & ->). auto.
  - apply update_users_inv in H.
    destruct (extract _ _) as [[[before OLD] after]|].
    + destruct H as (_ & _ & _ & ->). auto.
    + destruct H as (_ & ->). auto.
  - apply delete_users_inv in H.
    destruct (extract _ _) as [[[before OLD] after]|].
    + destruct H as (_ & _ & _ & _ & _ & ->). auto.
    + destruct H as (_ & ->). auto.
  - apply insert_employees_inv in H
      as (k0 & NEW & _ & _ & _ & _ & _ & _ & ->). auto.
  - apply update_employees_inv in H.
    destruct (extract _ _) as [[[before OLD] after]|].
    + destruct H as (_ & _ & _ & _ & _ & ->). auto.
    + destruct H as (_ & ->). auto.
  - apply delete_employees_inv in H.
    destruct (extract _ _) as [[[before OLD] after]|].
    + destruct H as (_ & _ & _ & _ & ->). auto.
    + destruct H as (_ & ->). auto.
Qed.

Lemma service_invariant_frame db db' :
  cash_advances db' = cash_advances db -> payments db' = payments db ->
  service_invariant db -> service_invariant db'.
Proof.
  intros Hca Hp [Ha Hs]. constructor; rewrite Hca.
  - exact Ha.
  - intros ca k Hin Hk. rewrite (sum_payments_ext _ _ k Hp). auto.
Qed.

(** A transition that keeps the key and the amount and leaves the row in
    order keeps the invariant. *)
Lemma transition_invariant E db k SET ca db' :
  service_invariant db ->
  Service.find_advance db k = Some ca ->
  Service.write E (UPDATE_cash_advances k SET) db = Service.Done db' ->
  ca_amount (SET ca) = ca_amount ca ->
  advance_ok (keep_ca_id ca (SET ca)) ->
  service_invariant db'.
Proof.
  intros [Ha Hs] Hf H Hamount Hok.
  destruct (find_advance_In _ _ Hf) as [Hin Hk].
  destruct (@transition_Done E db k SET ca db' Hf H)
    as (before & after & entry & Hl & Hl' & _ & Hp & _).
  constructor; rewrite Hl'.
  - intros x Hx. apply in_app_or in Hx as [Hx|[<-|Hx]]; auto;
      apply Ha; rewrite Hl; apply in_or_app; simpl; auto.
  - intros x kx Hx Hkx. rewrite (sum_payments_ext _ _ kx Hp).
    apply in_app_or in Hx as [Hx|[<-|Hx]].
    + apply Hs; auto. rewrite Hl. apply in_or_app; auto.
    + simpl in *. rewrite Hamount. apply Hs; auto.
    + apply Hs; auto. rewrite Hl. apply in_or_app; simpl; auto.
Qed.

Lemma advance_ok_amount ca ca' :
  ca_amount ca' = ca_amount ca -> advance_ok ca ->
  exists a, ca_amount ca' = Some a /\ 0 < a.
Proof. intros -> [H _]. exact H. Qed.

Lemma perform_invariant E db o db' :
  consistent db -> service_invariant db ->
  Service.perform E db o = Service.Done db' ->
  service_invariant db'.
Proof.
  intros Hc Hi H. destruct o; simpl in H;
    try (apply write_Done in H as [n H];
         apply administrative_frame in H as [Hca Hp]; [|reflexivity];
         eapply service_invariant_frame; eauto; fail).
  - (* submit *)
    apply submit_Done in H
      as (Hpos & NEW & entry & HNEW & Hfresh & Hl & Hp & _).
    destruct Hi as [Ha Hs]. constructor; rewrite Hl.
    + intros x Hx. apply in_app_or in Hx as [Hx|[<-|[]]]; auto.
      rewrite HNEW. split; simpl; eauto.
    + intros x kx Hx Hkx. rewrite (sum_payments_ext _ _ kx Hp).
      apply in_app_or in Hx as [Hx|[<-|[]]]; auto.
      rewrite Hkx in Hfresh.
      rewrite (sum_payments_fresh _ Hc Hfresh), HNEW. simpl. lia.
  - (* approve *)
    unfold Service.approve in H.
    destruct (Service.find_advance db advanceId) as [ca|] eqn:Hf;
      [|discriminate].
    destruct (Service.has_status ca PENDING); [|discriminate].
    destruct (find_advance_In _ _ Hf) as [Hin _].
    eapply transition_invariant; eauto.
    split; [eapply advance_ok_amount; [|apply Hi; eauto]; reflexivity|].
    right. simpl. repeat split; eauto.
  - (* reject *)
    unfold Service.reject in H.
    destruct (Service.find_advance db advanceId) as [ca|] eqn:Hf;
      [|discriminate].
    destruct (Service.has_status ca PENDING); [|discriminate].
    destruct (find_advance_In _ _ Hf) as [Hin _].
    eapply transition_invariant; eauto.
    split; [eapply advance_ok_amount; [|apply Hi; eauto]; reflexivity|].
    right. simpl. repeat split; eauto.
  - (* markPaid *)
    unfold Service.markPaid in H.
    destruct (Service.find_advance db advanceId) as [ca|] eqn:Hf;
      [|discriminate].
    destruct (Service.has_status ca APPROVED) eqn:Hst; [|discriminate].
    destruct (0 <? _); [discriminate|].
    destruct (find_advance_In _ _ Hf) as [Hin _].
    apply has_status_true in Hst.
    pose proof (si_advances Hi _ Hin) as Hok.
    eapply transition_invariant; eauto.
    split; [eapply advance_ok_amount; [|exact Hok]; reflexivity|].
    right. destruct Hok as [_ [(Hp & _)|(_ & Hu & Ht)]];
      [simpl in Hst; congruence|].
    simpl. repeat split; eauto.
  - (* recordPayment *)
    apply recordPayment_Done in H
      as (ca & NEW & Hf & _ & Hpos & Hle & Hk & Hamt & Hp & Hl).
    destruct (find_advance_In _ _ Hf) as [Hin Hid].
    destruct Hi as [Ha Hs]. constructor; rewrite Hl; auto.
    intros x kx Hx Hkx.
    rewrite (@sum_payments_snoc db db' NEW kx Hp), Hk, Hamt. simpl.
    destruct (N.eqb_spec kx advanceId) as [->|Hne]; simpl.
    + assert (x = ca) as ->; [|lia].
      eapply NoDup_map_inj; [apply (pk_cash_advances Hc)| | |]; eauto.
      congruence.
    + specialize (Hs x kx Hx Hkx). lia.
Qed.

(** What the service reaches is in order. *)
Lemma service_reachable_invariant db :
  Service.reachable db -> service_invariant db.
Proof.
  induction 1 as [E n db H|E o db db' Hr IH H].
  - unfold schema_init in H.
    apply insert_users_inv in H as (NEW & _ & _ & _ & _ & ->).
    constructor; simpl; intros; contradiction.
  - eapply perform_invariant; eauto.
    apply reachable_consistent, service_reachable, Hr.
Qed.

Lemma transition_found E db k SET ca db' :
  Service.find_advance db k = Some ca ->
  Service.write E (UPDATE_cash_advances k SET) db = Service.Done db' ->
  Service.find_advance db' k = Some (keep_ca_id ca (SET ca)).
Proof.
  intros Hf H.
  destruct (find_advance_In _ _ Hf) as [_ Hk].
  destruct (@transition_Done E db k SET ca db' Hf H)
    as (before & after & entry & _ & Hl' & Hb & _).
  unfold Service.find_advance. rewrite Hl'.
  apply find_middle.
  - intros y Hy. apply has_id_false. auto.
  - apply has_id_Some. exact Hk.
Qed.

Lemma approve_Done E db k u ip md db' :
  Service.approve E db k u ip md = Service.Done db' ->
  exists OLD,
    Service.find_advance db k = Some OLD /\
    ca_status OLD = Some "PENDING" /\
    Service.find_advance db' k
    = Some (keep_ca_id OLD (Service.approved E u ip md OLD)).
Proof.
  unfold Service.approve.
  destruct (Service.find_advance db k) as [ca|] eqn:Hf; [|discriminate].
  destruct (Service.has_status ca PENDING) eqn:Hs; [|discriminate].
  intros H. exists ca. apply has_status_true in Hs.
  repeat split; auto. eapply transition_found; eauto.
Qed.

Lemma reject_Done E db k u reason db' :
  Service.reject E db k u reason = Service.Done db' ->
  exists OLD,
    Service.find_advance db k = Some OLD /\
    ca_status OLD = Some "PENDING" /\
    Service.find_advance db' k
    = Some (keep_ca_id OLD (Service.rejected E u reason OLD)).
Proof.
  unfold Service.reject.
  destruct (Service.find_advance db k) as [ca|] eqn:Hf; [|discriminate].
  destruct (Service.has_status ca PENDING) eqn:Hs; [|discriminate].
  intros H. exists ca. apply has_status_true in Hs.
  repeat split; auto. eapply transition_found; eauto.
Qed.

Lemma decided_not_pending ca :
  In (ca_status ca) [Some "APPROVED"; Some "REJECTED"; Some "PAID"] ->
  Service.has_status ca PENDING = false.
Proof.
  intros H. destruct (Service.has_status ca PENDING) eqn:Hs; auto.
  apply has_status_true in Hs. rewrite Hs in H. simpl in H.
  destruct H as [H|[H|[H|[]]]]; discriminate.
Qed.

Lemma ex_service_db_computed :
  perform_all 2 ex_operations ex_seed = Service.Done ex_service_db.
Proof. vm_compute. reflexivity. Qed.

Lemma perform_all_reachable ops :
  forall i db db',
    Service.reachable db ->
    perform_all i ops db = Service.Done db' -> Service.reachable db'.
Proof.
  induction ops as [|o rest IH]; simpl; intros i db db' Hr H.
  - inversion H; subst; auto.
  - destruct (Service.perform (ex_env i) db o) as [db1|] eqn:Ho;
      [|discriminate].
    eapply IH; [|exact H]. eapply Service.reachable_step; eauto.
Qed.

Lemma ex_service_db_reachable : Service.reachable ex_service_db.
Proof.
  eapply perform_all_reachable; [|exact ex_service_db_computed].
  eapply Service.reachable_init. exact ex_seed_computed.
Qed.

Example ex_service_advances :
  map (fun ca => (ca_id ca, ca_amount ca, ca_status ca, ca_approved_by ca))
      (cash_advances ex_service_db)
  = [ (Some 4000%N, Some 100000, Some "APPROVED", Some 1000%N);
      (Some 7000%N, Some 50000, Some "REJECTED", Some 1000%N) ] /\
  map (fun p => (p_cash_advance_id p, p_amount p)) (payments ex_service_db)
  = [ (Some 4000%N, Some 20000) ].
Proof. vm_compute. split; reflexivity. Qed.

(** C1: on an advance whose status is APPROVED, REJECTED or PAID, [approve]
    and [reject] fail with InvalidStateError and leave the database, hence
    the advance, as it was; and whenever one of them succeeds, the advance
    existed and its status was PENDING. *)
Theorem approve_reject_only_from_pending E db k u ip md reason :
  (forall ca,
     Service.find_advance db k = Some ca ->
     In (ca_status ca) [Some "APPROVED"; Some "REJECTED"; Some "PAID"] ->
     Service.approve E db k u ip md
     = Service.Failed Service.InvalidStateError /\
     Service.reject E db k u reason
     = Service.Failed Service.InvalidStateError /\
     Service.after db (Service.approve E db k u ip md) = db /\
     Service.after db (Service.reject E db k u reason) = db) /\
  (forall db',
     Service.approve E db k u ip md = Service.Done db' ->
     exists ca, Service.find_advance db k = Some ca /\
                ca_status ca = Some "PENDING") /\
  (forall db',
     Service.reject E db k u reason = Service.Done db' ->
     exists ca, Service.find_advance db k = Some ca /\
                ca_status ca = Some "PENDING").
Proof.
  repeat split.
  - unfold Service.approve. rewrite H, (decided_not_pending _ H0).
    reflexivity.
  - unfold Service.reject. rewrite H, (decided_not_pending _ H0).
    reflexivity.
  - unfold Service.approve. rewrite H, (decided_not_pending _ H0).
    reflexivity.
  - unfold Service.reject. rewrite H, (decided_not_pending _ H0).
    reflexivity.
  - intros db' H. apply approve_Done in H as (ca & ? & ? & _). eauto.
  - intros db' H. apply reject_Done in H as (ca & ? & ? & _). eauto.
Qed.

Lemma approve_reject_only_from_pending_witness :
  Service.approve (ex_env 9) ex_service_db 4000 1000 None None
  = Service.Failed Service.InvalidStateError /\
  Service.reject (ex_env 9) ex_service_db 4000 1000 "late"
  = Service.Failed Service.InvalidStateError /\
  Service.after ex_service_db
    (Service.approve (ex_env 9) ex_service_db 4000 1000 None None)
  = ex_service_db /\
  Service.after ex_service_db
    (Service.reject (ex_env 9) ex_service_db 4000 1000 "late")
  = ex_service_db.
Proof.
  exact (proj1 (approve_reject_only_from_pending (ex_env 9) ex_service_db
                  4000 1000 None None "late")
           ex_approved_advance eq_refl (or_introl eq_refl)).
Defined.

(** C6: [submit] with an amount that is zero or negative fails with
    ValidationError and writes nothing; hence every advance stored under
    the service has a strictly positive amount. *)
Theorem submit_positive_amount :
  (forall E db e a reason,
     a <= 0 ->
     Service.submit E db e a reason
     = Service.Failed Service.ValidationError /\
     Service.after db (Service.submit E db e a reason) = db) /\
  (forall db,
     Service.reachable db ->
     forall ca, In ca (cash_advances db) ->
                exists a, ca_amount ca = Some a /\ 0 < a).
Proof.
  split.
  - intros E db e a reason Ha.
    assert (H : Service.submit E db e a reason
                = Service.Failed Service.ValidationError).
    { unfold Service.submit. destruct (Service.find_employee db e); auto.
      destruct (Z.leb_spec a 0); [reflexivity|lia]. }
    rewrite H. auto.
  - intros db Hr ca Hin.
    apply service_reachable_invariant in Hr.
    destruct (si_advances Hr _ Hin) as [H _]. exact H.
Qed.

Lemma submit_positive_amount_witness :
  (Service.submit (ex_env 9) ex_service_db 11 0 "nothing"
   = Service.Failed Service.ValidationError /\
   Service.after ex_service_db
     (Service.submit (ex_env 9) ex_service_db 11 0 "nothing")
   = ex_service_db) /\
  exists a, ca_amount ex_approved_advance = Some a /\ 0 < a.
Proof.
  split.
  - apply (proj1 submit_positive_amount (ex_env 9) ex_service_db 11%N 0
             "nothing"). lia.
  - apply (proj2 submit_positive_amount ex_service_db
             ex_service_db_reachable ex_approved_advance).
    left. reflexivity.
Defined.

(** C2: under the service the payments recorded against an advance never
    add up to more than its amount; [recordPayment] of an amount that
    would take the total over it is never committed, and on an advance that
    is APPROVED or PAID, with a positive amount to record, it fails with
    BalanceError and the payments stay as they were. *)
Theorem payments_within_principal :
  (forall db,
     Service.reachable db ->
     forall ca k a,
       In ca (cash_advances db) -> ca_id ca = Some k ->
       ca_amount ca = Some a -> sum_payments db k <= a) /\
  (forall E db k ca amt type ref recordedBy,
     Service.find_advance db k = Some ca ->
     amount_or_zero (ca_amount ca) < sum_payments db k + amt ->
     (forall db',
        Service.recordPayment E db k amt type ref recordedBy
        <> Service.Done db') /\
     payments
       (Service.after db
          (Service.recordPayment E db k amt type ref recordedBy))
     = payments db /\
     (Service.has_status ca APPROVED || Service.has_status ca PAID = true ->
      0 < amt ->
      Service.recordPayment E db k amt type ref recordedBy
      = Service.Failed Service.BalanceError)).
Proof.
  split.
  - intros db Hr ca k a Hin Hk Ha.
    apply service_reachable_invariant in Hr.
    pose proof (si_paid Hr _ Hin Hk) as H. rewrite Ha in H. exact H.
  - intros E db k ca amt type ref recordedBy Hf Hover.
    assert (Hnot : forall db',
              Service.recordPayment E db k amt type ref recordedBy
              <> Service.Done db').
    { intros db' H. apply recordPayment_Done in H
        as (ca' & NEW & Hf' & _ & _ & Hle & _).
      rewrite Hf in Hf'. inversion Hf'; subst. lia. }
    repeat split; auto.
    + destruct (Service.recordPayment E db k amt type ref recordedBy)
        as [db'|e] eqn:Hr; [|reflexivity].
      exfalso. eapply Hnot; eauto.
    + intros Hs Hpos. unfold Service.recordPayment. rewrite Hf, Hs.
      destruct (Z.leb_spec amt 0); [lia|].
      destruct (Z.ltb_spec (amount_or_zero (ca_amount ca))
                  (sum_payments db k + amt)); [reflexivity|lia].
Qed.

Lemma payments_within_principal_witness :
  sum_payments ex_service_db 4000 <= 100000 /\
  payments
    (Service.after ex_service_db
       (Service.recordPayment (ex_env 9) ex_service_db 4000 90000 "CASH"
          None 1000))
  = payments ex_service_db /\
  Service.recordPayment (ex_env 9) ex_service_db 4000 90000 "CASH" None 1000
  = Service.Failed Service.BalanceError.
Proof.
  split.
  - apply (proj1 payments_within_principal ex_service_db
             ex_service_db_reachable ex_approved_advance 4000%N 100000);
      [left|..]; reflexivity.
  - destruct (proj2 payments_within_principal (ex_env 9) ex_service_db
                4000%N ex_approved_advance 90000 "CASH" None 1000%N
                eq_refl eq_refl) as (_ & Hsame & Hfail).
    split; [exact Hsame|]. apply Hfail; reflexivity.
Defined.

(** C7: under the service, an advance that is APPROVED, REJECTED or PAID
    has both approved_by and approved_at, a PENDING one has neither, and so
    neither is ever present without the other; [approve] and [reject] set
    both in the one transition out of PENDING. *)
Theorem approval_fields_set_together :
  (forall db,
     Service.reachable db ->
     forall ca, In ca (cash_advances db) ->
       (In (ca_status ca) [Some "APPROVED"; Some "REJECTED"; Some "PAID"] ->
        (exists u, ca_approved_by ca = Some u) /\
        (exists t, ca_approved_at ca = Some t)) /\
       (ca_status ca = Some "PENDING" ->
        ca_approved_by ca = None /\ ca_approved_at ca = None) /\
       (ca_approved_by ca = None <-> ca_approved_at ca = None)) /\
  (forall E db k u ip md db',
     Service.approve E db k u ip md = Service.Done db' ->
     exists OLD NEW,
       Service.find_advance db k = Some OLD /\
       ca_status OLD = Some "PENDING" /\
       Service.find_advance db' k = Some NEW /\
       ca_status NEW = Some "APPROVED" /\
       ca_approved_by NEW = Some u /\
       ca_approved_at NEW = Some (CURRENT_TIMESTAMP E)) /\
  (forall E db k u reason db',
     Service.reject E db k u reason = Service.Done db' ->
     exists OLD NEW,
       Service.find_advance db k = Some OLD /\
       ca_status OLD = Some "PENDING" /\
       Service.find_advance db' k = Some NEW /\
       ca_status NEW = Some "REJECTED" /\
       ca_approved_by NEW = Some u /\
       ca_approved_at NEW = Some (CURRENT_TIMESTAMP E)).
Proof.
  repeat split.
  - apply service_reachable_invariant in H.
    destruct (si_advances H _ H0) as [_ [(Hp & _)|(_ & Hu & _)]]; auto.
    rewrite Hp in H1. simpl in H1.
    destruct H1 as [?|[?|[?|[]]]]; discriminate.
  - apply service_reachable_invariant in H.
    destruct (si_advances H _ H0) as [_ [(Hp & _)|(_ & _ & Ht)]]; auto.
    rewrite Hp in H1. simpl in H1.
    destruct H1 as [?|[?|[?|[]]]]; discriminate.
  - apply service_reachable_invariant in H.
    destruct (si_advances H _ H0) as [_ [(_ & Hu & _)|(Hs & _)]]; auto.
    rewrite H1 in Hs. simpl in Hs.
    destruct Hs as [?|[?|[?|[]]]]; discriminate.
  - apply service_reachable_invariant in H.
    destruct (si_advances H _ H0) as [_ [(_ & _ & Ht)|(Hs & _)]]; auto.
    rewrite H1 in Hs. simpl in Hs.
    destruct Hs as [?|[?|[?|[]]]]; discriminate.
  - apply service_reachable_invariant in H.
    destruct (si_advances H _ H0)
      as [_ [(_ & _ & Ht)|(_ & [u Hu] & _)]]; auto.
    intros Hn. congruence.
  - apply service_reachable_invariant in H.
    destruct (si_advances H _ H0)
      as [_ [(_ & Hu & _)|(_ & _ & [t Ht])]]; auto.
    intros Hn. congruence.
  - intros E db k u ip md db' H.
    apply approve_Done in H as (OLD & Hf & Hs & Hf').
    exists OLD. eexists. repeat split; eauto.
  - intros E db k u reason db' H.
    apply reject_Done in H as (OLD & Hf & Hs & Hf').
    exists OLD. eexists. repeat split; eauto.
Qed.

Lemma approval_fields_set_together_witness :
  (In (ca_status ex_approved_advance)
      [Some "APPROVED"; Some "REJECTED"; Some "PAID"] ->
   (exists u, ca_approved_by ex_approved_advance = Some u) /\
   (exists t, ca_approved_at ex_approved_advance = Some t)) /\
  (ca_status ex_approved_advance = Some "PENDING" ->
   ca_approved_by ex_approved_advance = None /\
   ca_approved_at ex_approved_advance = None) /\
  (ca_approved_by ex_approved_advance = None <->
   ca_approved_at ex_approved_advance = None).
Proof.
  exact (proj1 approval_fields_set_together ex_service_db
           ex_service_db_reachable ex_approved_advance
           (or_introl eq_refl)).
Defined.

(** ** The action of [fk_supervisor], taken alone *)




(** ** Further properties of the schema *)



Lemma delete_referenced_employee_rejected_witness :
  run (ex_env 8) (delete_employees 10) ex_db
  = Err (foreign_key_violation "employees_supervisor_id_fkey").
Proof.
  apply (@delete_referenced_employee_rejected (ex_env 8) ex_db 10%N
           (hd (employees_defaults (ex_env 0) None (ex_employee 0 None ""))
               (tl (employees ex_db)))).
  - right. left. reflexivity.
  - discriminate.
  - reflexivity.
  - eexists. split; [left; reflexivity|reflexivity].
Defined.





Example ex_stranger_rejected :
  run ex_env_stranger
      (execute (UPDATE_cash_advances 21 (ex_decide "APPROVED" 1000 9)))
      ex_db
  = Err (foreign_key_violation "audit_logs_user_id_fkey").
Proof. vm_compute. reflexivity. Qed.

(** Rules the schema leaves open: on the worked database it stores an
    advance of -5.00, a payment that takes the payments on the advance of
    1000.00 to 2200.00, and an advance inserted as APPROVED with neither
    approved_by nor approved_at. *)
Theorem schema_leaves_business_rules_open :
  run_script 8 ex_unchecked ex_db = Ok ex_db_unchecked /\
  map (fun r => (ca_id r, ca_amount r, ca_status r, ca_approved_by r,
                 ca_approved_at r))
      (cash_advances ex_db_unchecked)
  = [ (Some 20%N, Some 100000, Some "APPROVED", Some 1000%N, Some 6);
      (Some 21%N, Some 50000, Some "PENDING", None, None);
      (Some 22%N, Some (-500), Some "PENDING", None, None);
      (Some 23%N, Some 100, Some "APPROVED", None, None) ] /\
  sum_payments ex_db_unchecked 20 = 220000.
Proof. vm_compute. repeat split; reflexivity. Qed.

(** The interface couples its optional properties no more than the table
    does: a CashAdvance may carry approvedAt without approvedBy. *)
Example CashAdvance_optional_fields :
  approvedBy
    {| id := "23"; employeeId := "11"; amount := 100; reason := "rent";
       status := APPROVED; createdAt := 8; approvedAt := Some 9;
       approvedBy := None |}
  = None.
Proof. reflexivity. Qed.

(** ** The scenarios of the spec's section 8 *)

Example ex_scenario_paid_runs :
  perform_all 2 ex_scenario_paid ex_seed = Service.Done ex_db_repaid /\
  map (fun s => (summary_status s, total_paid s, remaining_balance s))
      (cash_advance_summary ex_db_repaid)
  = [ (Some "APPROVED", Some 100000, Some 0) ] /\
  Service.markPaid (ex_env 10) ex_db_repaid 3000 19500
  = Service.Done ex_db_paid /\
  map (fun ca => (ca_status ca, ca_approved_by ca, ca_payment_date ca))
      (cash_advances ex_db_paid)
  = [ (Some "PAID", Some 1000%N, Some 19500) ] /\
  List.length (audit_logs ex_db_paid) = 4%nat.
Proof. vm_compute. repeat split; reflexivity. Qed.

(** With one payment missing, markPaid is refused. *)
Example ex_scenario_balance_remains :
  Service.markPaid (ex_env 9) ex_service_db 4000 19500
  = Service.Failed Service.BalanceError.
Proof. vm_compute. reflexivity. Qed.

(** submit(E2, 500), reject: REJECTED, and approve then fails. *)
Example ex_scenario_rejected :
  option_map (@ca_status _) (Service.find_advance ex_service_db 7000)
  = Some (Some "REJECTED") /\
  Service.approve (ex_env 9) ex_service_db 7000 1000 None None
  = Service.Failed Service.InvalidStateError.
Proof. vm_compute. split; reflexivity. Qed.


(** ** The audit log over a history *)

Lemma audit_entry_stamp {R} `{Row R} E n op tbl (OLD NEW : option R) :
  al_id (audit_entry E n op tbl OLD NEW) = Some (uuid_generate_v4 E n) /\
  al_ip_address (audit_entry E n op tbl OLD NEW) = None /\
  al_created_at (audit_entry E n op tbl OLD NEW)
  = Some (CURRENT_TIMESTAMP E).
Proof. repeat split. Qed.

(** The columns the trigger leaves to their defaults. *)
Lemma audited_write_stamp E s table db db' :
  audited_table s = Some table ->
  run E (execute s) db = Ok (1%nat, db') ->
  exists entry,
    audit_logs db' = (audit_logs db ++ [entry])%list /\
    (exists k, al_id entry = Some k) /\
    al_ip_address entry = None /\
    al_created_at entry = Some (CURRENT_TIMESTAMP E).
Proof.
  destruct s; simpl; intros Ht H; try discriminate.
  - apply insert_employees_inv in H
      as (k0 & NEW & _ & _ & _ & _ & _ & _ & ->).
    eexists; split; [reflexivity|]; repeat split; simpl; eauto.
  - apply update_employees_inv in H.
    destruct (extract _ _) as [[[before OLD] after]|];
      [|destruct H as [? _]; discriminate].
    destruct H as (_ & _ & _ & _ & _ & ->).
    eexists; split; [reflexivity|]; repeat split; simpl; eauto.
  - apply delete_employees_inv in H.
    destruct (extract _ _) as [[[before OLD] after]|];
      [|destruct H as [? _]; discriminate].
    destruct H as (_ & _ & _ & _ & ->).
    eexists; split; [reflexivity|]; repeat split; simpl; eauto.
  - apply insert_cash_advances_inv in H
      as (k0 & NEW & _ & _ & _ & _ & _ & _ & ->).
    eexists; split; [reflexivity|]; repeat split; simpl; eauto.
  - apply update_cash_advances_inv in H.
    destruct (extract _ _) as [[[before OLD] after]|];
      [|destruct H as [? _]; discriminate].
    destruct H as (_ & _ & _ & _ & _ & ->).
    eexists; split; [reflexivity|]; repeat split; simpl; eauto.
  - apply delete_cash_advances_inv in H.
    destruct (extract _ _) as [[[before OLD] after]|];
      [|destruct H as [? _]; discriminate].
    destruct H as (_ & _ & _ & ->).
    eexists; split; [reflexivity|]; repeat split; simpl; eauto.
Qed.

Lemma audited_table_names s table :
  audited_table s = Some table ->
  In (Some table) [Some "employees"; Some "cash_advances"].
Proof.
  destruct s; simpl; intros H; inversion H; subst; simpl; auto.
Qed.

Lemma TG_OP_of_names s :
  In (Some (TG_OP_of s)) [Some "INSERT"; Some "UPDATE"; Some "DELETE"].
Proof. destruct s; simpl; auto. Qed.

(** One statement: the log stays, or gains one entry of that shape. *)
Lemma statement_log E s db n db' :
  run E (execute s) db = Ok (n, db') ->
  audit_logs db' = audit_logs db \/
  exists entry,
    audit_logs db' = (audit_logs db ++ [entry])%list /\ entry_shape entry.
Proof.
  intros H. destruct (audited_table s) as [table|] eqn:Ht.
  - destruct (@audited_write_logged E s table db n db' Ht H)
      as [[_ ->]|[-> [entry Hl]]]; auto.
    right. exists entry.
    destruct (@audited_write_stamp E s table db db' Ht H)
      as (entry' & Hlog' & Hid & Hip & Hat).
    destruct Hl as (Hlog & _ & Ha & Hty & Hk & Hex & Hold & Hnew & H1 & H2).
    rewrite Hlog in Hlog'. apply app_inj_tail in Hlog' as [_ <-].
    split; auto. unfold entry_shape.
    rewrite Ha, Hty, Hk, Hip, Hat, Hold, Hnew.
    repeat split; eauto using audited_table_names, TG_OP_of_names.
    destruct (String.eqb_spec (TG_OP_of s) "DELETE") as [Hop|Hop].
    + right. rewrite Hop in *. simpl in H2.
      destruct H2 as [?|H2]; [discriminate|]. auto.
    + left. destruct H1 as [?|H1]; [discriminate|].
      repeat split; auto. congruence.
  - left. eapply unaudited_write_silent; eauto.
Qed.

(** No statement on the four tables changes or removes an entry of the
    audit log: over any history the old log is the head of the new one. *)
Theorem audit_log_append_only db db' :
  evolves db db' ->
  exists more, audit_logs db' = (audit_logs db ++ more)%list.
Proof.
  induction 1 as [db|E s n db db1 db' _ [more IH] H].
  - exists []. rewrite app_nil_r. reflexivity.
  - destruct (statement_log _ _ _ H) as [Hs|(entry & Hs & _)].
    + exists more. congruence.
    + exists (more ++ [entry])%list. rewrite Hs, IH, app_assoc. reflexivity.
Qed.


(** ** The log against the tables *)













(** ** The rows of the view *)

Lemma append_space (a b : string) :
  ((a ++ " ") ++ b = a ++ " " ++ b)%string.
Proof. induction a as [|c a IH]; simpl; [|rewrite IH]; reflexivity. Qed.

Lemma employees_names_not_null r :
  employees_columns r = Ok tt ->
  (exists s, e_first_name r = Some s) /\ (exists s, e_last_name r = Some s).
Proof.
  unfold employees_columns. intros H. split_checks.
  split; eapply NOT_NULL_ok; eauto.
Qed.

(** A row of the view comes from one advance and its employee. *)
Lemma summary_row_source db s :
  consistent db -> In s (cash_advance_summary db) ->
  exists ca e k,
    In ca (cash_advances db) /\ In e (employees db) /\
    joins ca e = true /\ ca_id ca = Some k /\ s = summary_row db ca e k.
Proof.
  intros Hc Hs. unfold cash_advance_summary in Hs.
  apply in_flat_map in Hs as (K & HK & Hs).
  apply nodup_In, in_map_iff in HK as (j & <- & Hj).
  destruct (from_clause_advance _ _ Hj) as [Hca Hrows].
  destruct j as [[ca e] p]. simpl in Hca, Hrows.
  destruct (@rows_of_advance_eq db ca Hc Hca) as (e' & He' & Hjoin & Heq).
  rewrite Heq in Hrows. apply rows_for_key in Hrows. simpl in Hrows.
  inversion Hrows; subst e'. clear Hrows.
  pose proof (c_cash_advances Hc) as Hcol. rewrite Forall_forall in Hcol.
  destruct (cash_advances_id_not_null _ (Hcol _ Hca)) as [k Hk].
  exists ca, e, k. repeat split; auto.
  simpl in Hs. rewrite (@group_of_advance db ca e Hc Hca Heq) in Hs.
  rewrite (@select_group_rows_for db ca e k Hk) in Hs.
  destruct Hs as [<-|[]]. reflexivity.
Qed.

Lemma NoDup_by_filter {R} (id : R -> option uuid) l :
  (forall r, In r l ->
     exists k, id r = Some k /\
               List.length (filter (has_id id k) l) = 1%nat) ->
  NoDup (map id l).
Proof.
  induction l as [|r rest IH]; simpl; intros H; constructor.
  - destruct (H r (or_introl eq_refl)) as (k & Hk & Hlen).
    assert (Hr : has_id id k r = true) by (apply has_id_Some; auto).
    rewrite Hr in Hlen. simpl in Hlen.
    intros Hin. apply in_map_iff in Hin as (r' & Hid & Hr').
    assert (Hf : In r' (filter (has_id id k) rest)).
    { apply filter_In. split; auto. apply has_id_Some. congruence. }
    destruct (filter (has_id id k) rest); [destruct Hf|discriminate].
  - apply IH. intros r' Hr'.
    destruct (H r' (or_intror Hr')) as (k & Hk & Hlen).
    exists k. split; auto.
    assert (Hf : In r' (filter (has_id id k) rest)).
    { apply filter_In. split; auto. apply has_id_Some. auto. }
    destruct (has_id id k r); simpl in Hlen.
    + destruct (filter (has_id id k) rest); [destruct Hf|discriminate].
    + exact Hlen.
Qed.

(** The view has one row for each stored advance and no other row: the
    ids of its rows are the ids of the advances, each once. *)
Theorem summary_one_row_per_advance db :
  reachable db ->
  Permutation (map summary_id (cash_advance_summary db))
              (map (@ca_id _) (cash_advances db)).
Proof.
  intros Hr. pose proof (reachable_consistent Hr) as Hc.
  pose proof (c_cash_advances Hc) as Hcol. rewrite Forall_forall in Hcol.
  apply NoDup_Permutation.
  - apply NoDup_by_filter. intros s Hs.
    destruct (@summary_row_source db s Hc Hs) as (ca & e & k & Hca & _ & _ & Hk & ->).
    exists k. split; auto.
    destruct (@summary_row_of_advance db ca k Hc Hca Hk) as (s & -> & _).
    reflexivity.
  - apply Hc.
  - intros x. rewrite !in_map_iff. split.
    + intros (s & <- & Hs).
      destruct (@summary_row_source db s Hc Hs)
        as (ca & e & k & Hca & _ & _ & Hk & ->).
      exists ca. split; auto.
    + intros (ca & <- & Hca).
      destruct (cash_advances_id_not_null _ (Hcol _ Hca)) as [k Hk].
      destruct (@summary_row_of_advance db ca k Hc Hca Hk) as (s & Hs & _).
      assert (Hin : In s (filter (has_id summary_id k)
                            (cash_advance_summary db)))
        by (rewrite Hs; left; reflexivity).
      apply filter_In in Hin as [Hin Hid]. apply has_id_Some in Hid.
      exists s. split; [congruence|auto].
Qed.

(** Every row of the view shows a stored advance and the employee it
    belongs to: id, amount, status and created_at are the advance's, and
    employee_name is the employee's first name, a space and the last
    name. *)
Theorem summary_row_shows_advance db s :
  reachable db -> In s (cash_advance_summary db) ->
  exists ca e first last,
    In ca (cash_advances db) /\ In e (employees db) /\
    ca_employee_id ca = e_id e /\
    e_first_name e = Some first /\ e_last_name e = Some last /\
    summary_id s = ca_id ca /\
    employee_name s = Some (first ++ " " ++ last)%string /\
    summary_amount s = ca_amount ca /\
    summary_status s = ca_status ca /\
    summary_created_at s = ca_created_at ca.
Proof.
  intros Hr Hs. pose proof (reachable_consistent Hr) as Hc.
  destruct (@summary_row_source db s Hc Hs)
    as (ca & e & k & Hca & He & Hjoin & Hk & ->).
  pose proof (c_employees Hc) as Hcol. rewrite Forall_forall in Hcol.
  destruct (employees_names_not_null _ (Hcol _ He))
    as [[first Hf] [last Hl]].
  exists ca, e, first, last. simpl. rewrite Hf, Hl. simpl.
  repeat split; auto.
  - unfold joins in Hjoin. apply sql_eq_N_true in Hjoin as (x & -> & ->).
    reflexivity.
  - rewrite append_space. reflexivity.
Qed.

(** ** Rows that are referred to *)

Lemma NO_ACTION_referred c k referring :
  In (Some k) referring ->
  NO_ACTION c (Some k) referring = Err (foreign_key_violation c).
Proof.
  intros Hin. unfold NO_ACTION.
  assert (Hex : existsb (fun r => is_true (sql_eq N.eqb r (Some k)))
                  referring = true).
  { apply existsb_exists. exists (Some k). split; auto.
    apply sql_eq_N_true. eauto. }
  rewrite Hex. reflexivity.
Qed.

Lemma NO_ACTION_cases c key referring :
  NO_ACTION c key referring = Ok tt \/
  NO_ACTION c key referring = Err (foreign_key_violation c).
Proof. unfold NO_ACTION. destruct (existsb _ _); auto. Qed.

Lemma extract_present {R} (id : R -> option uuid) k l :
  In (Some k) (map id l) ->
  exists before OLD after,
    extract (has_id id k) l = Some (before, OLD, after) /\ id OLD = Some k.
Proof.
  intros Hin. apply in_map_iff in Hin as (r & Hid & Hr).
  destruct (extract (has_id id k) l) as [[[before OLD] after]|] eqn:Hex.
  - apply extract_Some in Hex as (_ & Hk & _). apply has_id_Some in Hk.
    eauto.
  - pose proof (extract_None _ _ Hex _ Hr) as Hf.
    apply has_id_false in Hf. contradiction.
Qed.

Lemma refers_Some k keys : refers (Some k) keys -> In (Some k) keys.
Proof. intros [H|H]; [discriminate|exact H]. Qed.

(** A cash advance that has a payment cannot be deleted: the payments keep
    their advance. *)
Theorem delete_paid_advance_rejected E db k p :
  reachable db ->
  In p (payments db) -> p_cash_advance_id p = Some k ->
  run E (execute (DELETE_FROM_cash_advances k)) db
  = Err (foreign_key_violation "payments_cash_advance_id_fkey").
Proof.
  intros Hr Hp Hk. pose proof (reachable_consistent Hr) as Hc.
  pose proof (fk_p_cash_advance Hc) as Hfk. rewrite Forall_forall in Hfk.
  pose proof (Hfk _ Hp) as Href. rewrite Hk in Href.
  apply refers_Some, extract_present in Href
    as (before & OLD & after & Hex & Hid).
  simpl. unfold run, delete_cash_advances, bind, get, put, check, ret.
  simpl. rewrite Hex, Hid.
  rewrite (@NO_ACTION_referred "payments_cash_advance_id_fkey" k
             (map (@p_cash_advance_id _) (payments db))).
  - reflexivity.
  - rewrite <- Hk. apply in_map. exact Hp.
Qed.

(** An employee who has a cash advance cannot be deleted. *)
Theorem delete_employee_with_advance_rejected E db k ca :
  reachable db ->
  In ca (cash_advances db) -> ca_employee_id ca = Some k ->
  exists c,
    run E (execute (DELETE_FROM_employees k)) db
    = Err (foreign_key_violation c) /\
    In c ["employees_supervisor_id_fkey"; "cash_advances_employee_id_fkey"].
Proof.
  intros Hr Hca Hk. pose proof (reachable_consistent Hr) as Hc.
  pose proof (fk_ca_employee Hc) as Hfk. rewrite Forall_forall in Hfk.
  pose proof (Hfk _ Hca) as Href. rewrite Hk in Href.
  apply refers_Some, extract_present in Href
    as (before & OLD & after & Hex & Hid).
  simpl. unfold run, delete_employees, bind, get, put, check, ret.
  simpl. rewrite Hex, Hid.
  destruct (NO_ACTION_cases "employees_supervisor_id_fkey" (Some k)
              (map (@e_supervisor_id _) (before ++ after))) as [Hs|Hs];
    rewrite Hs.
  - cbn [fst snd].
    rewrite (@fk_supervisor_on_delete_idle E O
               (set_employees db (before ++ after)) (Some k) _ Hs).
    cbn beta iota.
    rewrite (@NO_ACTION_referred "cash_advances_employee_id_fkey" k
               (map (@ca_employee_id _) (cash_advances db))).
    + eexists. split; [reflexivity|]. simpl; auto.
    + rewrite <- Hk. apply in_map. exact Hca.
  - eexists. split; [reflexivity|]. simpl; auto.
Qed.

(** A user that an employee, an approved advance, a recorded payment or an
    audit entry names cannot be deleted. *)
Theorem delete_referenced_user_rejected E db k :
  reachable db ->
  In (Some k) (user_references db) ->
  exists c,
    run E (execute (DELETE_FROM_users k)) db
    = Err (foreign_key_violation c) /\
    In c ["employees_user_id_fkey"; "cash_advances_approved_by_fkey";
          "payments_recorded_by_fkey"; "audit_logs_user_id_fkey"].
Proof.
  intros Hr Hin. pose proof (reachable_consistent Hr) as Hc.
  assert (Huser : In (Some k) (map (@u_id _) (users db))).
  { unfold user_references in Hin.
    repeat (apply in_app_or in Hin as [Hin|Hin]);
      apply in_map_iff in Hin as (r & Hid & Hin).
    - pose proof (fk_e_user Hc) as Hfk. rewrite Forall_forall in Hfk.
      apply refers_Some. rewrite <- Hid. auto.
    - pose proof (fk_ca_approved_by Hc) as Hfk.
      rewrite Forall_forall in Hfk.
      apply refers_Some. rewrite <- Hid. auto.
    - pose proof (fk_p_recorded_by Hc) as Hfk.
      rewrite Forall_forall in Hfk.
      apply refers_Some. rewrite <- Hid. auto.
    - pose proof (fk_al_user Hc) as Hfk. rewrite Forall_forall in Hfk.
      apply refers_Some. rewrite <- Hid. auto. }
  apply extract_present in Huser as (before & OLD & after & Hex & Hid).
  simpl. unfold run, delete_users, bind, get, put, check, ret.
  simpl. rewrite Hex, Hid.
  destruct (NO_ACTION_cases "employees_user_id_fkey" (Some k)
              (map (@e_user_id _) (employees db))) as [H1|H1]; rewrite H1;
    [|eexists; split; [reflexivity|simpl; auto]].
  destruct (NO_ACTION_cases "cash_advances_approved_by_fkey" (Some k)
              (map (@ca_approved_by _) (cash_advances db))) as [H2|H2];
    rewrite H2; [|eexists; split; [reflexivity|simpl; auto]].
  destruct (NO_ACTION_cases "payments_recorded_by_fkey" (Some k)
              (map (@p_recorded_by _) (payments db))) as [H3|H3];
    rewrite H3; [|eexists; split; [reflexivity|simpl; auto]].
  destruct (NO_ACTION_cases "audit_logs_user_id_fkey" (Some k)
              (map (@al_user_id _) (audit_logs db))) as [H4|H4];
    rewrite H4; [|eexists; split; [reflexivity|simpl; auto 6]].
  exfalso. unfold user_references in Hin.
  apply NO_ACTION_ok in H1, H2, H3, H4.
  repeat (apply in_app_or in Hin as [Hin|Hin]); contradiction.
Qed.



(** ** What the tables accept *)

Lemma UNIQUE_N_fresh c k (others : list (option uuid)) :
  ~ In (Some k) others -> UNIQUE N.eqb c (Some k) others = Ok tt.
Proof.
  intros Hn. unfold UNIQUE.
  destruct (existsb _ _) eqn:Hex; [|reflexivity].
  apply existsb_exists in Hex as (x & Hx & Heq).
  apply sql_eq_N_true in Heq as (k' & Hk & ->).
  inversion Hk; subst. contradiction.
Qed.

Lemma REFERENCES_refers c v keys :
  refers v keys -> REFERENCES c v keys = Ok tt.
Proof.
  intros [->|Hin]; [reflexivity|].
  destruct v as [k|]; [|reflexivity]. unfold REFERENCES.
  assert (Hex : existsb (fun x => is_true (sql_eq N.eqb (Some k) x)) keys
                = true).
  { apply existsb_exists. exists (Some k). split; auto.
    apply sql_eq_N_true. eauto. }
  rewrite Hex. reflexivity.
Qed.

(** The trigger's entry meets the constraints of [audit_logs] in such a
    session. *)
Lemma audit_entry_accepted {R} `{Row R} E n db db1 op tbl
  (OLD NEW : option R) :
  session_ok E n db ->
  users db1 = users db -> audit_logs db1 = audit_logs db ->
  In op ["INSERT"; "UPDATE"; "DELETE"] ->
  In tbl ["employees"; "cash_advances"] ->
  audit_logs_constraints db1 (audit_entry E n op tbl OLD NEW) = Ok tt.
Proof.
  intros [Hu Hid] Husers Hlog Hop Htbl.
  unfold audit_logs_constraints, audit_logs_columns, audit_logs_keys,
    audit_logs_references. simpl. rewrite Husers, Hlog.
  rewrite (@UNIQUE_N_fresh "audit_logs_pkey" _ _ Hid),
    (@REFERENCES_refers "audit_logs_user_id_fkey" _ _ Hu).
  destruct Hop as [<-|[<-|[<-|[]]]]; destruct Htbl as [<-|[<-|[]]];
    reflexivity.
Qed.

Lemma insert_payments_run E r db :
  let NEW := payments_defaults E
               (or_default (p_id r) (Some (uuid_generate_v4 E O))) r in
  payments_columns NEW = Ok tt ->
  payments_keys (payments db) NEW = Ok tt ->
  payments_references db NEW = Ok tt ->
  run E (insert_payments r) db
  = Ok (1%nat, set_payments db (payments db ++ [NEW])).
Proof.
  intros NEW Hcol Hkey Href. subst NEW.
  unfold run, insert_payments, bind, ask, get, put, check, ret,
    default_uuid, gen_uuid.
  destruct (p_id r); simpl in *; rewrite Hcol, Hkey, Href; reflexivity.
Qed.

(** The payments table takes a payment of any amount NUMERIC(10,2) holds
    on any stored advance: negative, zero, or more than is left of the
    advance, whatever the advance's status; the total paid on the advance
    moves by that amount. *)
Theorem payment_amount_unchecked E db k a :
  In (Some k) (map (@ca_id _) (cash_advances db)) ->
  Z.abs a < 10 ^ 10 ->
  ~ In (Some (uuid_generate_v4 E O)) (map (@p_id _) (payments db)) ->
  exists db',
    run E (execute (INSERT_INTO_payments (payment_of k a))) db
    = Ok (1%nat, db') /\
    sum_payments db' k = sum_payments db k + a.
Proof.
  intros Hk Ha Hid.
  set (NEW := payments_defaults E (Some (uuid_generate_v4 E O))
                (payment_of k a)).
  exists (set_payments db (payments db ++ [NEW])). split.
  - simpl. apply insert_payments_run.
    + apply Z.ltb_lt in Ha. unfold payments_columns. simpl in *.
      rewrite Ha. reflexivity.
    + apply UNIQUE_N_fresh. exact Hid.
    + unfold payments_references.
      cbn [payments_defaults payment_of or_default p_cash_advance_id
           p_recorded_by].
      rewrite (@REFERENCES_refers "payments_cash_advance_id_fkey" (Some k)
                 (map (@ca_id _) (cash_advances db)) (or_intror Hk)).
      reflexivity.
  - rewrite (@sum_payments_snoc db
               (set_payments db (payments db ++ [NEW])) NEW k eq_refl).
    simpl.
    rewrite N.eqb_refl. reflexivity.
Qed.

Lemma insert_cash_advances_run E r db :
  let n := match ca_id r with DEFAULT => 1%nat | VALUE _ => O end in
  let NEW := cash_advances_defaults E
               (or_default (ca_id r) (Some (uuid_generate_v4 E O))) r in
  let db1 := set_cash_advances db (cash_advances db ++ [NEW]) in
  let entry := audit_entry E n "INSERT" "cash_advances" None (Some NEW) in
  cash_advances_columns NEW = Ok tt ->
  cash_advances_keys (cash_advances db) NEW = Ok tt ->
  cash_advances_references db NEW = Ok tt ->
  audit_logs_constraints db1 entry = Ok tt ->
  run E (insert_cash_advances r) db
  = Ok (1%nat, set_audit_logs db1 (audit_logs db ++ [entry])).
Proof.
  intros n NEW db1 entry Hcol Hkey Href Ha. subst n NEW db1 entry.
  unfold run, insert_cash_advances, default_uuid, gen_uuid, bind, ask,
    get, put, check, ret.
  destruct (ca_id r); cbn [fst snd or_default] in *;
    cbn beta iota zeta; cbn [fst snd];
    rewrite Hcol, Hkey, Href; cbn [seq_result fst snd];
    rewrite audit_trigger_function_eq, Ha; reflexivity.
Qed.


Lemma NUMERIC_10_2_in_range c (a : numeric) :
  Z.abs a < 10 ^ 10 -> NUMERIC_10_2 c (Some a) = Ok tt.
Proof.
  intros Ha. apply Z.ltb_lt in Ha. unfold NUMERIC_10_2.
  rewrite Ha. reflexivity.
Qed.

(** The cash_advances table takes a request of any amount NUMERIC(10,2)
    holds, negative and zero too, for any stored employee; left to its
    defaults the row is stored as PENDING, created now, with no approver. *)
Theorem advance_amount_unchecked E db e a purpose :
  In (Some e) (map (@e_id _) (employees db)) ->
  Z.abs a < 10 ^ 10 ->
  ~ In (Some (uuid_generate_v4 E O)) (map (@ca_id _) (cash_advances db)) ->
  session_ok E 1 db ->
  exists db' NEW,
    run E (execute (INSERT_INTO_cash_advances (advance_of e a purpose))) db
    = Ok (1%nat, db') /\
    cash_advances db' = (cash_advances db ++ [NEW])%list /\
    ca_id NEW = Some (uuid_generate_v4 E O) /\
    ca_amount NEW = Some a /\
    ca_status NEW = Some "PENDING" /\
    ca_created_at NEW = Some (CURRENT_TIMESTAMP E) /\
    ca_approved_by NEW = None /\ ca_approved_at NEW = None.
Proof.
  intros He Ha Hid Hs.
  set (NEW := cash_advances_defaults E (Some (uuid_generate_v4 E O))
                (advance_of e a purpose)).
  set (db1 := set_cash_advances db (cash_advances db ++ [NEW])).
  set (entry := audit_entry E 1 "INSERT" "cash_advances" None (Some NEW)).
  exists (set_audit_logs db1 (audit_logs db ++ [entry])), NEW.
  split; [|repeat split].
  simpl. apply insert_cash_advances_run.
  - unfold cash_advances_columns.
    cbn [cash_advances_defaults advance_of or_default ca_id ca_employee_id
         ca_amount ca_purpose ca_status ca_installment_period
         ca_monthly_deduction].
    rewrite (@NUMERIC_10_2_in_range "amount" a Ha). reflexivity.
  - apply UNIQUE_N_fresh. exact Hid.
  - unfold cash_advances_references.
    cbn [cash_advances_defaults advance_of or_default ca_employee_id
         ca_approved_by].
    rewrite (@REFERENCES_refers "cash_advances_employee_id_fkey" (Some e)
               (map (@e_id _) (employees db)) (or_intror He)).
    reflexivity.
  - apply (@audit_entry_accepted _ _ E 1%nat db); simpl; auto.
Qed.



(** ** A payment in the view *)

(** A recorded payment shows in the view: the row of the advance it is
    for has its total_paid raised and its remaining_balance lowered by the
    payment's amount, and the rows of the other advances keep both. *)
Theorem payment_lowers_balance E r db n db' k a ca k' :
  reachable db ->
  run E (execute (INSERT_INTO_payments r)) db = Ok (n, db') ->
  p_cash_advance_id r = VALUE (Some k) -> p_amount r = VALUE (Some a) ->
  In ca (cash_advances db) -> ca_id ca = Some k' ->
  exists s s' paid left,
    filter (has_id summary_id k') (cash_advance_summary db) = [s] /\
    filter (has_id summary_id k') (cash_advance_summary db') = [s'] /\
    total_paid s = Some paid /\ remaining_balance s = Some left /\
    let d := if N.eqb k' k then a else 0 in
    total_paid s' = Some (paid + d) /\
    remaining_balance s' = Some (left - d).
Proof.
  intros Hr H Hk Ha Hca Hid.
  pose proof (reachable_consistent Hr) as Hc.
  pose proof (reachable_consistent (@reachable_step E _ n db db' Hr H))
    as Hc'.
  simpl in H.
  apply insert_payments_inv in H as (NEW & HNEW & _ & _ & _ & _ & ->).
  pose proof (c_cash_advances Hc) as Hcol. rewrite Forall_forall in Hcol.
  destruct (cash_advances_not_null _ (Hcol _ Hca))
    as (_ & _ & (amt & Hamt)).
  destruct (@summary_row_of_advance db ca k' Hc Hca Hid)
    as (s & Hs & _ & Hpaid & Hleft).
  destruct (@summary_row_of_advance _ ca k' Hc' Hca Hid)
    as (s' & Hs' & _ & Hpaid' & Hleft').
  exists s, s', (sum_payments db k'), (amt - sum_payments db k').
  rewrite Hamt in Hleft, Hleft'. simpl in Hleft, Hleft'.
  rewrite (@sum_payments_snoc db (set_payments db (payments db ++ [NEW]))
             NEW k' eq_refl) in Hpaid', Hleft'.
  assert (Hd : (if is_true (sql_eq N.eqb (Some k') (p_cash_advance_id NEW))
                then amount_or_zero (p_amount NEW) else 0)
               = if N.eqb k' k then a else 0).
  { rewrite HNEW. simpl. rewrite Hk, Ha. simpl.
    destruct (N.eqb k' k); reflexivity. }
  rewrite Hd in Hpaid', Hleft'.
  repeat split; auto.
  cbv zeta. rewrite Hleft'. f_equal.
  generalize (sum_payments db k'). intros paid.
  destruct (N.eqb k' k); unfold numeric in *; lia.
Qed.

(** ** A key that names no row *)

Lemma extract_absent {R} (id : R -> option uuid) k l :
  ~ In (Some k) (map id l) -> extract (has_id id k) l = None.
Proof.
  intros Hn.
  destruct (extract (has_id id k) l) as [[[before OLD] after]|] eqn:Hex;
    [|reflexivity].
  apply extract_Some in Hex as (-> & Hk & _). apply has_id_Some in Hk.
  exfalso. apply Hn. rewrite <- Hk. apply in_map.
  apply in_or_app. right. left. reflexivity.
Qed.

(** An UPDATE or DELETE whose key names no row of its table is no error:
    it reports zero rows, leaves every table as it was and writes nothing
    to the audit log. *)
Theorem absent_key_touches_nothing E s db k keys :
  target db s = Some (k, keys) -> ~ In (Some k) keys ->
  run E (execute s) db = Ok (O, db).
Proof.
  destruct db as [us es cas ps als].
  destruct s; simpl; intros Ht Hn; inversion Ht; subst; clear Ht;
    apply extract_absent in Hn;
    unfold run, update_users, delete_users, update_employees,
      delete_employees, update_cash_advances, delete_cash_advances,
      update_payments, delete_payments, bind, get, ret;
    cbn [fst snd users employees cash_advances payments];
    rewrite Hn; reflexivity.
Qed.

(** ** The properties on the worked database *)

Lemma ex_db_evolves : evolves ex_db ex_db_approved.
Proof.
  eapply evolves_step; [apply evolves_refl|exact ex_db_approved_computed].
Qed.


Lemma ex_session_ok_1 : session_ok (ex_env 8) 1 ex_db.
Proof.
  split; [right; left; reflexivity|].
  vm_compute. intuition discriminate.
Qed.

Lemma audit_log_append_only_witness :
  exists more, audit_logs ex_db_approved = (audit_logs ex_db ++ more)%list.
Proof.
  exact (@audit_log_append_only ex_db ex_db_approved ex_db_evolves).
Defined.




Lemma summary_one_row_per_advance_witness :
  Permutation (map summary_id (cash_advance_summary ex_db))
              (map (@ca_id _) (cash_advances ex_db)).
Proof. exact (@summary_one_row_per_advance ex_db ex_db_reachable). Defined.

Lemma summary_row_shows_advance_witness :
  exists ca e first last,
    In ca (cash_advances ex_db) /\ In e (employees ex_db) /\
    ca_employee_id ca = e_id e /\
    e_first_name e = Some first /\ e_last_name e = Some last /\
    summary_id ex_summary_row = ca_id ca /\
    employee_name ex_summary_row = Some (first ++ " " ++ last)%string /\
    summary_amount ex_summary_row = ca_amount ca /\
    summary_status ex_summary_row = ca_status ca /\
    summary_created_at ex_summary_row = ca_created_at ca.
Proof.
  apply (@summary_row_shows_advance ex_db ex_summary_row).
  - exact ex_db_reachable.
  - vm_compute. left. reflexivity.
Defined.

Lemma delete_paid_advance_rejected_witness :
  run (ex_env 8) (execute (DELETE_FROM_cash_advances 20)) ex_db
  = Err (foreign_key_violation "payments_cash_advance_id_fkey").
Proof.
  apply (@delete_paid_advance_rejected (ex_env 8) ex_db 20%N
           ex_first_payment).
  - exact ex_db_reachable.
  - left. reflexivity.
  - reflexivity.
Defined.

Lemma delete_employee_with_advance_rejected_witness :
  exists c,
    run (ex_env 8) (execute (DELETE_FROM_employees 11)) ex_db
    = Err (foreign_key_violation c) /\
    In c ["employees_supervisor_id_fkey"; "cash_advances_employee_id_fkey"].
Proof.
  apply (@delete_employee_with_advance_rejected (ex_env 8) ex_db 11%N
           ex_first_advance).
  - exact ex_db_reachable.
  - left. reflexivity.
  - reflexivity.
Defined.

Lemma delete_referenced_user_rejected_witness :
  exists c,
    run (ex_env 8) (execute (DELETE_FROM_users 1000)) ex_db
    = Err (foreign_key_violation c) /\
    In c ["employees_user_id_fkey"; "cash_advances_approved_by_fkey";
          "payments_recorded_by_fkey"; "audit_logs_user_id_fkey"].
Proof.
  apply (@delete_referenced_user_rejected (ex_env 8) ex_db 1000%N).
  - exact ex_db_reachable.
  - vm_compute. right. right. left. reflexivity.
Defined.


Lemma payment_amount_unchecked_witness :
  exists db',
    run (ex_env 8) (execute (INSERT_INTO_payments (payment_of 20 (-500))))
        ex_db
    = Ok (1%nat, db') /\
    sum_payments db' 20 = sum_payments ex_db 20 + -500.
Proof.
  apply (@payment_amount_unchecked (ex_env 8) ex_db 20%N (-500)).
  - left. reflexivity.
  - reflexivity.
  - vm_compute. intuition discriminate.
Defined.

Lemma advance_amount_unchecked_witness :
  exists db' NEW,
    run (ex_env 8)
        (execute (INSERT_INTO_cash_advances (advance_of 11 (-500) "rent")))
        ex_db
    = Ok (1%nat, db') /\
    cash_advances db' = (cash_advances ex_db ++ [NEW])%list /\
    ca_id NEW = Some (uuid_generate_v4 (ex_env 8) O) /\
    ca_amount NEW = Some (-500) /\
    ca_status NEW = Some "PENDING" /\
    ca_created_at NEW = Some (CURRENT_TIMESTAMP (ex_env 8)) /\
    ca_approved_by NEW = None /\ ca_approved_at NEW = None.
Proof.
  apply (@advance_amount_unchecked (ex_env 8) ex_db 11%N (-500) "rent").
  - right. left. reflexivity.
  - reflexivity.
  - vm_compute. intuition discriminate.
  - exact ex_session_ok_1.
Defined.


Lemma payment_lowers_balance_witness :
  exists s s' paid left,
    filter (has_id summary_id 20) (cash_advance_summary ex_db) = [s] /\
    filter (has_id summary_id 20) (cash_advance_summary ex_db_untyped)
    = [s'] /\
    total_paid s = Some paid /\ remaining_balance s = Some left /\
    let d := if N.eqb 20 20 then 5000 else 0 in
    total_paid s' = Some (paid + d) /\
    remaining_balance s' = Some (left - d).
Proof.
  apply (@payment_lowers_balance (ex_env 8) (ex_payment 31 20 5000 None)
           ex_db 1%nat ex_db_untyped 20%N 5000 ex_first_advance 20%N).
  - exact ex_db_reachable.
  - vm_compute. reflexivity.
  - reflexivity.
  - reflexivity.
  - left. reflexivity.
  - reflexivity.
Defined.

Lemma absent_key_touches_nothing_witness :
  run (ex_env 8) (execute (DELETE_FROM_payments 99)) ex_db = Ok (O, ex_db).
Proof.
  apply (@absent_key_touches_nothing (ex_env 8) (DELETE_FROM_payments 99)
           ex_db 99%N (map (@p_id _) (payments ex_db))).
  - reflexivity.
  - vm_compute. intuition discriminate.
Defined.

(** ** The bound of NUMERIC(10,2) *)

Lemma NUMERIC_10_2_out_of_range c (a : numeric) :
  10 ^ 10 <= Z.abs a ->
  NUMERIC_10_2 c (Some a) = Err (numeric_value_out_of_range c).
Proof.
  intros Ha. apply Z.ltb_ge in Ha. unfold NUMERIC_10_2.
  rewrite Ha. reflexivity.
Qed.

(** An amount of a hundred million or more, either sign, is refused with
    numeric_value_out_of_range, as a cash advance's amount and as a
    payment's, before any other check of the row. *)
Theorem amount_out_of_range_rejected E db (a : numeric) :
  10 ^ 10 <= Z.abs a ->
  (forall r, ca_amount r = VALUE (Some a) ->
     run E (execute (INSERT_INTO_cash_advances r)) db
     = Err (numeric_value_out_of_range "amount")) /\
  (forall r, p_amount r = VALUE (Some a) ->
     run E (execute (INSERT_INTO_payments r)) db
     = Err (numeric_value_out_of_range "amount")).
Proof.
  intros Ha. split; intros r Hr; simpl.
  - unfold run, insert_cash_advances, default_uuid, gen_uuid, bind, ask,
      get, put, check, ret, cash_advances_columns.
    destruct (ca_id r);
      cbn [fst snd cash_advances_defaults ca_amount]; rewrite Hr;
      cbn [or_default];
      rewrite (@NUMERIC_10_2_out_of_range "amount" a Ha); reflexivity.
  - unfold run, insert_payments, default_uuid, gen_uuid, bind, ask,
      get, put, check, ret, payments_columns.
    destruct (p_id r);
      cbn [fst snd payments_defaults p_amount]; rewrite Hr;
      cbn [or_default];
      rewrite (@NUMERIC_10_2_out_of_range "amount" a Ha); reflexivity.
Qed.

Lemma amount_out_of_range_rejected_witness :
  (forall r, ca_amount r = VALUE (Some (10 ^ 10)) ->
     run (ex_env 8) (execute (INSERT_INTO_cash_advances r)) ex_db
     = Err (numeric_value_out_of_range "amount")) /\
  (forall r, p_amount r = VALUE (Some (10 ^ 10)) ->
     run (ex_env 8) (execute (INSERT_INTO_payments r)) ex_db
     = Err (numeric_value_out_of_range "amount")).
Proof.
  apply (@amount_out_of_range_rejected (ex_env 8) ex_db (10 ^ 10)).
  vm_compute. discriminate.
Defined.

(** ** An update that changes nothing *)



